(** * Entity linker (NER_flair_streamlit.py): a shallow embedding

    The file follows the class [EntityLinker] of [src/NER_flair_streamlit.py]:
    the type mapper, the entity validator, the overlap resolver, entity
    extraction, the geographical context detector, the knowledge linkers and
    the geocoding resolver.

    Modelling conventions.
    - A Python [str] is a [string]; a character is a code point below 256 and
      the character classes ([isspace], [isalpha], [isupper], [lower]) are
      Unicode's on that range.
    - An entity, a [dict] with a fixed set of keys, is the record [Entity];
      an absent key is [None].
    - A [dict] literal that is iterated ([.items()]) is an association list in
      insertion order.
    - Offsets are [Z]; lengths are [nat].
    - A [float] coordinate is carried as a rational; no arithmetic is done on
      it.
    - The library calls the source makes ([re], [urllib.parse.quote],
      [float] on a string, the tagger) are parameters; the network is a
      script of answers consumed call by call, and every call and every
      [time.sleep] is logged in a trace.
    - [print] and the Streamlit widgets are left out. *)

From Stdlib Require Import String Ascii List ZArith NArith QArith Lia Bool Arith Sorted.
Import ListNotations.
Local Open Scope string_scope.
Local Open Scope list_scope.

(** ** Python strings *)

Module PyStr.

Definition code (c : ascii) : N := N_of_ascii c.

Definition between (lo hi : N) (c : ascii) : bool :=
  ((lo <=? code c) && (code c <=? hi))%N.

(** [str.isspace] on one character. *)
Definition isspace (c : ascii) : bool :=
  between 9 13 c || between 28 32 c || (code c =? 133)%N || (code c =? 160)%N.

(** [str.isupper] on one character. *)
Definition isupper (c : ascii) : bool :=
  between 65 90 c || between 192 214 c || between 216 222 c.

(** [str.isalpha] on one character. *)
Definition isalpha_char (c : ascii) : bool :=
  between 65 90 c || between 97 122 c
  || (code c =? 170)%N || (code c =? 181)%N || (code c =? 186)%N
  || between 192 214 c || between 216 246 c || between 248 255 c.

Definition lower_char (c : ascii) : ascii :=
  if isupper c then ascii_of_N (code c + 32) else c.

(** [s.lower()] *)
Fixpoint lower (s : string) : string :=
  match s with
  | EmptyString => EmptyString
  | String c s' => String (lower_char c) (lower s')
  end.

Fixpoint all_chars (p : ascii -> bool) (s : string) : bool :=
  match s with
  | EmptyString => true
  | String c s' => p c && all_chars p s'
  end.

(** [s.isalpha()]: false on the empty string. *)
Definition isalpha (s : string) : bool :=
  match s with
  | EmptyString => false
  | _ => all_chars isalpha_char s
  end.

(** [sub in s] *)
Fixpoint contains (sub s : string) : bool :=
  prefix sub s
  || match s with
     | EmptyString => false
     | String _ s' => contains sub s'
     end.

Fixpoint lstrip (s : string) : string :=
  match s with
  | EmptyString => EmptyString
  | String c s' => if isspace c then lstrip s' else s
  end.

Fixpoint rstrip (s : string) : string :=
  match s with
  | EmptyString => EmptyString
  | String c s' =>
      match rstrip s' with
      | EmptyString => if isspace c then EmptyString else String c EmptyString
      | r => String c r
      end
  end.

(** [s.strip()] *)
Definition strip (s : string) : string := rstrip (lstrip s).

Definition flush (word : string) : list string :=
  match word with
  | EmptyString => []
  | _ => [word]
  end.

Fixpoint split_from (word s : string) : list string :=
  match s with
  | EmptyString => flush word
  | String c s' =>
      if isspace c then flush word ++ split_from EmptyString s'
      else split_from (word ++ String c EmptyString) s'
  end.

(** [s.split()]: the maximal runs of non-space characters. *)
Definition split (s : string) : list string := split_from EmptyString s.

(** [bool(s)] for an optional string: a missing key and the empty string
    are both falsy. *)
Definition truthy (o : option string) : bool :=
  match o with
  | Some (String _ _) => true
  | _ => false
  end.

End PyStr.

(** ** Dictionaries in insertion order *)

Fixpoint dict_get {V : Type} (d : list (string * V)) (k : string) : option V :=
  match d with
  | [] => None
  | (k', v) :: d' => if String.eqb k' k then Some v else dict_get d' k
  end.

Definition keys {V : Type} (d : list (string * V)) : list string := map fst d.

(** [x in l] for a list of strings. *)
Definition mem (x : string) (l : list string) : bool := existsb (String.eqb x) l.

(** ** The entity record *)

Definition float := Q.

Record Entity := mkEntity {
  text : string;
  type : string;
  start : Z;
  end_ : Z;
  label : option string;
  wikidata_url : option string;
  wikidata_description : option string;
  wikipedia_url : option string;
  wikipedia_title : option string;
  wikipedia_description : option string;
  britannica_url : option string;
  britannica_title : option string;
  openstreetmap_url : option string;
  openstreetmap_display_name : option string;
  latitude : option float;
  longitude : option float;
  location_name : option string;
  geocoding_source : option string;
  search_term_used : option string
}.

(** The dictionary built by [extract_entities] and [_extract_addresses]:
    only the span keys are present. *)
Definition new_entity (t ty : string) (s e : Z) (l : option string) : Entity :=
  mkEntity t ty s e l None None None None None None None None None
           None None None None None.

(** Python's [==] on two entity dictionaries. *)
Definition Entity_eq_dec (a b : Entity) : {a = b} + {a <> b}.
Proof.
  repeat decide equality.
Defined.

(** A span of the tagger: [ent.text], [ent.get_label('ner').value],
    [ent.start_position], [ent.end_position]. *)
Record Span := mkSpan {
  span_text : string;
  span_tag : string;
  start_position : Z;
  end_position : Z
}.

(** ** TypeMapper *)

Definition mapping : list (string * string) :=
  [ ("PER", "PERSON"); ("ORG", "ORGANIZATION"); ("LOC", "LOCATION");
    ("MISC", "MISC");
    ("B-PER", "PERSON"); ("I-PER", "PERSON");
    ("B-ORG", "ORGANIZATION"); ("I-ORG", "ORGANIZATION");
    ("B-LOC", "LOCATION"); ("I-LOC", "LOCATION");
    ("B-MISC", "MISC"); ("I-MISC", "MISC");
    ("PERSON", "PERSON"); ("ORGANIZATION", "ORGANIZATION");
    ("GPE", "LOCATION"); ("LOCATION", "LOCATION"); ("FACILITY", "LOCATION");
    ("PRODUCT", "MISC"); ("EVENT", "MISC"); ("WORK_OF_ART", "MISC");
    ("LANGUAGE", "MISC") ].

(** [mapping.get(flair_label, flair_label)] *)
Definition _map_flair_entity_type (flair_label : string) : string :=
  match dict_get mapping flair_label with
  | Some v => v
  | None => flair_label
  end.

(** ** EntityValidator *)

(** [word[0].isupper()]; the words of [split] are never empty. *)
Definition first_isupper (word : string) : bool :=
  match word with
  | EmptyString => false
  | String c _ => PyStr.isupper c
  end.

Definition _is_valid_entity (entity_text entity_type : string) (flair_span : Span) : bool :=
  if (String.length (PyStr.strip entity_text) <=? 1)%nat then false
  else if String.eqb entity_type "PERSON" then
    let words := PyStr.split entity_text in
    if forallb first_isupper (filter PyStr.isalpha words) then true else false
  else true.

(** ** OverlapResolver *)

(** [entities.sort(key=lambda x: x['start'])]: Python's sort is stable, so
    the result is the stable sorted arrangement; a stable insertion sort
    computes it. *)
Fixpoint insert_by_start (x : Entity) (l : list Entity) : list Entity :=
  match l with
  | [] => [x]
  | y :: l' => if (start x <=? start y)%Z then x :: l else y :: insert_by_start x l'
  end.

Fixpoint sort_by_start (l : list Entity) : list Entity :=
  match l with
  | [] => []
  | x :: l' => insert_by_start x (sort_by_start l')
  end.

(** The test of the inner loop:
    [entity['start'] < existing['end'] and entity['end'] > existing['start']]. *)
Definition overlap_test (entity existing : Entity) : bool :=
  (start entity <? end_ existing)%Z && (end_ entity >? start existing)%Z.

(** [filtered.remove(existing)]: the first element equal to [existing] goes. *)
Fixpoint list_remove (x : Entity) (l : list Entity) : list Entity :=
  match l with
  | [] => []
  | y :: l' => if Entity_eq_dec x y then l' else y :: list_remove x l'
  end.

(** The inner loop [for existing in filtered[:]] over what is left of the
    copy; it returns the list [filtered] and the flag [overlaps] as they are
    at the [break] or at the end of the copy. *)
Fixpoint scan_existing (entity : Entity) (copy filtered : list Entity)
  : list Entity * bool :=
  match copy with
  | [] => (filtered, false)
  | existing :: rest =>
      if overlap_test entity existing then
        if (String.length (text existing) <? String.length (text entity))%nat
        then (list_remove existing filtered, false)
        else (filtered, true)
      else scan_existing entity rest filtered
  end.

(** One turn of the outer loop. *)
Definition resolve_step (filtered : list Entity) (entity : Entity) : list Entity :=
  let '(filtered', overlaps) := scan_existing entity filtered filtered in
  if overlaps then filtered' else filtered' ++ [entity].

Definition _remove_overlapping_entities (entities : list Entity) : list Entity :=
  fold_left resolve_step (sort_by_start entities) [].

(** The overlap relation of the specification. *)
Definition overlaps (a b : Entity) : Prop :=
  (start a < end_ b)%Z /\ (start b < end_ a)%Z.

(** No two entities at different positions of [l] overlap. *)
Definition pairwise_disjoint (l : list Entity) : Prop :=
  forall i j a b,
    i <> j -> nth_error l i = Some a -> nth_error l j = Some b -> ~ overlaps a b.

(** ** Entity extraction *)

Definition excluded_types : list string :=
  ["DATE"; "TIME"; "PERCENT"; "MONEY"; "QUANTITY"; "ORDINAL"; "CARDINAL"].

(** A match object of [re.finditer]: [group()], [start()], [end()]. *)
Record Match := mkMatch {
  group : string;
  match_start : Z;
  match_end : Z
}.

Definition address_patterns : list string :=
  [ "\b\d{1,4}[-–]\d{1,4}\s+[A-Z][a-z]+(?:\s+[A-Z][a-z]+)*\s+(?:Road|Street|Avenue|Lane|Drive|Way|Place|Square|Gardens)\b";
    "\b\d{1,4}\s+[A-Z][a-z]+(?:\s+[A-Z][a-z]+)*\s+(?:Road|Street|Avenue|Lane|Drive|Way|Place|Square|Gardens)\b" ].

Section Extraction.

(** The tagger: the spans of [sentence.get_spans('ner')] after
    [tagger.predict]. *)
Variable tagger : string -> list Span.

(** [re.finditer pattern text], as the list of its matches. *)
Variable re_finditer : string -> string -> list Match.

Definition _extract_addresses (txt : string) : list Entity :=
  flat_map
    (fun pattern =>
       map (fun m => new_entity (group m) "ADDRESS" (match_start m) (match_end m) None)
           (re_finditer pattern txt))
    address_patterns.

(** The body of the loop over the spans: the entity appended for [ent],
    if any. *)
Definition span_entity (ent : Span) : list Entity :=
  let tag := span_tag ent in
  if mem tag excluded_types then []
  else
    let entity_type := _map_flair_entity_type tag in
    if mem entity_type excluded_types then []
    else if _is_valid_entity (span_text ent) entity_type ent then
      [new_entity (span_text ent) entity_type
                  (start_position ent) (end_position ent) (Some tag)]
    else [].

Definition extract_entities (txt : string) : list Entity :=
  let entities := flat_map span_entity (tagger txt) in
  let addresses := _extract_addresses txt in
  _remove_overlapping_entities (entities ++ addresses).

End Extraction.

(** ** GeoContextDetector *)

Definition major_locations : list (string * list string) :=
  [ ("uk", ["uk"; "united kingdom"; "britain"; "great britain"]);
    ("usa", ["usa"; "united states"; "america"; "us "]);
    ("canada", ["canada"]);
    ("australia", ["australia"]);
    ("france", ["france"]);
    ("germany", ["germany"]);
    ("italy", ["italy"]);
    ("spain", ["spain"]);
    ("japan", ["japan"]);
    ("china", ["china"]);
    ("india", ["india"]);
    ("london", ["london"]);
    ("new york", ["new york"; "nyc"; "manhattan"]);
    ("paris", ["paris"]);
    ("tokyo", ["tokyo"]);
    ("sydney", ["sydney"]);
    ("toronto", ["toronto"]);
    ("berlin", ["berlin"]);
    ("rome", ["rome"]);
    ("madrid", ["madrid"]);
    ("beijing", ["beijing"]);
    ("mumbai", ["mumbai"]);
    ("los angeles", ["los angeles"; "la "; " la,"]);
    ("chicago", ["chicago"]);
    ("boston", ["boston"]);
    ("edinburgh", ["edinburgh"]);
    ("glasgow", ["glasgow"]);
    ("manchester", ["manchester"]);
    ("birmingham", ["birmingham"]);
    ("liverpool", ["liverpool"]);
    ("bristol", ["bristol"]);
    ("leeds", ["leeds"]);
    ("cardiff", ["cardiff"]);
    ("belfast", ["belfast"]);
    ("dublin", ["dublin"]) ].

Definition postal_patterns : list (string * list string) :=
  [ ("uk", ["\b[A-Z]{1,2}\d{1,2}[A-Z]?\s*\d[A-Z]{2}\b";
            "\b[A-Z]{2}\d{1,2}\s*\d[A-Z]{2}\b"]);
    ("usa", ["\b\d{5}(-\d{4})?\b"]);
    ("canada", ["\b[A-Z]\d[A-Z]\s*\d[A-Z]\d\b"]) ].

Definition priority_order : list string :=
  ["london"; "new york"; "paris"; "tokyo"; "sydney"; "uk"; "usa"; "canada";
   "australia"; "france"; "germany"].

(** [if x not in l: l.append(x)] *)
Definition append_new (l : list string) (x : string) : list string :=
  if mem x l then l else l ++ [x].

Section GeoContext.

(** [re.search pattern text], as the truth value of its result. *)
Variable re_search : string -> string -> bool.

(** First loop: the keys one of whose aliases occurs in the lowered text,
    in the order of the table. *)
Definition explicit_mentions (text_lower : string) : list string :=
  flat_map
    (fun '(location, patterns) =>
       if existsb (fun pattern => PyStr.contains pattern text_lower) patterns
       then [location] else [])
    major_locations.

(** Second loop, for one entity. *)
Definition entity_mentions (context_clues : list string) (entity : Entity)
  : list string :=
  if mem (type entity) ["LOCATION"; "GPE"; "FACILITY"] then
    let entity_lower := PyStr.lower (text entity) in
    fold_left
      (fun clues '(location, patterns) =>
         if mem entity_lower patterns
            || existsb (fun p => PyStr.contains p entity_lower) patterns
         then append_new clues location
         else clues)
      major_locations context_clues
  else context_clues.

(** Third loop: the first pattern of a country that matches adds the
    country, once. *)
Definition postal_mentions (txt : string) (context_clues : list string)
  : list string :=
  fold_left
    (fun clues '(country, patterns) =>
       if existsb (fun pattern => re_search pattern txt) patterns
       then append_new clues country
       else clues)
    postal_patterns context_clues.

(** [context_clues] as it stands before the prioritisation. *)
Definition detected_clues (txt : string) (entities : list Entity) : list string :=
  let text_lower := PyStr.lower txt in
  let context_clues := explicit_mentions text_lower in
  let context_clues := fold_left entity_mentions entities context_clues in
  postal_mentions txt context_clues.

Definition prioritize (context_clues : list string) : list string :=
  let prioritized_context :=
    filter (fun priority_location => mem priority_location context_clues)
           priority_order in
  fold_left append_new context_clues prioritized_context.

Definition _detect_geographical_context (txt : string) (entities : list Entity)
  : list string :=
  firstn 3 (prioritize (detected_clues txt entities)).

End GeoContext.

(** ** Assignments to an entity's keys

    [entity[key] = v], one function per key the pipeline writes. *)

Definition set_wikidata_url (v : string) (e : Entity) : Entity :=
  mkEntity (text e) (type e) (start e) (end_ e) (label e) (Some v)
    (wikidata_description e) (wikipedia_url e) (wikipedia_title e)
    (wikipedia_description e) (britannica_url e) (britannica_title e)
    (openstreetmap_url e) (openstreetmap_display_name e) (latitude e)
    (longitude e) (location_name e) (geocoding_source e) (search_term_used e).

Definition set_wikidata_description (v : string) (e : Entity) : Entity :=
  mkEntity (text e) (type e) (start e) (end_ e) (label e) (wikidata_url e)
    (Some v) (wikipedia_url e) (wikipedia_title e) (wikipedia_description e)
    (britannica_url e) (britannica_title e) (openstreetmap_url e)
    (openstreetmap_display_name e) (latitude e) (longitude e)
    (location_name e) (geocoding_source e) (search_term_used e).

Definition set_wikipedia_url (v : string) (e : Entity) : Entity :=
  mkEntity (text e) (type e) (start e) (end_ e) (label e) (wikidata_url e)
    (wikidata_description e) (Some v) (wikipedia_title e)
    (wikipedia_description e) (britannica_url e) (britannica_title e)
    (openstreetmap_url e) (openstreetmap_display_name e) (latitude e)
    (longitude e) (location_name e) (geocoding_source e) (search_term_used e).

Definition set_wikipedia_title (v : string) (e : Entity) : Entity :=
  mkEntity (text e) (type e) (start e) (end_ e) (label e) (wikidata_url e)
    (wikidata_description e) (wikipedia_url e) (Some v)
    (wikipedia_description e) (britannica_url e) (britannica_title e)
    (openstreetmap_url e) (openstreetmap_display_name e) (latitude e)
    (longitude e) (location_name e) (geocoding_source e) (search_term_used e).

Definition set_wikipedia_description (v : string) (e : Entity) : Entity :=
  mkEntity (text e) (type e) (start e) (end_ e) (label e) (wikidata_url e)
    (wikidata_description e) (wikipedia_url e) (wikipedia_title e) (Some v)
    (britannica_url e) (britannica_title e) (openstreetmap_url e)
    (openstreetmap_display_name e) (latitude e) (longitude e)
    (location_name e) (geocoding_source e) (search_term_used e).

Definition set_britannica_url (v : string) (e : Entity) : Entity :=
  mkEntity (text e) (type e) (start e) (end_ e) (label e) (wikidata_url e)
    (wikidata_description e) (wikipedia_url e) (wikipedia_title e)
    (wikipedia_description e) (Some v) (britannica_title e)
    (openstreetmap_url e) (openstreetmap_display_name e) (latitude e)
    (longitude e) (location_name e) (geocoding_source e) (search_term_used e).

Definition set_britannica_title (v : string) (e : Entity) : Entity :=
  mkEntity (text e) (type e) (start e) (end_ e) (label e) (wikidata_url e)
    (wikidata_description e) (wikipedia_url e) (wikipedia_title e)
    (wikipedia_description e) (britannica_url e) (Some v)
    (openstreetmap_url e) (openstreetmap_display_name e) (latitude e)
    (longitude e) (location_name e) (geocoding_source e) (search_term_used e).

Definition set_openstreetmap_url (v : string) (e : Entity) : Entity :=
  mkEntity (text e) (type e) (start e) (end_ e) (label e) (wikidata_url e)
    (wikidata_description e) (wikipedia_url e) (wikipedia_title e)
    (wikipedia_description e) (britannica_url e) (britannica_title e) (Some v)
    (openstreetmap_display_name e) (latitude e) (longitude e)
    (location_name e) (geocoding_source e) (search_term_used e).

Definition set_openstreetmap_display_name (v : string) (e : Entity) : Entity :=
  mkEntity (text e) (type e) (start e) (end_ e) (label e) (wikidata_url e)
    (wikidata_description e) (wikipedia_url e) (wikipedia_title e)
    (wikipedia_description e) (britannica_url e) (britannica_title e)
    (openstreetmap_url e) (Some v) (latitude e) (longitude e)
    (location_name e) (geocoding_source e) (search_term_used e).

Definition set_latitude (v : float) (e : Entity) : Entity :=
  mkEntity (text e) (type e) (start e) (end_ e) (label e) (wikidata_url e)
    (wikidata_description e) (wikipedia_url e) (wikipedia_title e)
    (wikipedia_description e) (britannica_url e) (britannica_title e)
    (openstreetmap_url e) (openstreetmap_display_name e) (Some v)
    (longitude e) (location_name e) (geocoding_source e) (search_term_used e).

Definition set_longitude (v : float) (e : Entity) : Entity :=
  mkEntity (text e) (type e) (start e) (end_ e) (label e) (wikidata_url e)
    (wikidata_description e) (wikipedia_url e) (wikipedia_title e)
    (wikipedia_description e) (britannica_url e) (britannica_title e)
    (openstreetmap_url e) (openstreetmap_display_name e) (latitude e) (Some v)
    (location_name e) (geocoding_source e) (search_term_used e).

Definition set_location_name (v : string) (e : Entity) : Entity :=
  mkEntity (text e) (type e) (start e) (end_ e) (label e) (wikidata_url e)
    (wikidata_description e) (wikipedia_url e) (wikipedia_title e)
    (wikipedia_description e) (britannica_url e) (britannica_title e)
    (openstreetmap_url e) (openstreetmap_display_name e) (latitude e)
    (longitude e) (Some v) (geocoding_source e) (search_term_used e).

Definition set_geocoding_source (v : string) (e : Entity) : Entity :=
  mkEntity (text e) (type e) (start e) (end_ e) (label e) (wikidata_url e)
    (wikidata_description e) (wikipedia_url e) (wikipedia_title e)
    (wikipedia_description e) (britannica_url e) (britannica_title e)
    (openstreetmap_url e) (openstreetmap_display_name e) (latitude e)
    (longitude e) (location_name e) (Some v) (search_term_used e).

Definition set_search_term_used (v : string) (e : Entity) : Entity :=
  mkEntity (text e) (type e) (start e) (end_ e) (label e) (wikidata_url e)
    (wikidata_description e) (wikipedia_url e) (wikipedia_title e)
    (wikipedia_description e) (britannica_url e) (britannica_title e)
    (openstreetmap_url e) (openstreetmap_display_name e) (latitude e)
    (longitude e) (location_name e) (geocoding_source e) (Some v).

(** ** The network, the clock and exceptions *)

(** The exception classes the handlers of the source tell apart;
    [GeocoderError] stands for [GeocoderTimedOut] and [GeocoderServiceError],
    [OtherError] for any other [Exception] (a [requests] failure, a
    [KeyError], a [ValueError]). *)
Inductive Exc := ImportError | GeocoderError | NameError | OtherError.

Inductive Result (A : Type) :=
| Ok (a : A)
| Err (x : Exc).
Arguments Ok {A} a.
Arguments Err {A} x.

(** One element of [data['search']] of the Wikidata answer. *)
Record WdResult := mkWd {
  wd_id : option string;
  wd_description : option string
}.

(** One element of [data['query']['search']] of the Wikipedia answer. *)
Record WpResult := mkWp {
  wp_title : option string;
  wp_snippet : option string
}.

(** One element of the Nominatim answer; the numbers come as text. *)
Record OsmResult := mkOsm {
  lat : option string;
  lon : option string;
  display_name : option string
}.

(** What [response.json()] returns: the object [{'search': [...]}] of
    Wikidata, the object [{'query': {'search': [...]}}] of Wikipedia, the
    array of Nominatim, or an object with neither a ['search'] nor a
    ['query'] member, such as the error object of the services; [empty]
    tells the object [{}] from one that has members. *)
Inductive Json :=
| WikidataJson (search : list WdResult)
| WikipediaJson (search : list WpResult)
| NominatimJson (data : list OsmResult)
| ObjectJson (empty : bool).

(** What [requests.get] returns: [response.status_code], [response.text],
    and [response.json()], which raises when the body is no JSON. *)
Record HttpResponse := mkHttp {
  status_code : Z;
  response_text : string;
  response_json : option Json
}.

(** A [geopy] location. *)
Record Location := mkLocation {
  loc_latitude : float;
  loc_longitude : float;
  address : string
}.

(** What happened, in order: the calls with their answers, and the delays
    in milliseconds. *)
Inductive Event :=
| Get (url term : string) (answer : Result HttpResponse)
| Geocode (geocoder term : string) (answer : Result (option Location))
| Sleep (ms : Z).

(** The outside world: the answers the next HTTP calls and the next
    geocoder calls will get, and the trace so far.  A call past the end of
    its script times out. *)
Record World := mkWorld {
  http : list (Result HttpResponse);
  geopy : list (Result (option Location));
  trace : list Event
}.

(** A computation on one entity: it may mutate the entity and the world,
    and either returns or raises; what it did before raising stays done. *)
Definition M (A : Type) : Type := Entity -> World -> Result A * Entity * World.

Definition ret {A} (a : A) : M A := fun e w => (Ok a, e, w).

Definition raise {A} (x : Exc) : M A := fun e w => (Err x, e, w).

Definition bind {A B} (c : M A) (k : A -> M B) : M B :=
  fun e w =>
    match c e w with
    | (Ok a, e', w') => k a e' w'
    | (Err x, e', w') => (Err x, e', w')
    end.

Declare Scope py_scope.
Delimit Scope py_scope with py.
Notation "x <- c ;; k" := (bind c (fun x => k))
  (at level 61, c at next level, right associativity) : py_scope.
Notation "c ;; k" := (bind c (fun _ => k))
  (at level 61, right associativity) : py_scope.
Local Open Scope py_scope.

(** [try: body except <classes>: handler] *)
Definition try_except {A} (body : M A) (catches : Exc -> bool) (handler : M A)
  : M A :=
  fun e w =>
    match body e w with
    | (Err x, e', w') => if catches x then handler e' w' else (Err x, e', w')
    | r => r
    end.

Definition any_exception (x : Exc) : bool := true.

Definition is_import_error (x : Exc) : bool :=
  match x with ImportError => true | _ => false end.

Definition is_geocoder_error (x : Exc) : bool :=
  match x with GeocoderError => true | _ => false end.

Definition get_entity : M Entity := fun e w => (Ok e, e, w).

(** [entity[key] = v] *)
Definition assign (f : Entity -> Entity) : M unit := fun e w => (Ok tt, f e, w).

Definition log (ev : Event) (w : World) : World :=
  mkWorld (http w) (geopy w) (trace w ++ [ev]).

(** The answer the next HTTP call gets. *)
Definition next_http (w : World) : Result HttpResponse :=
  match http w with
  | [] => Err OtherError
  | answer :: _ => answer
  end.

(** The answer the next geocoder call gets. *)
Definition next_geopy (w : World) : Result (option Location) :=
  match geopy w with
  | [] => Err GeocoderError
  | answer :: _ => answer
  end.

(** [requests.get(url, params=..., timeout=...)] *)
Definition requests_get (url term : string) : M HttpResponse :=
  fun e w =>
    (next_http w, e,
     mkWorld (tl (http w)) (geopy w) (trace w ++ [Get url term (next_http w)])).

(** [geocoder.geocode(term, timeout=10)] *)
Definition geocode (geocoder term : string) : M (option Location) :=
  fun e w =>
    (next_geopy w, e,
     mkWorld (http w) (tl (geopy w)) (trace w ++ [Geocode geocoder term (next_geopy w)])).

(** [time.sleep(ms / 1000)] *)
Definition time_sleep (ms : Z) : M unit := fun e w => (Ok tt, e, log (Sleep ms) w).

(** [d[key]] on a key that may be missing: [KeyError]. *)
Definition getitem {A} (o : option A) : M A :=
  match o with
  | Some a => ret a
  | None => raise OtherError
  end.

(** [response.json()] *)
Definition json (response : HttpResponse) : M Json := getitem (response_json response).

(** [for entity in entities: body], the entities being mutated in place; an
    exception leaves the loop, with the entities as they are then. *)
Fixpoint for_each (body : M unit) (entities : list Entity) (w : World)
  : Result unit * list Entity * World :=
  match entities with
  | [] => (Ok tt, [], w)
  | entity :: rest =>
      match body entity w with
      | (Ok _, entity', w') =>
          let '(r, rest', w'') := for_each body rest w' in
          (r, entity' :: rest', w'')
      | (Err x, entity', w') => (Err x, entity' :: rest, w')
      end
  end.

(** ** KnowledgeLinker *)

(** [s.replace(' ', '_')] *)
Fixpoint replace_space (s : string) : string :=
  match s with
  | EmptyString => EmptyString
  | String c s' =>
      String (if Ascii.eqb c " "%char then "_"%char else c) (replace_space s')
  end.

Definition dquote : string := String (ascii_of_nat 34) EmptyString.

(** The pattern of [link_to_britannica]; [dquote] is the double quote. *)
Definition topic_link_pattern : string :=
  ("href=" ++ dquote ++ "(/topic/[^" ++ dquote ++ "]*)" ++ dquote
   ++ "[^>]*>([^<]*)</a>")%string.

Section Linking.

(** [re.findall pattern text] for a pattern with two groups. *)
Variable re_findall : string -> string -> list (string * string).

(** [re.sub pattern repl text] *)
Variable re_sub : string -> string -> string -> string.

(** [urllib.parse.quote] *)
Variable quote : string -> string.

(** [float(s)]; [None] when it raises [ValueError]. *)
Variable parse_float : string -> option float.

(** The [try] block of [link_to_wikidata].  [data.get('search')] is
    [None] on an object without that member, which is no result; it raises
    on an array, which has no [get]. *)
Definition wikidata_try : M unit :=
  entity <- get_entity ;;
  response <- requests_get "https://www.wikidata.org/w/api.php" (text entity) ;;
  (if (status_code response =? 200)%Z then
     data <- json response ;;
     match data with
     | WikidataJson [] => ret tt
     | WikidataJson (result :: _) =>
         id <- getitem (wd_id result) ;;
         assign (set_wikidata_url ("http://www.wikidata.org/entity/" ++ id)) ;;
         assign (set_wikidata_description
                   (match wd_description result with Some d => d | None => "" end))
     | WikipediaJson _ => ret tt
     | ObjectJson _ => ret tt
     | NominatimJson _ => raise OtherError
     end
   else ret tt) ;;
  time_sleep 100.

Definition wikidata_entity : M unit :=
  try_except wikidata_try any_exception (ret tt).

Definition link_to_wikidata (entities : list Entity) (w : World)
  : list Entity * World :=
  let '(_, entities', w') := for_each wikidata_entity entities w in
  (entities', w').

(** [snippet[:200] + "..." if len(snippet) > 200 else snippet] *)
Definition truncate_snippet (snippet : string) : string :=
  if (200 <? String.length snippet)%nat
  then substring 0 200 snippet ++ "..."
  else snippet.

(** The [try] block of [link_to_wikipedia].
    [data.get('query', {}).get('search')] is [None] on an object without
    the member ['query'], which is no result; it raises on an array. *)
Definition wikipedia_try : M unit :=
  entity <- get_entity ;;
  response <- requests_get "https://en.wikipedia.org/w/api.php" (text entity) ;;
  (if (status_code response =? 200)%Z then
     data <- json response ;;
     match data with
     | WikipediaJson [] => ret tt
     | WikipediaJson (result :: _) =>
         page_title <- getitem (wp_title result) ;;
         let encoded_title := quote (replace_space page_title) in
         assign (set_wikipedia_url ("https://en.wikipedia.org/wiki/" ++ encoded_title)) ;;
         assign (set_wikipedia_title page_title) ;;
         if PyStr.truthy (wp_snippet result) then
           snippet <- getitem (wp_snippet result) ;;
           let snippet := re_sub "<[^>]+>" "" snippet in
           assign (set_wikipedia_description (truncate_snippet snippet))
         else ret tt
     | WikidataJson _ => ret tt
     | ObjectJson _ => ret tt
     | NominatimJson _ => raise OtherError
     end
   else ret tt) ;;
  time_sleep 200.

Definition wikipedia_entity : M unit :=
  entity <- get_entity ;;
  if PyStr.truthy (wikidata_url entity) then ret tt
  else try_except wikipedia_try any_exception (ret tt).

Definition link_to_wikipedia (entities : list Entity) (w : World)
  : list Entity * World :=
  let '(_, entities', w') := for_each wikipedia_entity entities w in
  (entities', w').

(** The loop over the matches of [link_to_britannica]: the first link
    whose text contains the entity's, or is contained in it, is kept. *)
Fixpoint britannica_matches (matches : list (string * string)) : M unit :=
  match matches with
  | [] => ret tt
  | (url_path, link_text) :: rest =>
      entity <- get_entity ;;
      if PyStr.contains (PyStr.lower (text entity)) (PyStr.lower link_text)
         || PyStr.contains (PyStr.lower link_text) (PyStr.lower (text entity))
      then
        assign (set_britannica_url ("https://www.britannica.com" ++ url_path)) ;;
        assign (set_britannica_title (PyStr.strip link_text))
      else britannica_matches rest
  end.

(** The [try] block of [link_to_britannica]. *)
Definition britannica_try : M unit :=
  entity <- get_entity ;;
  response <- requests_get "https://www.britannica.com/search" (text entity) ;;
  (if (status_code response =? 200)%Z then
     britannica_matches (re_findall topic_link_pattern (response_text response))
   else ret tt) ;;
  time_sleep 300.

Definition britannica_entity : M unit :=
  entity <- get_entity ;;
  if PyStr.truthy (wikidata_url entity) || PyStr.truthy (wikipedia_url entity)
  then ret tt
  else try_except britannica_try any_exception (ret tt).

Definition link_to_britannica (entities : list Entity) (w : World)
  : list Entity * World :=
  let '(_, entities', w') := for_each britannica_entity entities w in
  (entities', w').

(** The linking steps in the order the application runs them. *)
Definition linking_chain (entities : list Entity) (w : World)
  : list Entity * World :=
  let '(entities1, w1) := link_to_wikidata entities w in
  let '(entities2, w2) := link_to_wikipedia entities1 w1 in
  link_to_britannica entities2 w2.

(** The [try] block of [link_to_openstreetmap].  [if data:] is false on
    the empty array and on the empty object; on an object with members
    [data[0]] raises [KeyError]. *)
Definition openstreetmap_link_try : M unit :=
  entity <- get_entity ;;
  response <- requests_get "https://nominatim.openstreetmap.org/search" (text entity) ;;
  (if (status_code response =? 200)%Z then
     data <- json response ;;
     match data with
     | NominatimJson [] => ret tt
     | NominatimJson (result :: _) =>
         lat_ <- getitem (lat result) ;;
         lon_ <- getitem (lon result) ;;
         assign (set_openstreetmap_url
                   ("https://www.openstreetmap.org/?mlat=" ++ lat_ ++ "&mlon=" ++ lon_
                    ++ "&zoom=18")) ;;
         name <- getitem (display_name result) ;;
         assign (set_openstreetmap_display_name name) ;;
         flat <- getitem (parse_float lat_) ;;
         assign (set_latitude flat) ;;
         flon <- getitem (parse_float lon_) ;;
         assign (set_longitude flon) ;;
         name' <- getitem (display_name result) ;;
         assign (set_location_name name')
     | ObjectJson true => ret tt
     | ObjectJson false => raise OtherError
     | WikidataJson _ => raise OtherError
     | WikipediaJson _ => raise OtherError
     end
   else ret tt) ;;
  time_sleep 200.

Definition openstreetmap_link_entity : M unit :=
  entity <- get_entity ;;
  if negb (String.eqb (type entity) "ADDRESS") then ret tt
  else try_except openstreetmap_link_try any_exception (ret tt).

Definition link_to_openstreetmap (entities : list Entity) (w : World)
  : list Entity * World :=
  let '(_, entities', w') := for_each openstreetmap_link_entity entities w in
  (entities', w').

End Linking.

(** ** GeocodingResolver *)

Definition context_mapping : list (string * list string) :=
  [ ("uk", ["UK"; "United Kingdom"; "England"; "Britain"]);
    ("usa", ["USA"; "United States"; "US"]);
    ("canada", ["Canada"]);
    ("australia", ["Australia"]);
    ("france", ["France"]);
    ("germany", ["Germany"]);
    ("london", ["London, UK"; "London, England"]);
    ("new york", ["New York, USA"; "New York, NY"]);
    ("paris", ["Paris, France"]);
    ("tokyo", ["Tokyo, Japan"]);
    ("sydney", ["Sydney, Australia"]) ].

(** [list(dict.fromkeys(l))]: the first occurrences, in order. *)
Definition dedup (l : list string) : list string := fold_left append_new l [].

(** The search terms of [_try_contextual_geocoding], before the slices. *)
Definition contextual_variations (entity_text : string) (context_clues : list string)
  : list string :=
  dedup
    (entity_text ::
     flat_map
       (fun context =>
          let context_variants :=
            match dict_get context_mapping context with
            | Some l => l
            | None => [context]
            end in
          map (fun variant => (entity_text ++ ", " ++ variant)%string) context_variants)
       context_clues).

(** The search terms of [_try_aggressive_geocoding]. *)
Definition aggressive_variations (entity_text : string) : list string :=
  [ entity_text;
    (entity_text ++ ", UK")%string;
    (entity_text ++ ", England")%string;
    (entity_text ++ ", Scotland")%string;
    (entity_text ++ ", Wales")%string;
    (entity_text ++ " city")%string;
    (entity_text ++ " town")%string ].

Definition place_types : list string :=
  ["LOCATION"; "GPE"; "FACILITY"; "ORGANIZATION"; "ADDRESS"].

Section Geocoding.

Variable re_search : string -> string -> bool.

Variable parse_float : string -> option float.

(** Whether [from geopy.geocoders import ...] succeeds. *)
Variable geopy_installed : bool.

(** [st.session_state.get('processed_text', '')] *)
Variable processed_text : string.

Definition import_geopy : M unit :=
  if geopy_installed then ret tt else raise ImportError.

(** The five assignments after a [geopy] hit in
    [_try_contextual_geocoding]. *)
Definition record_geopy_contextual (location : Location) (search_term : string)
  : M unit :=
  assign (set_latitude (loc_latitude location)) ;;
  assign (set_longitude (loc_longitude location)) ;;
  assign (set_location_name (address location)) ;;
  assign (set_geocoding_source "geopy_contextual") ;;
  assign (set_search_term_used search_term).

(** The [try] block of the first loop of [_try_contextual_geocoding];
    [true] stands for [return True]. *)
Definition contextual_geopy_try (search_term : string) : M bool :=
  location <- geocode "nominatim" search_term ;;
  match location with
  | Some l => record_geopy_contextual l search_term ;; ret true
  | None => time_sleep 200 ;; ret false
  end.

(** [for search_term in search_variations[:5]] of
    [_try_contextual_geocoding]; a geocoder error is a [continue]. *)
Fixpoint contextual_geopy_loop (terms : list string) : M bool :=
  match terms with
  | [] => ret false
  | search_term :: rest =>
      returned <-
        try_except (contextual_geopy_try search_term)
                   is_geocoder_error (ret false) ;;
      if returned : bool then ret true else contextual_geopy_loop rest
  end.

(** The five assignments after a hit of the search endpoint, as
    [_try_contextual_geocoding] and [_try_aggressive_geocoding] write
    them; a missing key and a number that does not parse raise. *)
Definition record_osm (result : OsmResult) (source search_term : string)
  : M unit :=
  lat_ <- getitem (lat result) ;;
  flat <- getitem (parse_float lat_) ;;
  assign (set_latitude flat) ;;
  lon_ <- getitem (lon result) ;;
  flon <- getitem (parse_float lon_) ;;
  assign (set_longitude flon) ;;
  name <- getitem (display_name result) ;;
  assign (set_location_name name) ;;
  assign (set_geocoding_source source) ;;
  assign (set_search_term_used search_term).

(** The [try] block that queries the search endpoint for [search_term],
    in [_try_contextual_geocoding] and [_try_aggressive_geocoding]: [true]
    stands for [return True], [false] for leaving the block after the
    delay.  [if data:] is false on the empty array and on the empty object;
    on an object with members [data[0]] raises [KeyError]. *)
Definition osm_try (search_term source : string) (delay : Z) : M bool :=
  response <- requests_get "https://nominatim.openstreetmap.org/search" search_term ;;
  hit <-
    (if (status_code response =? 200)%Z then
       data <- json response ;;
       match data with
       | NominatimJson [] => ret false
       | NominatimJson (result :: _) => record_osm result source search_term ;; ret true
       | ObjectJson true => ret false
       | ObjectJson false => raise OtherError
       | WikidataJson _ => raise OtherError
       | WikipediaJson _ => raise OtherError
       end
     else ret false) ;;
  if hit : bool then ret true else time_sleep delay ;; ret false.

(** [for search_term in search_variations[:3]] of
    [_try_contextual_geocoding]. *)
Fixpoint contextual_osm_loop (terms : list string) : M bool :=
  match terms with
  | [] => ret false
  | search_term :: rest =>
      returned <-
        try_except
          (osm_try search_term "openstreetmap_contextual" 300)
          any_exception (ret false) ;;
      if returned : bool then ret true else contextual_osm_loop rest
  end.

Definition _try_contextual_geocoding (context_clues : list string) : M bool :=
  match context_clues with
  | [] => ret false
  | _ =>
      entity <- get_entity ;;
      let search_variations := contextual_variations (text entity) context_clues in
      returned <-
        try_except
          (import_geopy ;; contextual_geopy_loop (firstn 5 search_variations))
          is_import_error (ret false) ;;
      if returned : bool then ret true
      else contextual_osm_loop (firstn 3 search_variations)
  end.

(** [for name, geocoder in geocoders] of [_try_python_geocoding].  The
    function does not import [time]: after a call without a result,
    [time.sleep(0.3)] raises [NameError], which the loop's handler turns
    into [continue]. *)
Fixpoint python_geocoders_loop (geocoders : list string) : M bool :=
  match geocoders with
  | [] => ret false
  | name :: rest =>
      returned <-
        try_except
          (entity <- get_entity ;;
           location <- geocode name (text entity) ;;
           match location with
           | Some l =>
               assign (set_latitude (loc_latitude l)) ;;
               assign (set_longitude (loc_longitude l)) ;;
               assign (set_location_name (address l)) ;;
               assign (set_geocoding_source ("geopy_" ++ name)) ;;
               ret true
           | None => raise NameError
           end)
          any_exception (ret false) ;;
      if returned : bool then ret true else python_geocoders_loop rest
  end.

Definition _try_python_geocoding : M bool :=
  try_except
    (import_geopy ;; python_geocoders_loop ["nominatim"; "arcgis"])
    any_exception (ret false).

(** [_try_openstreetmap] imports neither [requests] nor [time], and the
    module does not either: [requests.get] raises [NameError] before any
    call is made, the handler prints and the function returns [False]. *)
Definition _try_openstreetmap : M bool :=
  try_except (raise NameError) any_exception (ret false).

(** [for search_term in search_variations] of
    [_try_aggressive_geocoding]. *)
Fixpoint aggressive_loop (terms : list string) : M bool :=
  match terms with
  | [] => ret false
  | search_term :: rest =>
      returned <-
        try_except
          (osm_try search_term "openstreetmap_aggressive" 200)
          any_exception (ret false) ;;
      if returned : bool then ret true else aggressive_loop rest
  end.

Definition _try_aggressive_geocoding : M bool :=
  entity <- get_entity ;;
  aggressive_loop (aggressive_variations (text entity)).

(** The body of the loop of [get_coordinates]. *)
Definition coordinates_entity (context_clues : list string) : M unit :=
  entity <- get_entity ;;
  if mem (type entity) place_types then
    match latitude entity with
    | Some _ => ret tt
    | None =>
        found <- _try_contextual_geocoding context_clues ;;
        if found : bool then ret tt else
        found <- _try_python_geocoding ;;
        if found : bool then ret tt else
        found <- _try_openstreetmap ;;
        if found : bool then ret tt else
        _ <- _try_aggressive_geocoding ;;
        ret tt
    end
  else ret tt.

Definition get_coordinates (entities : list Entity) (w : World)
  : Result unit * list Entity * World :=
  let context_clues := _detect_geographical_context re_search processed_text entities in
  for_each (coordinates_entity context_clues) entities w.

End Geocoding.

(** ** Predicates of the specification *)

(** The raw tagger label of an entity, when it has one, is an excluded
    class. *)
Definition label_excluded (e : Entity) : bool :=
  match label e with
  | Some l => mem l excluded_types
  | None => false
  end.

(** [x] occurs in [l] and [y] occurs after its first occurrence. *)
Fixpoint occurs_before (x y : string) (l : list string) : bool :=
  match l with
  | [] => false
  | z :: l' => if String.eqb z x then mem y l' else occurs_before x y l'
  end.

(** [l] has no duplicates, as a test. *)
Fixpoint nodupb (l : list string) : bool :=
  match l with
  | [] => true
  | x :: l' => negb (mem x l') && nodupb l'
  end.

(** None of the four link keys is set. *)
Definition unlinked (e : Entity) : Prop :=
  wikidata_url e = None /\ wikipedia_url e = None
  /\ britannica_url e = None /\ openstreetmap_url e = None.

Definition is_set {A : Type} (o : option A) : nat :=
  match o with
  | Some _ => 1
  | None => 0
  end.

(** The number of sources an entity carries a link of. *)
Definition links (e : Entity) : nat :=
  is_set (wikidata_url e) + is_set (wikipedia_url e)
  + is_set (britannica_url e) + is_set (openstreetmap_url e).

Definition is_call (ev : Event) : bool :=
  match ev with
  | Sleep _ => false
  | _ => true
  end.

(** The computation [c] makes one external call; the delay of [ms]
    milliseconds follows when [c] returns a value [a] with [delayed a], and
    nothing follows when it returns another value or raises. *)
Definition one_call_then_delay {A : Type} (c : M A) (delayed : A -> bool) (ms : Z)
  : Prop :=
  forall e w,
    exists call,
      is_call call = true
      /\ match c e w with
         | (Ok a, _, w') =>
             trace w' = trace w ++ call :: (if delayed a then [Sleep ms] else [])
         | (Err _, _, w') => trace w' = trace w ++ [call]
         end.

(** The three coordinate keys are set. *)
Definition has_coordinates (e : Entity) : Prop :=
  latitude e <> None /\ longitude e <> None /\ location_name e <> None.

(** ** Instances for the examples *)

(** A [float] for the runs below: it reads the two numerals they use. *)
Definition example_float (s : string) : option float :=
  if String.eqb s "51.5074" then Some (515074 # 10000)
  else if String.eqb s "-0.1278" then Some (- 1278 # 10000)
  else None.

(** A text without a postal code: no postal pattern matches. *)
Definition no_postal_code (pattern txt : string) : bool := false.

(** ** Invariants of the proofs *)

(** Two entities that do not overlap. *)
Definition disjoint (a b : Entity) : Prop := ~ overlaps a b.

(** [a] starts no later than [b]. *)
Definition by_start (a b : Entity) : Prop := (start a <= start b)%Z.

(** The test of the inner loop fails for [e] against [x]. *)
Definition clear_of (e x : Entity) : Prop := overlap_test e x = false.

(** Neither the type nor the raw label is an excluded class. *)
Definition allowed (e : Entity) : Prop :=
  mem (type e) excluded_types = false /\ label_excluded e = false.

(** After [link_to_wikidata]: only the Wikidata link may be there, and
    then it is a non-empty string. *)
Definition after_wikidata (e : Entity) : Prop :=
  wikipedia_url e = None /\ britannica_url e = None /\ openstreetmap_url e = None
  /\ (wikidata_url e = None \/ PyStr.truthy (wikidata_url e) = true).

(** After [link_to_wikipedia]: the Wikidata link or the Wikipedia link,
    not both. *)
Definition after_wikipedia (e : Entity) : Prop :=
  britannica_url e = None /\ openstreetmap_url e = None
  /\ (wikidata_url e = None
      /\ (wikipedia_url e = None \/ PyStr.truthy (wikipedia_url e) = true)
      \/ PyStr.truthy (wikidata_url e) = true /\ wikipedia_url e = None).

(** What a strategy that records the search term leaves on success. *)
Definition recorded (source : string) (e : Entity) : Prop :=
  has_coordinates e /\ geocoding_source e = Some source
  /\ search_term_used e <> None.

(** ** Proof automation for the effectful code *)

Ltac unfold_monad :=
  unfold json in *;
  unfold bind, ret, raise, try_except, get_entity, assign, requests_get,
    geocode, time_sleep, getitem, log in *.

(** Case analysis on the innermost scrutinee of the goal. *)
Ltac split_cases :=
  repeat match goal with
         | |- context [match ?x with _ => _ end] =>
             lazymatch x with
             | context [match _ with _ => _ end] => fail
             | _ => destruct x eqn:?; cbn
             end
         end.

Ltac trace_eq :=
  cbn; rewrite <- ?app_assoc; reflexivity.

(** The types of the lookup table's right-hand sides. *)
Definition canonical_types : list string :=
  ["PERSON"; "ORGANIZATION"; "LOCATION"; "MISC"].

(** An entity as extraction builds it: span keys only, nothing else set. *)
Definition fresh (e : Entity) : Prop :=
  e = new_entity (text e) (type e) (start e) (end_ e) (label e).

(** The types whose entities the context detector reads. *)
Definition context_type (e : Entity) : bool :=
  mem (type e) ["LOCATION"; "GPE"; "FACILITY"].

(** ** What a stage may write *)

(** The keys set at extraction. *)
Definition span_keys (e : Entity) : string * string * Z * Z * option string :=
  (text e, type e, start e, end_ e, label e).

(** The keys the linking chain writes. *)
Definition chain_keys (e : Entity) : list (option string) :=
  [ wikidata_url e; wikidata_description e; wikipedia_url e; wikipedia_title e;
    wikipedia_description e; britannica_url e; britannica_title e ].

(** The keys only [link_to_openstreetmap] writes. *)
Definition map_keys (e : Entity) : list (option string) :=
  [ openstreetmap_url e; openstreetmap_display_name e ].

(** The coordinates, which the geocoding strategies and
    [link_to_openstreetmap] write. *)
Definition coordinate_keys (e : Entity) : option float * option float * option string :=
  (latitude e, longitude e, location_name e).

(** The keys only the geocoding strategies write. *)
Definition strategy_keys (e : Entity) : list (option string) :=
  [ geocoding_source e; search_term_used e ].

(** The computation leaves [f] of the entity as it is, whether it returns
    or raises. *)
Definition keeps {A B : Type} (f : Entity -> B) (c : M A) : Prop :=
  forall e w, f (snd (fst (c e w))) = f e.

(** The offsets of an entity. *)
Definition offsets (e : Entity) : Z * Z := (start e, end_ e).

(** What the linking chain has no business with. *)
Definition outside_chain (e : Entity) :=
  (span_keys e, map_keys e, coordinate_keys e, strategy_keys e).

(** What the geocoding strategies have no business with. *)
Definition outside_geocoding (e : Entity) :=
  (span_keys e, chain_keys e, map_keys e).

(** What [link_to_openstreetmap] has no business with. *)
Definition outside_map_link (e : Entity) :=
  (span_keys e, chain_keys e, strategy_keys e).

(** ** Counting the external calls *)

(** The number of external calls in a piece of trace. *)
Definition calls (t : list Event) : nat := List.length (filter is_call t).

(** The computation only adds to the trace, and at most [n] calls. *)
Definition makes_calls {A : Type} (n : nat) (c : M A) : Prop :=
  forall e w,
    exists t, trace (snd (c e w)) = trace w ++ t /\ (calls t <= n)%nat.

(** [entity.get('wikidata_url')] is falsy: [link_to_wikipedia] searches. *)
Definition wikipedia_searched (e : Entity) : bool :=
  negb (PyStr.truthy (wikidata_url e)).

(** Neither link is there: [link_to_britannica] searches. *)
Definition britannica_searched (e : Entity) : bool :=
  negb (PyStr.truthy (wikidata_url e) || PyStr.truthy (wikipedia_url e)).

(** [link_to_openstreetmap] searches for addresses. *)
Definition is_address (e : Entity) : bool := String.eqb (type e) "ADDRESS".

(** The operation only adds to the trace: one call for each entity that
    [searched] selects, and none for the others. *)
Definition searches_exactly (op : list Entity -> World -> list Entity * World)
           (searched : Entity -> bool) : Prop :=
  forall entities w,
    exists t,
      trace (snd (op entities w)) = trace w ++ t
      /\ calls t = List.length (filter searched entities).

(** The loop over the entities with this body is never left by an
    exception. *)
Definition never_raises (body : M unit) : Prop :=
  forall entities w, fst (fst (for_each body entities w)) = Ok tt.

(** A body that returns, with one call for the entities that [searched]
    selects and none for the others. *)
Definition quiet_body (body : M unit) (searched : Entity -> bool) : Prop :=
  forall e w,
    exists e' w' t,
      body e w = (Ok tt, e', w')
      /\ trace w' = trace w ++ t
      /\ calls t = if searched e then 1%nat else 0%nat.

(** ** Exceptions of the geocoding library *)

(** An answer of a geocoder that the strategies provide for: a location,
    none, or one of the two geocoder errors their handlers name. *)
Definition expected_answer (answer : Result (option Location)) : bool :=
  match answer with
  | Ok _ => true
  | Err GeocoderError => true
  | Err _ => false
  end.

(** Every geocoder call still to come gets such an answer. *)
Definition geocoders_behave (w : World) : Prop :=
  Forall (fun answer => expected_answer answer = true) (geopy w).

(** The computation leaves the geocoders behaving. *)
Definition keeps_geocoders {A : Type} (c : M A) : Prop :=
  forall e w, geocoders_behave w -> geocoders_behave (snd (c e w)).

(** While the geocoders behave, the computation returns and leaves them
    behaving. *)
Definition returns {A : Type} (c : M A) : Prop :=
  forall e w,
    geocoders_behave w ->
    geocoders_behave (snd (c e w)) /\ exists a, fst (fst (c e w)) = Ok a.

(** The Wikipedia description, when there is one, has at most 203
    characters: 200 of the snippet and the three dots. *)
Definition description_short (e : Entity) : Prop :=
  match wikipedia_description e with
  | Some d => (String.length d <= 203)%nat
  | None => True
  end.

(** ** Presentation (class StreamlitEntityLinker) *)

(** [sep.join(l)] *)
Definition join (sep : string) (l : list string) : string := String.concat sep l.

(** [format_entity_links] *)
Definition format_entity_links (entity : Entity) : string :=
  let links :=
    (if PyStr.truthy (wikipedia_url entity) then ["Wikipedia"] else [])
    ++ (if PyStr.truthy (wikidata_url entity) then ["Wikidata"] else [])
    ++ (if PyStr.truthy (britannica_url entity) then ["Britannica"] else [])
    ++ (if PyStr.truthy (openstreetmap_url entity) then ["OpenStreetMap"] else []) in
  match links with
  | [] => "No links"
  | _ => join " | " links
  end.

(** The value of the key [sameAs] of the JSON-LD export: a string, or a
    list of strings. *)
Inductive SameAs :=
| SameAsStr (url : string)
| SameAsList (urls : list string).

(** The three steps that add a further link to [entity_data['sameAs']]: a
    first link is stored as it is, a second turns the value into a list, a
    later one is appended to the list. *)
Definition add_same_as (current : option SameAs) (url : string) : option SameAs :=
  match current with
  | None => Some (SameAsStr url)
  | Some (SameAsStr first) => Some (SameAsList [first; url])
  | Some (SameAsList urls) => Some (SameAsList (urls ++ [url]))
  end.

(** [if entity.get(key): ... add entity[key]] *)
Definition add_if_truthy (current : option SameAs) (url : option string)
  : option SameAs :=
  match url with
  | Some u => if PyStr.truthy url then add_same_as current u else current
  | None => current
  end.

(** [entity_data['sameAs']] at the end of the loop body of
    [render_export_section]; [None] when the key is never set. *)
Definition export_same_as (entity : Entity) : option SameAs :=
  let same_as :=
    match wikidata_url entity with
    | Some u => if PyStr.truthy (wikidata_url entity) then Some (SameAsStr u) else None
    | None => None
    end in
  let same_as := add_if_truthy same_as (wikipedia_url entity) in
  let same_as := add_if_truthy same_as (britannica_url entity) in
  add_if_truthy same_as (openstreetmap_url entity).

(** The links of an entity that are there and not empty, in the order of
    the export: Wikidata, Wikipedia, Britannica, OpenStreetMap. *)
Definition truthy_value (url : option string) : list string :=
  match url with
  | Some u => if PyStr.truthy url then [u] else []
  | None => []
  end.

Definition export_urls (entity : Entity) : list string :=
  truthy_value (wikidata_url entity) ++ truthy_value (wikipedia_url entity)
  ++ truthy_value (britannica_url entity) ++ truthy_value (openstreetmap_url entity).

(** [html.escape(s)], with its default [quote=True]: its five successive
    replacements, of which the one of the ampersand comes first, amount to
    replacing each character on its own. *)
Definition escape_char (c : ascii) : string :=
  if Ascii.eqb c "&" then "&amp;"
  else if Ascii.eqb c "<" then "&lt;"
  else if Ascii.eqb c ">" then "&gt;"
  else if Ascii.eqb c (ascii_of_nat 34) then "&quot;"
  else if Ascii.eqb c "'" then "&#x27;"
  else String c EmptyString.

Fixpoint html_escape (s : string) : string :=
  match s with
  | EmptyString => EmptyString
  | String c s' => (escape_char c ++ html_escape s')%string
  end.

(** A slice index of Python, brought into [0 .. len]: a negative index
    counts from the end. *)
Definition slice_index (len : nat) (i : Z) : nat :=
  if (i <? 0)%Z then Z.to_nat (Z.max 0 (Z.of_nat len + i))
  else Nat.min (Z.to_nat i) len.

(** [s[i:j]] *)
Definition slice (s : string) (i j : Z) : string :=
  let a := slice_index (String.length s) i in
  let b := slice_index (String.length s) j in
  substring a (b - a) s.

(** [s[:j]] *)
Definition slice_to (s : string) (j : Z) : string := slice s 0 j.

(** [sorted(entities, key=lambda x: x['start'], reverse=True)]: stable, so
    entities with equal starts keep their order. *)
Fixpoint insert_by_start_desc (x : Entity) (l : list Entity) : list Entity :=
  match l with
  | [] => [x]
  | y :: l' =>
      if (start y <=? start x)%Z then x :: l else y :: insert_by_start_desc x l'
  end.

Fixpoint sort_by_start_desc (l : list Entity) : list Entity :=
  match l with
  | [] => []
  | x :: l' => insert_by_start_desc x (sort_by_start_desc l')
  end.

Definition colors : list (string * string) :=
  [ ("PERSON", "#BF7B69"); ("ORGANIZATION", "#9fd2cd"); ("LOCATION", "#EFCA89");
    ("MISC", "#C4C3A2"); ("GPE", "#C4C3A2"); ("FACILITY", "#C3B5AC");
    ("GSP", "#C4A998"); ("ADDRESS", "#CCBEAA") ].

(** [has_links or has_coordinates] of [create_highlighted_html]. *)
Definition highlighted_entity (entity : Entity) : bool :=
  PyStr.truthy (britannica_url entity) || PyStr.truthy (wikidata_url entity)
  || PyStr.truthy (wikipedia_url entity) || PyStr.truthy (openstreetmap_url entity)
  || match latitude entity with Some _ => true | None => false end.

(** [tooltip] *)
Definition tooltip (entity : Entity) : string :=
  let tooltip_parts :=
    [("Type: " ++ type entity)%string]
    ++ (match wikidata_description entity with
        | Some d =>
            if PyStr.truthy (wikidata_description entity)
            then [("Description: " ++ d)%string] else []
        | None => []
        end)
    ++ (match location_name entity with
        | Some n =>
            if PyStr.truthy (location_name entity)
            then [("Location: " ++ n)%string] else []
        | None => []
        end) in
  join " | " tooltip_parts.

(** The anchor that replaces a linked entity. *)
Definition anchor (url color title escaped_entity_text : string) : string :=
  ("<a href=" ++ dquote ++ url ++ dquote ++ " style=" ++ dquote
   ++ "background-color: " ++ color
   ++ "; padding: 2px 4px; border-radius: 3px; text-decoration: none; color: black;"
   ++ dquote ++ " target=" ++ dquote ++ "_blank" ++ dquote ++ " title=" ++ dquote
   ++ title ++ dquote ++ ">" ++ escaped_entity_text ++ "</a>")%string.

(** The span that replaces an entity with coordinates and no link. *)
Definition plain_span (color title escaped_entity_text : string) : string :=
  ("<span style=" ++ dquote ++ "background-color: " ++ color
   ++ "; padding: 2px 4px; border-radius: 3px;" ++ dquote ++ " title=" ++ dquote
   ++ title ++ dquote ++ ">" ++ escaped_entity_text ++ "</span>")%string.

(** The link an entity is rendered with: Wikipedia before Wikidata before
    Britannica before OpenStreetMap. *)
Definition rendered_url (entity : Entity) : option string :=
  match truthy_value (wikipedia_url entity) ++ truthy_value (wikidata_url entity)
        ++ truthy_value (britannica_url entity)
        ++ truthy_value (openstreetmap_url entity) with
  | u :: _ => Some u
  | [] => None
  end.

(** [replacement] *)
Definition replacement (txt : string) (entity : Entity) : string :=
  let escaped_entity_text := html_escape (slice txt (start entity) (end_ entity)) in
  let color :=
    match dict_get colors (type entity) with
    | Some c => c
    | None => "#E7E2D2"
    end in
  match rendered_url entity with
  | Some u => anchor (html_escape u) color (tooltip entity) escaped_entity_text
  | None => plain_span color (tooltip entity) escaped_entity_text
  end.

(** One turn of the loop of [create_highlighted_html]. *)
Definition highlight_step (txt : string) (highlighted : string) (entity : Entity)
  : string :=
  if negb (highlighted_entity entity) then highlighted
  else
    let text_before_entity := html_escape (slice_to txt (start entity)) in
    let text_entity_escaped := html_escape (slice txt (start entity) (end_ entity)) in
    let escaped_start := String.length text_before_entity in
    let escaped_end := (escaped_start + String.length text_entity_escaped)%nat in
    (substring 0 escaped_start highlighted ++ replacement txt entity
     ++ substring escaped_end (String.length highlighted - escaped_end) highlighted)%string.

Definition create_highlighted_html (txt : string) (entities : list Entity) : string :=
  fold_left (highlight_step txt) (sort_by_start_desc entities) (html_escape txt).

(** The text from [pos] to [stop] with every highlighted entity replaced,
    written from left to right; the entities are taken in the order of the
    list. *)
Fixpoint render_between (txt : string) (pos stop : nat) (entities : list Entity)
  : string :=
  match entities with
  | [] => html_escape (substring pos (stop - pos) txt)
  | entity :: rest =>
      if highlighted_entity entity then
        (html_escape (substring pos (Z.to_nat (start entity) - pos) txt)
         ++ replacement txt entity
         ++ render_between txt (Z.to_nat (end_ entity)) stop rest)%string
      else render_between txt pos stop rest
  end.

(** The offsets of [entity] delimit a non-empty span of [txt]. *)
Definition in_text (txt : string) (entity : Entity) : Prop :=
  (0 <= start entity < end_ entity)%Z
  /\ (end_ entity <= Z.of_nat (String.length txt))%Z.

(** [a] ends before [b] starts. *)
Definition precedes (a b : Entity) : Prop := (end_ a <= start b)%Z.

(** * Verification *)

(** ** Lists and dictionaries *)

Lemma mem_true_iff x l : mem x l = true <-> In x l.
Proof.
  unfold mem. rewrite existsb_exists. split.
  - intros [y [Hy Heq]]. apply String.eqb_eq in Heq. now subst.
  - intros H. exists x. split; [assumption | apply String.eqb_refl].
Qed.

Lemma mem_false_iff x l : mem x l = false <-> ~ In x l.
Proof.
  rewrite <- mem_true_iff. destruct (mem x l); split; congruence.
Qed.

Lemma dict_get_missing {V : Type} (d : list (string * V)) k :
  ~ In k (keys d) -> dict_get d k = None.
Proof.
  induction d as [| [k' v] d IH]; simpl; intros H; [reflexivity |].
  destruct (String.eqb_spec k' k) as [-> | Hne].
  - exfalso. apply H. now left.
  - apply IH. intros Hin. apply H. now right.
Qed.

(** ** TypeMapper *)

(** C8. The type mapper sends "B-PER" to "PERSON" and "GPE" to "LOCATION",
    and every label that is not a key of the lookup table to itself, as
    "UNKNOWN_XYZ". *)
Theorem map_flair_entity_type_table :
  _map_flair_entity_type "B-PER" = "PERSON"
  /\ _map_flair_entity_type "GPE" = "LOCATION"
  /\ (forall flair_label,
         ~ In flair_label (keys mapping) ->
         _map_flair_entity_type flair_label = flair_label)
  /\ _map_flair_entity_type "UNKNOWN_XYZ" = "UNKNOWN_XYZ".
Proof.
  repeat split; try reflexivity.
  intros flair_label H. unfold _map_flair_entity_type.
  now rewrite (dict_get_missing mapping flair_label H).
Qed.

Lemma map_flair_entity_type_unknown_witness :
  ~ In "UNKNOWN_XYZ" (keys mapping)
  /\ _map_flair_entity_type "UNKNOWN_XYZ" = "UNKNOWN_XYZ".
Proof.
  assert (H : ~ In "UNKNOWN_XYZ" (keys mapping)).
  { apply mem_false_iff. vm_compute. reflexivity. }
  split; [exact H |].
  exact (proj1 (proj2 (proj2 map_flair_entity_type_table)) "UNKNOWN_XYZ" H).
Defined.

(** ** EntityValidator *)

Lemma filter_none {A : Type} (p : A -> bool) (l : list A) :
  (forall x, In x l -> p x = false) -> filter p l = [].
Proof.
  induction l as [| a l IH]; simpl; intros H; [reflexivity |].
  rewrite (H a (or_introl eq_refl)). apply IH. intros x Hx. apply H. now right.
Qed.

(** C10. A PERSON span whose stripped text is longer than one character and
    none of whose tokens is made of letters only is accepted: the
    capitalisation test ranges over the alphabetic tokens, and there is
    none. *)
Theorem is_valid_entity_person_without_alpha_token
        (entity_text : string) (flair_span : Span) :
  (1 < String.length (PyStr.strip entity_text))%nat ->
  (forall word, In word (PyStr.split entity_text) -> PyStr.isalpha word = false) ->
  _is_valid_entity entity_text "PERSON" flair_span = true.
Proof.
  intros Hlen Htokens. unfold _is_valid_entity.
  destruct (Nat.leb_spec (String.length (PyStr.strip entity_text)) 1) as [Hle | _];
    [lia |].
  simpl. now rewrite (filter_none _ _ Htokens).
Qed.

(** A lower-case name with an apostrophe and a number: accepted. *)
Lemma is_valid_entity_person_witness :
  _is_valid_entity "o'brien 123" "PERSON" (mkSpan "o'brien 123" "PER" 0 11) = true.
Proof.
  apply is_valid_entity_person_without_alpha_token.
  - vm_compute. lia.
  - intros word Hword. vm_compute in Hword.
    destruct Hword as [<- | [<- | []]]; reflexivity.
Defined.

(** ** OverlapResolver *)

Section OverlapResolver.

Lemma overlap_test_spec e x : overlap_test e x = true <-> overlaps e x.
Proof.
  unfold overlap_test, overlaps.
  rewrite andb_true_iff, Z.ltb_lt, Z.gtb_ltb, Z.ltb_lt. tauto.
Qed.

Lemma overlap_test_clear e x : overlap_test e x = false <-> ~ overlaps e x.
Proof.
  rewrite <- overlap_test_spec. destruct (overlap_test e x); split; congruence.
Qed.

Lemma overlaps_sym a b : overlaps a b -> overlaps b a.
Proof. unfold overlaps. tauto. Qed.

(** The observation behind the resolver: two entities that start no
    later than [e] and both overlap [e] overlap each other. *)
Lemma overlaps_common e x y :
  by_start x e -> by_start y e -> overlaps e x -> overlaps e y -> overlaps x y.
Proof. unfold by_start, overlaps. lia. Qed.

(** *** The sort *)

Lemma insert_by_start_In x y l : In y (insert_by_start x l) <-> y = x \/ In y l.
Proof.
  induction l as [| z l IH]; simpl.
  - intuition.
  - destruct (start x <=? start z)%Z; simpl; rewrite ?IH; intuition.
Qed.

Lemma sort_by_start_In y l : In y (sort_by_start l) <-> In y l.
Proof.
  induction l as [| x l IH]; simpl; [tauto |].
  rewrite insert_by_start_In, IH. intuition.
Qed.

Lemma insert_by_start_sorted x l :
  StronglySorted by_start l -> StronglySorted by_start (insert_by_start x l).
Proof.
  induction 1 as [| z l Hl IH Hz]; simpl.
  - repeat constructor.
  - destruct (Z.leb_spec (start x) (start z)) as [Hle | Hgt].
    + constructor; [now constructor |].
      constructor; [exact Hle |].
      eapply Forall_impl; [| exact Hz].
      unfold by_start. intros; lia.
    + constructor; [exact IH |].
      apply Forall_forall. intros y Hy.
      apply insert_by_start_In in Hy. destruct Hy as [-> | Hy].
      * unfold by_start. lia.
      * rewrite Forall_forall in Hz. now apply Hz.
Qed.

Lemma sort_by_start_sorted l : StronglySorted by_start (sort_by_start l).
Proof.
  induction l; simpl; [constructor | now apply insert_by_start_sorted].
Qed.

(** *** Pairwise disjointness, by recursion on the list *)

Lemma disjoint_app l1 l2 :
  ForallOrdPairs disjoint (l1 ++ l2) <->
  ForallOrdPairs disjoint l1 /\ ForallOrdPairs disjoint l2
  /\ (forall a b, In a l1 -> In b l2 -> disjoint a b).
Proof.
  induction l1 as [| x l1 IH]; simpl.
  - split.
    + intros H. repeat split; [constructor | exact H | tauto].
    + tauto.
  - split.
    + intros H. inversion H as [| ? ? Hx Hrest]; subst.
      apply IH in Hrest. destruct Hrest as (H1 & H2 & H12).
      rewrite Forall_app in Hx. destruct Hx as [Hx1 Hx2].
      repeat split; [now constructor | exact H2 |].
      intros a b [<- | Ha] Hb.
      * rewrite Forall_forall in Hx2. now apply Hx2.
      * now apply H12.
    + intros (H1 & H2 & H12). inversion H1 as [| ? ? Hx Hrest]; subst.
      constructor.
      * rewrite Forall_app. split; [exact Hx |].
        apply Forall_forall. intros b Hb. apply H12; [now left | exact Hb].
      * apply IH. repeat split; [exact Hrest | exact H2 |].
        intros a b Ha Hb. apply H12; [now right | exact Hb].
Qed.

Lemma disjoint_nth l :
  ForallOrdPairs disjoint l -> pairwise_disjoint l.
Proof.
  assert (Hlt : forall l, ForallOrdPairs disjoint l ->
                forall i j a b, (i < j)%nat ->
                  nth_error l i = Some a -> nth_error l j = Some b -> disjoint a b).
  { clear l. induction 1 as [| x l Hx Hrest IH]; intros i j a b Hij Hi Hj.
    - destruct i; discriminate.
    - destruct j as [| j]; [lia |]. simpl in Hj.
      destruct i as [| i]; simpl in Hi.
      + injection Hi as <-. rewrite Forall_forall in Hx.
        apply Hx. eapply nth_error_In; eassumption.
      + apply (IH i j); [lia | assumption | assumption]. }
  intros H i j a b Hij Hi Hj.
  destruct (Nat.lt_ge_cases i j) as [Hlt' | Hge].
  - exact (Hlt l H i j a b Hlt' Hi Hj).
  - intros Hov. apply overlaps_sym in Hov.
    apply (Hlt l H j i b a); [lia | assumption | assumption | exact Hov].
Qed.

(** *** The inner loop *)

Lemma list_remove_first x pre post :
  ~ In x pre -> list_remove x (pre ++ x :: post) = pre ++ post.
Proof.
  induction pre as [| y pre IH]; simpl; intros Hx.
  - destruct (Entity_eq_dec x x); [reflexivity | congruence].
  - destruct (Entity_eq_dec x y) as [-> | _]; [tauto |].
    f_equal. apply IH. tauto.
Qed.

(** What the scan of [copy] returns: either nothing overlaps, or the
    first overlapping element decides. *)
Lemma scan_existing_cases e copy filtered :
  (Forall (clear_of e) copy /\ scan_existing e copy filtered = (filtered, false))
  \/ exists pre x post,
      copy = pre ++ x :: post /\ Forall (clear_of e) pre /\ overlaps e x
      /\ ((String.length (text x) < String.length (text e))%nat
          /\ scan_existing e copy filtered = (list_remove x filtered, false)
          \/ (String.length (text e) <= String.length (text x))%nat
             /\ scan_existing e copy filtered = (filtered, true)).
Proof.
  induction copy as [| y copy IH]; simpl.
  - left. split; [constructor | reflexivity].
  - destruct (overlap_test e y) eqn:Hy.
    + right. exists [], y, copy.
      split; [reflexivity |]. split; [constructor |].
      split; [now apply overlap_test_spec |].
      destruct (Nat.ltb_spec (String.length (text y)) (String.length (text e)));
        [left | right]; now split.
    + destruct IH as [[Hall Hscan] | (pre & x & post & -> & Hpre & Hx & Hcase)].
      * left. split; [now constructor | exact Hscan].
      * right. exists (y :: pre), x, post.
        split; [reflexivity |]. split; [now constructor |].
        split; [exact Hx | exact Hcase].
Qed.

Lemma clear_of_not_In e x pre :
  Forall (clear_of e) pre -> overlaps e x -> ~ In x pre.
Proof.
  intros Hpre Hx Hin. rewrite Forall_forall in Hpre.
  apply Hpre in Hin. apply overlap_test_clear in Hin. tauto.
Qed.

(** *** One turn of the outer loop *)

Lemma resolve_step_In filtered e x :
  In x (resolve_step filtered e) -> In x filtered \/ x = e.
Proof.
  unfold resolve_step.
  destruct (scan_existing_cases e filtered filtered)
    as [[_ ->] | (pre & y & post & Heq & Hpre & Hy & [[_ ->] | [_ ->]])].
  - rewrite in_app_iff. simpl. intuition.
  - rewrite Heq at 1 2.
    rewrite list_remove_first by (eapply clear_of_not_In; eassumption).
    rewrite !in_app_iff. simpl. intuition.
  - tauto.
Qed.

Lemma resolve_step_disjoint filtered e :
  ForallOrdPairs disjoint filtered ->
  Forall (fun x => by_start x e) filtered ->
  ForallOrdPairs disjoint (resolve_step filtered e).
Proof.
  intros Hdis Hstart. unfold resolve_step.
  destruct (scan_existing_cases e filtered filtered)
    as [[Hall ->] | (pre & y & post & Heq & Hpre & Hy & [[_ ->] | [_ ->]])].
  - apply disjoint_app. repeat split; [exact Hdis | repeat constructor |].
    intros a b Ha [<- | []]. rewrite Forall_forall in Hall.
    intros Hov. apply overlaps_sym in Hov.
    apply overlap_test_clear in Hov; [exact Hov | now apply Hall].
  - rewrite Heq at 1.
    rewrite list_remove_first by (eapply clear_of_not_In; eassumption).
    subst filtered.
    apply disjoint_app in Hdis. destruct Hdis as (Hd1 & Hd2 & Hd12).
    inversion Hd2 as [| ? ? Hypost Hdpost]; subst.
    rewrite Forall_app in Hstart. destruct Hstart as [Hs1 Hs2].
    inversion Hs2 as [| ? ? Hsy Hspost]; subst.
    apply disjoint_app.
    repeat split; [| repeat constructor |].
    + apply disjoint_app. repeat split; [exact Hd1 | exact Hdpost |].
      intros a b Ha Hb. apply Hd12; [exact Ha | now right].
    + intros a b Ha [<- | []]. apply in_app_iff in Ha. destruct Ha as [Ha | Ha].
      * rewrite Forall_forall in Hpre. intros Hov. apply overlaps_sym in Hov.
        apply overlap_test_clear in Hov; [exact Hov | now apply Hpre].
      * intros Hov. apply overlaps_sym in Hov.
        rewrite Forall_forall in Hypost, Hspost.
        apply (Hypost a Ha).
        apply (overlaps_common e); [exact Hsy | now apply Hspost | exact Hy | exact Hov].
  - exact Hdis.
Qed.

(** *** The outer loop *)

Lemma fold_resolve_In l : forall filtered x,
  In x (fold_left resolve_step l filtered) -> In x filtered \/ In x l.
Proof.
  induction l as [| e l IH]; simpl; intros filtered x Hx; [now left |].
  apply IH in Hx. destruct Hx as [Hx | Hx]; [| now right; right].
  apply resolve_step_In in Hx. destruct Hx as [Hx | ->]; [now left | now right; left].
Qed.

Lemma fold_resolve_disjoint l : forall filtered,
  StronglySorted by_start l ->
  ForallOrdPairs disjoint filtered ->
  Forall (fun x => Forall (by_start x) l) filtered ->
  ForallOrdPairs disjoint (fold_left resolve_step l filtered).
Proof.
  induction l as [| e l IH]; simpl; intros filtered Hsorted Hdis Hbelow;
    [exact Hdis |].
  inversion Hsorted as [| ? ? Hl He]; subst.
  apply IH; [exact Hl | |].
  - apply resolve_step_disjoint; [exact Hdis |].
    eapply Forall_impl; [| exact Hbelow].
    intros x Hx. now inversion Hx.
  - apply Forall_forall. intros x Hx.
    apply resolve_step_In in Hx. destruct Hx as [Hx | ->]; [| exact He].
    rewrite Forall_forall in Hbelow. specialize (Hbelow x Hx). now inversion Hbelow.
Qed.

Lemma remove_overlapping_subset entities x :
  In x (_remove_overlapping_entities entities) -> In x entities.
Proof.
  unfold _remove_overlapping_entities. intros Hx.
  apply fold_resolve_In in Hx. destruct Hx as [[] | Hx].
  now apply sort_by_start_In.
Qed.

(** C1. Whatever the candidates, no two entities at different places of
    the resolver's output overlap. *)
Theorem remove_overlapping_entities_disjoint (entities : list Entity) :
  pairwise_disjoint (_remove_overlapping_entities entities).
Proof.
  apply disjoint_nth. unfold _remove_overlapping_entities.
  apply fold_resolve_disjoint; [apply sort_by_start_sorted | constructor | constructor].
Qed.

End OverlapResolver.

(** A run of the resolver: "New York City" evicts "New York", and "York",
    which starts later and is shorter, is rejected. *)
Example remove_overlapping_entities_run :
  _remove_overlapping_entities
    [ new_entity "York" "LOCATION" 4 8 (Some "LOC");
      new_entity "New York" "LOCATION" 0 8 (Some "LOC");
      new_entity "New York City" "LOCATION" 0 13 (Some "LOC");
      new_entity "Paris" "LOCATION" 20 25 (Some "LOC") ]
  = [ new_entity "New York City" "LOCATION" 0 13 (Some "LOC");
      new_entity "Paris" "LOCATION" 20 25 (Some "LOC") ].
Proof. vm_compute. reflexivity. Qed.

(** The resolver on a list of one, then on an overlapping second entity. *)
Lemma resolve_second first second :
  overlaps second first ->
  fold_left resolve_step [first; second] [] =
  if (String.length (text first) <? String.length (text second))%nat
  then [second] else [first].
Proof.
  intros Hov. apply overlap_test_spec in Hov.
  simpl. unfold resolve_step at 2. simpl.
  unfold resolve_step. simpl. rewrite Hov.
  destruct (String.length (text first) <? String.length (text second))%nat.
  - destruct (Entity_eq_dec first first); [reflexivity | congruence].
  - reflexivity.
Qed.

(** C5. Of two overlapping candidates with texts of different lengths the
    resolver keeps the longer one (and only it); when the lengths are equal
    it keeps the one processed first, which is the one that starts first,
    or the first of the input when both start together. *)
Theorem remove_overlapping_entities_longest_wins (a b : Entity) :
  overlaps a b ->
  ((String.length (text b) < String.length (text a))%nat ->
   _remove_overlapping_entities [a; b] = [a])
  /\ ((String.length (text a) < String.length (text b))%nat ->
      _remove_overlapping_entities [a; b] = [b])
  /\ (String.length (text a) = String.length (text b) ->
      _remove_overlapping_entities [a; b]
      = [if (start a <=? start b)%Z then a else b]).
Proof.
  intros Hab. pose proof (overlaps_sym a b Hab) as Hba.
  unfold _remove_overlapping_entities. simpl sort_by_start.
  destruct (start a <=? start b)%Z.
  - rewrite (resolve_second a b Hba).
    repeat split; intros Hlen.
    + destruct (Nat.ltb_spec (String.length (text a)) (String.length (text b)));
        [lia | reflexivity].
    + destruct (Nat.ltb_spec (String.length (text a)) (String.length (text b)));
        [reflexivity | lia].
    + destruct (Nat.ltb_spec (String.length (text a)) (String.length (text b)));
        [lia | reflexivity].
  - rewrite (resolve_second b a Hab).
    repeat split; intros Hlen.
    + destruct (Nat.ltb_spec (String.length (text b)) (String.length (text a)));
        [reflexivity | lia].
    + destruct (Nat.ltb_spec (String.length (text b)) (String.length (text a)));
        [lia | reflexivity].
    + destruct (Nat.ltb_spec (String.length (text b)) (String.length (text a)));
        [lia | reflexivity].
Qed.

(** "Elm Street" against the longer "123 Elm Street" found by the address
    pattern: the address wins although it is processed second. *)
Lemma remove_overlapping_entities_longest_wins_witness :
  let a := new_entity "Elm Street" "LOCATION" 4 14 (Some "LOC") in
  let b := new_entity "123 Elm Street" "ADDRESS" 0 14 None in
  overlaps a b /\ _remove_overlapping_entities [a; b] = [b].
Proof.
  intros a b.
  assert (Hab : overlaps a b) by (unfold overlaps; simpl; lia).
  split; [exact Hab |].
  apply (proj1 (proj2 (remove_overlapping_entities_longest_wins a b Hab))).
  simpl. lia.
Defined.

(** ** Entity extraction *)

Section ExtractionFacts.

Variable tagger : string -> list Span.
Variable re_finditer : string -> string -> list Match.

Lemma span_entity_allowed ent : Forall allowed (span_entity ent).
Proof.
  unfold span_entity.
  destruct (mem (span_tag ent) excluded_types) eqn:Htag; [constructor |].
  destruct (mem (_map_flair_entity_type (span_tag ent)) excluded_types) eqn:Hty;
    [constructor |].
  destruct (_is_valid_entity _ _ _); [| constructor].
  repeat constructor; [exact Hty | exact Htag].
Qed.

Lemma extract_addresses_allowed txt :
  Forall allowed (_extract_addresses re_finditer txt).
Proof.
  unfold _extract_addresses.
  apply Forall_flat_map, Forall_forall. intros pattern _.
  apply Forall_map, Forall_forall. intros m _.
  split; reflexivity.
Qed.

(** C6. Whatever text is given and whatever spans the tagger returns, no
    entity returned by [extract_entities] has one of DATE, TIME, PERCENT,
    MONEY, QUANTITY, ORDINAL, CARDINAL as its type or as its raw tagger
    label. *)
Theorem extract_entities_excludes (txt : string) :
  Forall (fun e => mem (type e) excluded_types = false
                   /\ label_excluded e = false)
         (extract_entities tagger re_finditer txt).
Proof.
  apply Forall_forall. intros e He. unfold extract_entities in He.
  apply remove_overlapping_subset in He.
  apply in_app_iff in He. destruct He as [He | He].
  - apply in_flat_map in He. destruct He as (ent & _ & He).
    pose proof (span_entity_allowed ent) as Hall.
    rewrite Forall_forall in Hall. exact (Hall e He).
  - pose proof (extract_addresses_allowed txt) as Hall.
    rewrite Forall_forall in Hall. exact (Hall e He).
Qed.

End ExtractionFacts.

(** A tagger that labels "2021" as DATE and "London" as GPE: only London
    comes out. *)
Example extract_entities_run :
  extract_entities
    (fun _ => [ mkSpan "London" "GPE" 15 21; mkSpan "2021" "DATE" 25 29 ])
    (fun _ _ => [])
    "Obama visited London in 2021."
  = [ new_entity "London" "LOCATION" 15 21 (Some "GPE") ].
Proof. vm_compute. reflexivity. Qed.

(** ** GeoContextDetector *)

Lemma prefix_lower sub : forall s,
  prefix sub s = true -> prefix (PyStr.lower sub) (PyStr.lower s) = true.
Proof.
  induction sub as [| c sub IH]; intros s H; [destruct s; reflexivity |].
  destruct s as [| d s]; [discriminate |].
  simpl in *. destruct (ascii_dec c d) as [-> | _]; [| discriminate].
  destruct (ascii_dec (PyStr.lower_char d) (PyStr.lower_char d)); [| congruence].
  now apply IH.
Qed.

Lemma contains_lower sub s :
  PyStr.contains sub s = true ->
  PyStr.contains (PyStr.lower sub) (PyStr.lower s) = true.
Proof.
  induction s as [| d s IH]; intros H.
  - change (prefix sub "" || false = true) in H.
    rewrite orb_false_r in H. apply prefix_lower in H.
    change (prefix (PyStr.lower sub) (PyStr.lower "") || false = true).
    now rewrite H.
  - change (prefix sub (String d s) || PyStr.contains sub s = true) in H.
    change (prefix (PyStr.lower sub) (PyStr.lower (String d s))
            || PyStr.contains (PyStr.lower sub) (PyStr.lower s) = true).
    apply orb_true_iff in H. destruct H as [H | H].
    + apply prefix_lower in H. now rewrite H.
    + rewrite (IH H). apply orb_true_r.
Qed.

Lemma append_new_In l x y : In y (append_new l x) <-> In y l \/ (y = x /\ ~ In x l).
Proof.
  unfold append_new. destruct (mem x l) eqn:Hx.
  - apply mem_true_iff in Hx. intuition.
  - apply mem_false_iff in Hx. rewrite in_app_iff. simpl. intuition.
Qed.

Lemma append_new_keeps l x y : In y l -> In y (append_new l x).
Proof. intros H. apply append_new_In. now left. Qed.

Lemma append_new_NoDup l x : NoDup l -> NoDup (append_new l x).
Proof.
  intros H. unfold append_new. destruct (mem x l) eqn:Hx; [exact H |].
  apply mem_false_iff in Hx.
  apply NoDup_app; [exact H | repeat constructor; simpl; tauto |].
  intros a Ha [<- | []]. tauto.
Qed.

(** A loop whose every turn keeps what is there and keeps the list free of
    duplicates does so as a whole. *)
Section AppendOnly.

Variables (A : Type) (step : list string -> A -> list string).

Hypothesis step_keeps : forall clues a y, In y clues -> In y (step clues a).
Hypothesis step_NoDup : forall clues a, NoDup clues -> NoDup (step clues a).

Lemma append_only_keeps (l : list A) : forall clues y,
  In y clues -> In y (fold_left step l clues).
Proof.
  induction l as [| a l IH]; simpl; intros clues y Hy; [exact Hy |].
  apply IH, step_keeps, Hy.
Qed.

Lemma append_only_NoDup (l : list A) : forall clues,
  NoDup clues -> NoDup (fold_left step l clues).
Proof.
  induction l as [| a l IH]; simpl; intros clues H; [exact H |].
  apply IH, step_NoDup, H.
Qed.

End AppendOnly.

Lemma nodupb_NoDup l : nodupb l = true -> NoDup l.
Proof.
  induction l as [| x l IH]; simpl; intros H; [constructor |].
  apply andb_true_iff in H. destruct H as [Hx Hl].
  constructor; [| now apply IH].
  apply mem_false_iff. now apply negb_true_iff.
Qed.

Section GeoContextFacts.

Variable re_search : string -> string -> bool.

(** *** The detected keys *)

Lemma explicit_mentions_In text_lower location patterns :
  In (location, patterns) major_locations ->
  existsb (fun pattern => PyStr.contains pattern text_lower) patterns = true ->
  In location (explicit_mentions text_lower).
Proof.
  intros Hin Hex. unfold explicit_mentions. apply in_flat_map.
  exists (location, patterns). split; [exact Hin |].
  simpl. rewrite Hex. now left.
Qed.

Lemma selected_keys_NoDup {V : Type} (p : string -> V -> bool) (d : list (string * V)) :
  NoDup (keys d) ->
  NoDup (flat_map (fun '(k, v) => if p k v then [k] else []) d).
Proof.
  induction d as [| [k v] d IH]; simpl; intros H; [constructor |].
  inversion H as [| ? ? Hk Hd]; subst. specialize (IH Hd).
  destruct (p k v); [| exact IH]. simpl. constructor; [| exact IH].
  intros Hin. apply in_flat_map in Hin. destruct Hin as ([k' v'] & Hin & Hk').
  destruct (p k' v'); [| contradiction]. destruct Hk' as [<- | []].
  apply Hk. unfold keys. apply in_map_iff. now exists (k', v').
Qed.

Lemma explicit_mentions_NoDup text_lower : NoDup (explicit_mentions text_lower).
Proof.
  unfold explicit_mentions.
  apply (selected_keys_NoDup
           (fun _ patterns =>
              existsb (fun pattern => PyStr.contains pattern text_lower) patterns)).
  apply nodupb_NoDup. vm_compute. reflexivity.
Qed.

Lemma entity_mentions_keeps clues entity y :
  In y clues -> In y (entity_mentions clues entity).
Proof.
  unfold entity_mentions. destruct (mem (type entity) _); [| tauto].
  apply append_only_keeps. intros c [location patterns] z Hz.
  destruct (_ || _); [now apply append_new_keeps | exact Hz].
Qed.

Lemma entity_mentions_NoDup clues entity :
  NoDup clues -> NoDup (entity_mentions clues entity).
Proof.
  unfold entity_mentions. destruct (mem (type entity) _); [| tauto].
  apply append_only_NoDup. intros c [location patterns] Hc.
  destruct (_ || _); [now apply append_new_NoDup | exact Hc].
Qed.

Lemma postal_mentions_keeps txt clues y :
  In y clues -> In y (postal_mentions re_search txt clues).
Proof.
  unfold postal_mentions.
  apply append_only_keeps. intros c [country patterns] z Hz.
  destruct (existsb _ _); [now apply append_new_keeps | exact Hz].
Qed.

Lemma postal_mentions_NoDup txt clues :
  NoDup clues -> NoDup (postal_mentions re_search txt clues).
Proof.
  unfold postal_mentions.
  apply append_only_NoDup. intros c [country patterns] Hc.
  destruct (existsb _ _); [now apply append_new_NoDup | exact Hc].
Qed.

Lemma detected_clues_NoDup txt entities :
  NoDup (detected_clues re_search txt entities).
Proof.
  unfold detected_clues. apply postal_mentions_NoDup.
  apply append_only_NoDup; [exact entity_mentions_NoDup |].
  apply explicit_mentions_NoDup.
Qed.

(** A key one of whose aliases occurs in the text, whatever the case of
    its letters, is detected. *)
Lemma detected_clues_mention txt entities location patterns word :
  In (location, patterns) major_locations ->
  In (PyStr.lower word) patterns ->
  PyStr.contains word txt = true ->
  In location (detected_clues re_search txt entities).
Proof.
  intros Hloc Hpat Hword. unfold detected_clues.
  apply postal_mentions_keeps.
  apply append_only_keeps; [exact entity_mentions_keeps |].
  apply (explicit_mentions_In _ location patterns Hloc).
  apply existsb_exists. exists (PyStr.lower word).
  split; [exact Hpat | now apply contains_lower].
Qed.

(** *** The prioritisation *)

Lemma mem_app x l1 l2 : mem x (l1 ++ l2) = mem x l1 || mem x l2.
Proof. unfold mem. apply existsb_app. Qed.

Lemma mem_filter x (f : string -> bool) l : mem x (filter f l) = f x && mem x l.
Proof.
  induction l as [| y l IH]; simpl; [now rewrite andb_false_r |].
  destruct (f y) eqn:Hy; simpl; rewrite IH.
  - destruct (String.eqb_spec x y) as [-> | _]; [now rewrite Hy | reflexivity].
  - destruct (String.eqb_spec x y) as [-> | _]; [| reflexivity].
    rewrite Hy. reflexivity.
Qed.

Lemma fold_append_new_filter (head : list string) (q : string -> bool) :
  forall l added,
    NoDup l ->
    (forall c, In c l -> mem c head = q c) ->
    (forall c, In c l -> ~ In c added) ->
    fold_left append_new l (head ++ added)
    = head ++ added ++ filter (fun c => negb (q c)) l.
Proof.
  induction l as [| c l IH]; simpl; intros added Hnd Hhead Hadded.
  - now rewrite app_nil_r.
  - inversion Hnd as [| ? ? Hc Hl]; subst.
    unfold append_new at 2. rewrite mem_app, (Hhead c (or_introl eq_refl)).
    assert (Hca : mem c added = false).
    { apply mem_false_iff. apply Hadded. now left. }
    rewrite Hca, orb_false_r.
    destruct (q c) eqn:Hq; simpl.
    + apply IH; [exact Hl | |]; intros d Hd; [apply Hhead | apply Hadded]; now right.
    + rewrite <- app_assoc, (IH (added ++ [c])), <- app_assoc; [reflexivity | exact Hl | |].
      * intros d Hd. apply Hhead. now right.
      * intros d Hd Hin. apply in_app_iff in Hin.
        destruct Hin as [Hin | [<- | []]]; [| contradiction].
        apply (Hadded d); [now right | exact Hin].
Qed.

(** The detected keys of the priority list, in its order, then the other
    detected keys in the order of their discovery. *)
Lemma prioritize_spec clues :
  NoDup clues ->
  prioritize clues
  = filter (fun p => mem p clues) priority_order
    ++ filter (fun c => negb (mem c priority_order)) clues.
Proof.
  intros Hnd. unfold prioritize.
  rewrite <- (app_nil_r (filter _ priority_order)) at 1.
  rewrite (fold_append_new_filter _ (fun c => mem c priority_order));
    [reflexivity | exact Hnd | | tauto].
  intros c Hc. rewrite mem_filter.
  apply mem_true_iff in Hc. now rewrite Hc.
Qed.

End GeoContextFacts.

(** C9, as the code has it. The detector returns at most 3 keys: the first
    three of the detected keys of the priority list, in its order, followed
    by the other detected keys in discovery order. For a text that contains
    "Paris" and "UK" the result always contains "paris"; "uk" may be cut
    off by the truncation, and when it is there "paris" comes before it. *)
Theorem detect_geographical_context_order
        (re_search : string -> string -> bool) (txt : string) (entities : list Entity) :
  let clues := detected_clues re_search txt entities in
  let result := _detect_geographical_context re_search txt entities in
  (List.length result <= 3)%nat
  /\ result = firstn 3 (filter (fun p => mem p clues) priority_order
                        ++ filter (fun c => negb (mem c priority_order)) clues)
  /\ (PyStr.contains "Paris" txt = true ->
      PyStr.contains "UK" txt = true ->
      mem "paris" result = true
      /\ (mem "uk" result = true -> occurs_before "paris" "uk" result = true)).
Proof.
  intros clues result. subst result. unfold _detect_geographical_context.
  fold clues.
  rewrite (prioritize_spec re_search clues (detected_clues_NoDup re_search txt entities)).
  split; [apply firstn_le_length |].
  split; [reflexivity |].
  intros HParis HUK.
  assert (Hparis : mem "paris" clues = true).
  { apply mem_true_iff.
    apply (detected_clues_mention re_search txt entities "paris" ["paris"] "Paris");
      [vm_compute; tauto | now left | exact HParis]. }
  assert (Huk : mem "uk" clues = true).
  { apply mem_true_iff.
    apply (detected_clues_mention re_search txt entities "uk"
             ["uk"; "united kingdom"; "britain"; "great britain"] "UK");
      [now left | now left | exact HUK]. }
  unfold priority_order.
  cbn [filter]. rewrite Hparis, Huk.
  destruct (mem "london" clues), (mem "new york" clues),
           (mem "tokyo" clues), (mem "sydney" clues);
    (split; [reflexivity | intros H; first [reflexivity | discriminate H]]).
Qed.

Lemma detect_geographical_context_order_witness :
  occurs_before "paris" "uk"
    (_detect_geographical_context no_postal_code "Paris, UK" []) = true.
Proof.
  apply (proj2 (proj2 (detect_geographical_context_order
                         no_postal_code "Paris, UK" []))).
  - reflexivity.
  - reflexivity.
  - reflexivity.
Defined.

(** C9, as stated, fails: with London and New York in the text as well,
    the three places of the result are taken and "uk" is not returned. *)
Lemma detect_geographical_context_uk_cut :
  let txt := "London, New York, Paris, UK" in
  PyStr.contains "Paris" txt = true
  /\ PyStr.contains "UK" txt = true
  /\ _detect_geographical_context no_postal_code txt []
     = ["london"; "new york"; "paris"]
  /\ occurs_before "paris" "uk"
       (_detect_geographical_context no_postal_code txt []) = false.
Proof. vm_compute. repeat split; reflexivity. Qed.

(** ** The delays after the external calls *)

Section Delays.

Variable re_findall : string -> string -> list (string * string).
Variable re_sub : string -> string -> string -> string.
Variable quote : string -> string.
Variable parse_float : string -> option float.

Lemma wikidata_try_delay : one_call_then_delay wikidata_try (fun _ => true) 100.
Proof.
  intros e w.
  exists (Get "https://www.wikidata.org/w/api.php" (text e) (next_http w)).
  split; [reflexivity |].
  unfold wikidata_try. unfold_monad. cbn.
  destruct (next_http w) as [response | x]; cbn; [| reflexivity].
  split_cases; trace_eq.
Qed.

Lemma wikipedia_try_delay :
  one_call_then_delay (wikipedia_try re_sub quote) (fun _ => true) 200.
Proof.
  intros e w.
  exists (Get "https://en.wikipedia.org/w/api.php" (text e) (next_http w)).
  split; [reflexivity |].
  unfold wikipedia_try. unfold_monad. cbn.
  destruct (next_http w) as [response | x]; cbn; [| reflexivity].
  split_cases; trace_eq.
Qed.

(** The loop over the matches makes no call and does not raise. *)
Lemma britannica_matches_quiet matches : forall e w,
  exists e', britannica_matches matches e w = (Ok tt, e', w).
Proof.
  induction matches as [| [url_path link_text] rest IH]; intros e w; cbn.
  - now exists e.
  - unfold_monad. destruct (_ || _); [eexists; reflexivity | apply IH].
Qed.

Lemma britannica_try_delay :
  one_call_then_delay (britannica_try re_findall) (fun _ => true) 300.
Proof.
  intros e w.
  exists (Get "https://www.britannica.com/search" (text e) (next_http w)).
  split; [reflexivity |].
  unfold britannica_try. unfold bind at 1 2, get_entity, requests_get. cbn.
  destruct (next_http w) as [response | x]; cbn; [| reflexivity].
  unfold bind, time_sleep, log, ret.
  destruct (status_code response =? 200)%Z; cbn; [| trace_eq].
  match goal with
  | |- context [britannica_matches ?m ?e ?w] =>
      destruct (britannica_matches_quiet m e w) as [e' ->]
  end.
  trace_eq.
Qed.

Lemma openstreetmap_link_try_delay :
  one_call_then_delay (openstreetmap_link_try parse_float) (fun _ => true) 200.
Proof.
  intros e w.
  exists (Get "https://nominatim.openstreetmap.org/search" (text e) (next_http w)).
  split; [reflexivity |].
  unfold openstreetmap_link_try. unfold_monad. cbn.
  destruct (next_http w) as [response | x]; cbn; [| reflexivity].
  split_cases; trace_eq.
Qed.

(** The search-endpoint block of the contextual and of the aggressive
    strategy: the delay follows unless the block returned [True]. *)
Lemma osm_try_delay search_term source delay :
  one_call_then_delay (osm_try parse_float search_term source delay) negb delay.
Proof.
  intros e w.
  exists (Get "https://nominatim.openstreetmap.org/search" search_term (next_http w)).
  split; [reflexivity |].
  unfold osm_try, record_osm. unfold_monad. cbn.
  destruct (next_http w) as [response | x]; cbn; [| reflexivity].
  split_cases; trace_eq.
Qed.

Lemma contextual_geopy_try_delay search_term :
  one_call_then_delay (contextual_geopy_try search_term) negb 200.
Proof.
  intros e w.
  exists (Geocode "nominatim" search_term (next_geopy w)).
  split; [reflexivity |].
  unfold contextual_geopy_try, record_geopy_contextual. unfold_monad. cbn.
  destruct (next_geopy w) as [[location |] | x]; cbn; trace_eq.
Qed.

End Delays.



(** A run of [link_to_wikidata] on two entities: the first search answers
    and is followed by the delay, the second times out and is not. *)
Example link_to_wikidata_run :
  let paris := new_entity "Paris" "LOCATION" 0 5 (Some "LOC") in
  let rome := new_entity "Rome" "LOCATION" 10 14 (Some "LOC") in
  let answer := mkHttp 200 "" (Some (WikidataJson [mkWd (Some "Q90") None])) in
  link_to_wikidata [paris; rome] (mkWorld [Ok answer; Err OtherError] [] [])
  = ( [ set_wikidata_description ""
          (set_wikidata_url "http://www.wikidata.org/entity/Q90" paris);
        rome ],
      mkWorld [] []
        [ Get "https://www.wikidata.org/w/api.php" "Paris" (Ok answer);
          Sleep 100;
          Get "https://www.wikidata.org/w/api.php" "Rome" (Err OtherError) ] ).
Proof. vm_compute. reflexivity. Qed.

(** An answer without the member the linker looks for is no result, and
    the delay follows it; an array where an object is expected has no
    [get], the handler is entered and the delay is skipped. *)
Lemma linkers_delay_without_result
      (re_sub : string -> string -> string -> string) (quote : string -> string)
      (e : Entity) (w : World) (response : HttpResponse) (empty : bool) :
  next_http w = Ok response ->
  status_code response = 200%Z ->
  response_json response = Some (ObjectJson empty) ->
  wikidata_try e w
  = (Ok tt, e,
     mkWorld (tl (http w)) (geopy w)
             (trace w ++ [Get "https://www.wikidata.org/w/api.php" (text e) (Ok response);
                          Sleep 100]))
  /\ wikipedia_try re_sub quote e w
     = (Ok tt, e,
        mkWorld (tl (http w)) (geopy w)
                (trace w ++ [Get "https://en.wikipedia.org/w/api.php" (text e) (Ok response);
                             Sleep 200])).
Proof.
  intros Hnext Hstatus Hjson.
  unfold wikidata_try, wikipedia_try. unfold_monad. cbn.
  rewrite Hnext, Hstatus, Hjson. cbn. rewrite <- !app_assoc. split; reflexivity.
Qed.

Example link_to_wikidata_answers_without_result :
  let paris := new_entity "Paris" "LOCATION" 0 5 (Some "LOC") in
  let url := "https://www.wikidata.org/w/api.php" in
  let error_object := mkHttp 200 "" (Some (ObjectJson false)) in
  let other_service := mkHttp 200 "" (Some (WikipediaJson [mkWp (Some "Paris") None])) in
  let array := mkHttp 200 "" (Some (NominatimJson [])) in
  let not_found := mkHttp 404 "" None in
  link_to_wikidata [paris] (mkWorld [Ok error_object] [] [])
  = ([paris], mkWorld [] [] [Get url "Paris" (Ok error_object); Sleep 100])
  /\ link_to_wikidata [paris] (mkWorld [Ok other_service] [] [])
     = ([paris], mkWorld [] [] [Get url "Paris" (Ok other_service); Sleep 100])
  /\ link_to_wikidata [paris] (mkWorld [Ok not_found] [] [])
     = ([paris], mkWorld [] [] [Get url "Paris" (Ok not_found); Sleep 100])
  /\ link_to_wikidata [paris] (mkWorld [Ok array] [] [])
     = ([paris], mkWorld [] [] [Get url "Paris" (Ok array)]).
Proof. vm_compute. repeat split; reflexivity. Qed.

Example link_to_wikipedia_answers_without_result :
  let paris := new_entity "Paris" "LOCATION" 0 5 (Some "LOC") in
  let url := "https://en.wikipedia.org/w/api.php" in
  let error_object := mkHttp 200 "" (Some (ObjectJson false)) in
  let other_service := mkHttp 200 "" (Some (WikidataJson [mkWd (Some "Q90") None])) in
  let array := mkHttp 200 "" (Some (NominatimJson [])) in
  link_to_wikipedia (fun _ _ s => s) (fun s => s) [paris]
                    (mkWorld [Ok error_object] [] [])
  = ([paris], mkWorld [] [] [Get url "Paris" (Ok error_object); Sleep 200])
  /\ link_to_wikipedia (fun _ _ s => s) (fun s => s) [paris]
                       (mkWorld [Ok other_service] [] [])
     = ([paris], mkWorld [] [] [Get url "Paris" (Ok other_service); Sleep 200])
  /\ link_to_wikipedia (fun _ _ s => s) (fun s => s) [paris]
                       (mkWorld [Ok array] [] [])
     = ([paris], mkWorld [] [] [Get url "Paris" (Ok array)]).
Proof. vm_compute. repeat split; reflexivity. Qed.

(** The search endpoint answers with an object instead of an array: the
    empty object is no result, and the delay follows; on an object with
    members [data[0]] raises, and the delay is skipped. *)
Example link_to_openstreetmap_answers_with_object :
  let office := new_entity "10 Downing Street" "ADDRESS" 0 17 None in
  let url := "https://nominatim.openstreetmap.org/search" in
  let empty_object := mkHttp 200 "" (Some (ObjectJson true)) in
  let error_object := mkHttp 200 "" (Some (ObjectJson false)) in
  link_to_openstreetmap example_float [office] (mkWorld [Ok empty_object] [] [])
  = ([office], mkWorld [] [] [Get url "10 Downing Street" (Ok empty_object); Sleep 200])
  /\ link_to_openstreetmap example_float [office] (mkWorld [Ok error_object] [] [])
     = ([office], mkWorld [] [] [Get url "10 Downing Street" (Ok error_object)]).
Proof. vm_compute. repeat split; reflexivity. Qed.

(** ** KnowledgeLinker *)

(** A loop body that never raises and takes entities with [P] to entities
    with [Q] makes a loop that takes lists with [P] to lists with [Q]. *)
Lemma for_each_Forall (body : M unit) (P Q : Entity -> Prop) :
  (forall e w, P e -> exists e' w', body e w = (Ok tt, e', w') /\ Q e') ->
  forall entities w,
    Forall P entities ->
    exists entities' w',
      for_each body entities w = (Ok tt, entities', w') /\ Forall Q entities'.
Proof.
  intros Hbody. induction entities as [| e rest IH]; intros w HP; cbn.
  - exists [], w. split; [reflexivity | constructor].
  - inversion HP as [| ? ? He Hrest]; subst.
    destruct (Hbody e w He) as (e' & w' & -> & HQ).
    destruct (IH w' Hrest) as (rest' & w'' & -> & HQs).
    exists (e' :: rest'), w''. split; [reflexivity | now constructor].
Qed.

(** A loop body that never raises, whatever the entity, and takes an
    entity with [P] to one with [Q]: the loop runs to its end, and the
    entity at a position where [P] held is followed, at the same position,
    by one with [Q], whatever the other entities of the list are. *)
Lemma for_each_nth (body : M unit) (P Q : Entity -> Prop) :
  (forall e w, exists e' w', body e w = (Ok tt, e', w') /\ (P e -> Q e')) ->
  forall entities w,
    exists entities' w',
      for_each body entities w = (Ok tt, entities', w')
      /\ forall i e,
           nth_error entities i = Some e -> P e ->
           exists e', nth_error entities' i = Some e' /\ Q e'.
Proof.
  intros Hbody. induction entities as [| e0 rest IH]; intros w; cbn.
  - exists [], w. split; [reflexivity |]. intros [| i] e Hi; discriminate.
  - destruct (Hbody e0 w) as (e0' & w' & -> & HQ).
    destruct (IH w') as (rest' & w'' & -> & Hrest).
    exists (e0' :: rest'), w''. split; [reflexivity |].
    intros [| i] e Hi HP; cbn in *.
    + injection Hi as <-. exists e0'. auto.
    + exact (Hrest i e Hi HP).
Qed.

Section LinkingFacts.

Variable re_findall : string -> string -> list (string * string).
Variable re_sub : string -> string -> string -> string.
Variable quote : string -> string.

(** The three loop bodies never raise, and each takes the entity one stage
    further. *)
Lemma wikidata_entity_step e w :
  exists e' w',
    wikidata_entity e w = (Ok tt, e', w') /\ (unlinked e -> after_wikidata e').
Proof.
  unfold wikidata_entity, wikidata_try. unfold_monad. cbn.
  split_cases;
    (eexists; eexists; split; [reflexivity |]);
    intros (H1 & H2 & H3 & H4); unfold after_wikidata; cbn; auto.
Qed.

Lemma wikipedia_entity_step e w :
  exists e' w',
    wikipedia_entity re_sub quote e w = (Ok tt, e', w')
    /\ (after_wikidata e -> after_wikipedia e').
Proof.
  unfold wikipedia_entity, wikipedia_try. unfold_monad. cbn.
  destruct (PyStr.truthy (wikidata_url e)) eqn:Hwd.
  - exists e, w. split; [reflexivity |].
    intros (H1 & H2 & H3 & H4). unfold after_wikipedia. auto.
  - split_cases;
      (eexists; eexists; split; [reflexivity |]);
      intros (H1 & H2 & H3 & [H4 | H4]); try congruence;
      unfold after_wikipedia; cbn; auto 7.
Qed.

Lemma wikidata_entity_links e w :
  unlinked e ->
  exists e' w', wikidata_entity e w = (Ok tt, e', w') /\ after_wikidata e'.
Proof.
  intros H. destruct (wikidata_entity_step e w) as (e' & w' & Heq & Hstep).
  exists e', w'. auto.
Qed.

Lemma wikipedia_entity_links e w :
  after_wikidata e ->
  exists e' w',
    wikipedia_entity re_sub quote e w = (Ok tt, e', w') /\ after_wikipedia e'.
Proof.
  intros H. destruct (wikipedia_entity_step e w) as (e' & w' & Heq & Hstep).
  exists e', w'. auto.
Qed.

Lemma britannica_matches_links matches : forall e w,
  exists e',
    britannica_matches matches e w = (Ok tt, e', w)
    /\ wikidata_url e' = wikidata_url e
    /\ wikipedia_url e' = wikipedia_url e
    /\ openstreetmap_url e' = openstreetmap_url e.
Proof.
  induction matches as [| [url_path link_text] rest IH]; intros e w; cbn.
  - exists e. auto.
  - unfold_monad. destruct (_ || _); [| apply IH].
    eexists. split; [reflexivity |]. cbn. auto.
Qed.

Lemma britannica_entity_step e w :
  exists e' w',
    britannica_entity re_findall e w = (Ok tt, e', w')
    /\ (after_wikipedia e -> (links e' <= 1)%nat).
Proof.
  unfold britannica_entity. unfold bind at 1, get_entity.
  destruct (PyStr.truthy (wikidata_url e) || PyStr.truthy (wikipedia_url e)) eqn:Hany.
  - exists e, w. split; [reflexivity |]. intros (H1 & H2 & H3).
    unfold links. rewrite H1, H2.
    destruct H3 as [[-> _] | [_ ->]]; cbn;
      [destruct (wikipedia_url e) | destruct (wikidata_url e)]; cbn; lia.
  - apply orb_false_iff in Hany. destruct Hany as [Hwd Hwp].
    assert (Hframe : forall e' : Entity,
               wikidata_url e' = wikidata_url e ->
               wikipedia_url e' = wikipedia_url e ->
               openstreetmap_url e' = openstreetmap_url e ->
               after_wikipedia e -> (links e' <= 1)%nat).
    { intros e' Ha Hb Hc (H1 & H2 & H3).
      destruct H3 as [[H3 [H5 | H5]] | [H3 _]]; try congruence.
      unfold links. rewrite Ha, Hb, Hc, H3, H5, H2.
      destruct (britannica_url e'); cbn; lia. }
    unfold britannica_try, try_except.
    unfold bind at 1 2, get_entity, requests_get. cbn.
    destruct (next_http w) as [response | x]; cbn.
    + unfold bind, time_sleep, ret.
      destruct (status_code response =? 200)%Z.
      * match goal with
        | |- context [britannica_matches ?m ?e ?w] =>
            destruct (britannica_matches_links m e w) as (e' & -> & Ha & Hb & Hc)
        end.
        eexists; eexists; split; [reflexivity | now apply Hframe].
      * eexists; eexists; split; [reflexivity | now apply Hframe].
    + eexists; eexists; split; [reflexivity | now apply Hframe].
Qed.

Lemma britannica_entity_links e w :
  after_wikipedia e ->
  exists e' w',
    britannica_entity re_findall e w = (Ok tt, e', w') /\ (links e' <= 1)%nat.
Proof.
  intros H. destruct (britannica_entity_step e w) as (e' & w' & Heq & Hstep).
  exists e', w'. auto.
Qed.

(** The chain leaves every entity that entered it without a link with a
    link of at most one source. *)
Lemma linking_chain_links entities w :
  Forall unlinked entities ->
  Forall (fun e => (links e <= 1)%nat)
         (fst (linking_chain re_findall re_sub quote entities w)).
Proof.
  intros H. unfold linking_chain, link_to_wikidata, link_to_wikipedia,
              link_to_britannica.
  destruct (for_each_Forall wikidata_entity unlinked after_wikidata
              wikidata_entity_links entities w H) as (es1 & w1 & -> & H1).
  destruct (for_each_Forall (wikipedia_entity re_sub quote) after_wikidata
              after_wikipedia wikipedia_entity_links es1 w1 H1)
    as (es2 & w2 & -> & H2).
  destruct (for_each_Forall (britannica_entity re_findall) after_wikipedia
              (fun e => (links e <= 1)%nat) britannica_entity_links es2 w2 H2)
    as (es3 & w3 & -> & H3).
  exact H3.
Qed.

(** The same entity by entity: an entity that enters the chain without a
    link is followed, at its position, by one with a link of at most one
    source, whatever links the other entities of the list carry. *)
Lemma linking_chain_nth entities w i e :
  nth_error entities i = Some e ->
  unlinked e ->
  exists e',
    nth_error (fst (linking_chain re_findall re_sub quote entities w)) i = Some e'
    /\ (links e' <= 1)%nat.
Proof.
  intros Hi He. unfold linking_chain, link_to_wikidata, link_to_wikipedia,
                  link_to_britannica.
  destruct (for_each_nth wikidata_entity unlinked after_wikidata
              wikidata_entity_step entities w) as (es1 & w1 & -> & H1).
  destruct (for_each_nth (wikipedia_entity re_sub quote) after_wikidata
              after_wikipedia wikipedia_entity_step es1 w1)
    as (es2 & w2 & -> & H2).
  destruct (for_each_nth (britannica_entity re_findall) after_wikipedia
              (fun e => (links e <= 1)%nat) britannica_entity_step es2 w2)
    as (es3 & w3 & -> & H3).
  destruct (H1 i e Hi He) as (e1 & Hi1 & He1).
  destruct (H2 i e1 Hi1 He1) as (e2 & Hi2 & He2).
  exact (H3 i e2 Hi2 He2).
Qed.

End LinkingFacts.

(** C3, as the code has it. Whatever the input and whatever the searches
    answer, an entity that enters the chain without a link leaves it, at
    its position in the list, with a link of at most one source:
    [link_to_wikipedia] skips an entity that has a Wikidata link, and
    [link_to_britannica] one that has either.  The other entities of the
    list may carry any links. *)
Theorem linking_chain_one_source
        (re_findall : string -> string -> list (string * string))
        (re_sub : string -> string -> string -> string)
        (quote : string -> string)
        (entities : list Entity) (w : World) (i : nat) (e : Entity) :
  nth_error entities i = Some e ->
  unlinked e ->
  exists e',
    nth_error (fst (linking_chain re_findall re_sub quote entities w)) i = Some e'
    /\ (links e' <= 1)%nat.
Proof. apply linking_chain_nth. Qed.

(** C3, as stated, fails: no input and no answers of the searches make an
    entity that starts unlinked leave the chain with links of two
    sources. *)
Lemma linking_chain_never_two_sources :
  ~ exists re_findall re_sub quote entities w i e e',
      nth_error entities i = Some e
      /\ unlinked e
      /\ nth_error (fst (linking_chain re_findall re_sub quote entities w)) i
         = Some e'
      /\ (2 <= links e')%nat.
Proof.
  intros (re_findall & re_sub & quote & entities & w & i & e & e'
          & Hi & He & Hi' & Hlinks).
  destruct (linking_chain_nth re_findall re_sub quote entities w i e Hi He)
    as (e'' & Hi'' & Hle).
  rewrite Hi' in Hi''. injection Hi'' as <-. lia.
Qed.

(** An unlinked entity beside one that enters the chain with two links. *)
Lemma linking_chain_one_source_witness :
  let rome :=
    set_wikipedia_url "https://en.wikipedia.org/wiki/Rome"
      (set_wikidata_url "http://www.wikidata.org/entity/Q220"
         (new_entity "Rome" "LOCATION" 10 14 (Some "LOC"))) in
  let paris := new_entity "Paris" "LOCATION" 0 5 (Some "LOC") in
  let nothing := mkHttp 200 "" (Some (WikidataJson [])) in
  let wikidata := mkHttp 200 "" (Some (WikidataJson [mkWd (Some "Q90") (Some "capital of France")])) in
  let wikipedia := mkHttp 200 "" (Some (WikipediaJson [mkWp (Some "Paris") None])) in
  let w := mkWorld [Ok nothing; Ok wikidata; Ok wikipedia] [] [] in
  nth_error [rome; paris] 1 = Some paris
  /\ unlinked paris
  /\ exists e',
       nth_error (fst (linking_chain (fun _ _ => []) (fun _ _ s => s) (fun s => s)
                                     [rome; paris] w)) 1 = Some e'
       /\ (links e' <= 1)%nat.
Proof.
  intros rome paris nothing wikidata wikipedia w.
  assert (Hi : nth_error [rome; paris] 1 = Some paris) by reflexivity.
  assert (He : unlinked paris) by (repeat split).
  split; [exact Hi |]. split; [exact He |].
  exact (linking_chain_one_source
           (fun _ _ => []) (fun _ _ s => s) (fun s => s) [rome; paris] w 1 paris Hi He).
Defined.

(** Every search would answer: the Wikidata link is set, the Wikipedia
    search is not even made, and its answer is left in the script. *)
Example linking_chain_run :
  let paris := new_entity "Paris" "LOCATION" 0 5 (Some "LOC") in
  let wikidata := mkHttp 200 "" (Some (WikidataJson [mkWd (Some "Q90") (Some "capital of France")])) in
  let wikipedia := mkHttp 200 "" (Some (WikipediaJson [mkWp (Some "Paris") None])) in
  let w := mkWorld [Ok wikidata; Ok wikipedia] [] [] in
  let '(entities, w') :=
    linking_chain (fun _ _ => []) (fun _ _ s => s) (fun s => s) [paris] w in
  map wikidata_url entities = [Some "http://www.wikidata.org/entity/Q90"]
  /\ map wikipedia_url entities = [None]
  /\ map britannica_url entities = [None]
  /\ http w' = [Ok wikipedia].
Proof. vm_compute. repeat split; reflexivity. Qed.

(** ** GeocodingResolver *)

(** An entity on which the body is a no-op stays what it is at its place in
    the list, whatever happens to the others. *)
Lemma for_each_fixed (body : M unit) (e : Entity) :
  (forall w, body e w = (Ok tt, e, w)) ->
  forall entities w i,
    nth_error entities i = Some e ->
    nth_error (snd (fst (for_each body entities w))) i = Some e.
Proof.
  intros Hfixed. induction entities as [| e0 rest IH]; intros w i Hi.
  - destruct i; discriminate.
  - cbn. destruct (body e0 w) as [[[[] | x] e0'] w'] eqn:Hbody.
    + specialize (IH w'). destruct (for_each body rest w') as [[r rest'] w''].
      destruct i as [| i]; cbn in *.
      * injection Hi as ->. rewrite Hfixed in Hbody. congruence.
      * now apply IH.
    + destruct i as [| i]; cbn in *.
      * injection Hi as ->. rewrite Hfixed in Hbody. congruence.
      * exact Hi.
Qed.

Lemma for_each_all_fixed (body : M unit) (entities : list Entity) :
  forall w,
    Forall (fun e => forall w, body e w = (Ok tt, e, w)) entities ->
    for_each body entities w = (Ok tt, entities, w).
Proof.
  induction entities as [| e rest IH]; intros w H; [reflexivity |].
  inversion H as [| ? ? He Hrest]; subst.
  cbn. rewrite He, (IH w Hrest). reflexivity.
Qed.

Section GeocodingFacts.

Variable re_search : string -> string -> bool.
Variable parse_float : string -> option float.
Variable geopy_installed : bool.
Variable processed_text : string.

Lemma coordinates_entity_skip context_clues e w :
  latitude e <> None ->
  coordinates_entity parse_float geopy_installed context_clues e w = (Ok tt, e, w).
Proof.
  intros Hlat. unfold coordinates_entity. unfold bind at 1, get_entity.
  destruct (mem (type e) place_types); [| reflexivity].
  destruct (latitude e); [reflexivity | congruence].
Qed.

(** C7. [get_coordinates] skips an entity whose latitude is set: the body
    of its loop returns at once, with the entity, the scripts of the
    services and the trace as they were, so no call is made for it; a list
    of geocoded entities comes back as it is; and in any list a geocoded
    entity is found unchanged at its place afterwards. *)
Theorem get_coordinates_skips_geocoded :
  (forall context_clues e w,
      latitude e <> None ->
      coordinates_entity parse_float geopy_installed context_clues e w
      = (Ok tt, e, w))
  /\ (forall entities w,
         Forall (fun e => latitude e <> None) entities ->
         get_coordinates re_search parse_float geopy_installed processed_text
                         entities w
         = (Ok tt, entities, w))
  /\ (forall entities w i e,
         nth_error entities i = Some e ->
         latitude e <> None ->
         nth_error
           (snd (fst (get_coordinates re_search parse_float geopy_installed
                                      processed_text entities w))) i
         = Some e).
Proof.
  split; [exact coordinates_entity_skip |]. split.
  - intros entities w H. unfold get_coordinates.
    apply for_each_all_fixed.
    eapply Forall_impl; [| exact H].
    intros e He w'. now apply coordinates_entity_skip.
  - intros entities w i e Hi He. unfold get_coordinates.
    apply for_each_fixed; [| exact Hi].
    intros w'. now apply coordinates_entity_skip.
Qed.

End GeocodingFacts.

(** London is geocoded already, Leeds is not: a run on both leaves London
    as it is and spends the one answer of the geocoder on Leeds. *)
Lemma get_coordinates_skips_geocoded_witness :
  let london :=
    set_latitude (515074 # 10000)
      (set_longitude (- 1278 # 10000) (new_entity "London" "LOCATION" 0 6 (Some "LOC"))) in
  let leeds := new_entity "Leeds" "LOCATION" 11 16 (Some "LOC") in
  let w := mkWorld [] [Ok (Some (mkLocation (538 # 10) (- 155 # 100) "Leeds, UK"))] [] in
  latitude london <> None
  /\ nth_error
       (snd (fst (get_coordinates no_postal_code example_float true
                                  "London and Leeds" [london; leeds] w))) 0
     = Some london
  /\ get_coordinates no_postal_code example_float true "London and Leeds" [london] w
     = (Ok tt, [london], w).
Proof.
  intros london leeds w.
  assert (H : latitude london <> None) by discriminate.
  split; [exact H |]. split.
  - apply (proj2 (proj2 (get_coordinates_skips_geocoded
                           no_postal_code example_float true "London and Leeds"))
             [london; leeds] w 0%nat london eq_refl H).
  - apply (proj1 (proj2 (get_coordinates_skips_geocoded
                           no_postal_code example_float true "London and Leeds"))).
    repeat constructor. exact H.
Defined.

(** ** The geocoding keys *)

Section GeocodingKeys.

Variable parse_float : string -> option float.
Variable geopy_installed : bool.

Lemma contextual_geopy_try_keys search_term e w e' w' :
  contextual_geopy_try search_term e w = (Ok true, e', w') ->
  recorded "geopy_contextual" e'.
Proof.
  unfold contextual_geopy_try, record_geopy_contextual. unfold_monad. cbn.
  destruct (next_geopy w) as [[location |] | x]; cbn; intros H;
    inversion H; subst; clear H.
  repeat split; cbn; discriminate.
Qed.

Lemma contextual_geopy_loop_keys terms : forall e w e' w',
  contextual_geopy_loop terms e w = (Ok true, e', w') ->
  recorded "geopy_contextual" e'.
Proof.
  induction terms as [| search_term rest IH]; intros e w e' w'; cbn.
  - unfold ret. discriminate.
  - unfold bind, try_except.
    destruct (contextual_geopy_try search_term e w) as [[[[] | x] e1] w1] eqn:Htry.
    + unfold ret. intros H. inversion H; subst.
      eapply contextual_geopy_try_keys; eassumption.
    + apply IH.
    + destruct (is_geocoder_error x); [apply IH | discriminate].
Qed.

Lemma osm_try_keys search_term source delay e w e' w' :
  osm_try parse_float search_term source delay e w = (Ok true, e', w') ->
  recorded source e'.
Proof.
  unfold osm_try, record_osm. unfold_monad. cbn.
  destruct (next_http w) as [response | x]; cbn; [| discriminate].
  split_cases; intros H; inversion H; subst; clear H.
  repeat split; cbn; discriminate.
Qed.

Lemma osm_loop_keys source delay
      (loop : list string -> M bool) :
  (forall search_term rest e w,
      loop (search_term :: rest) e w
      = bind (try_except (osm_try parse_float search_term source delay)
                         any_exception (ret false))
             (fun returned : bool => if returned then ret true else loop rest)
             e w) ->
  (forall e w, loop [] e w = (Ok false, e, w)) ->
  forall terms e w e' w',
    loop terms e w = (Ok true, e', w') -> recorded source e'.
Proof.
  intros Hcons Hnil.
  induction terms as [| search_term rest IH]; intros e w e' w'.
  - rewrite Hnil. discriminate.
  - rewrite Hcons. unfold bind, try_except.
    destruct (osm_try parse_float search_term source delay e w)
      as [[[[] | x] e1] w1] eqn:Htry; cbn.
    + unfold ret. intros H. inversion H; subst.
      eapply osm_try_keys; eassumption.
    + apply IH.
    + apply IH.
Qed.

Lemma contextual_osm_loop_keys terms e w e' w' :
  contextual_osm_loop parse_float terms e w = (Ok true, e', w') ->
  recorded "openstreetmap_contextual" e'.
Proof.
  apply (osm_loop_keys "openstreetmap_contextual" 300
                       (contextual_osm_loop parse_float));
    reflexivity.
Qed.

Lemma aggressive_loop_keys terms e w e' w' :
  aggressive_loop parse_float terms e w = (Ok true, e', w') ->
  recorded "openstreetmap_aggressive" e'.
Proof.
  apply (osm_loop_keys "openstreetmap_aggressive" 200
                       (aggressive_loop parse_float));
    reflexivity.
Qed.

Lemma try_contextual_geocoding_keys context_clues e w e' w' :
  _try_contextual_geocoding parse_float geopy_installed context_clues e w
  = (Ok true, e', w') ->
  recorded "geopy_contextual" e' \/ recorded "openstreetmap_contextual" e'.
Proof.
  unfold _try_contextual_geocoding.
  destruct context_clues as [| context rest]; [discriminate |].
  unfold bind at 1, get_entity. cbv beta iota zeta.
  generalize (contextual_variations (text e) (context :: rest)).
  intros search_variations.
  generalize (firstn 5 search_variations), (firstn 3 search_variations).
  intros terms5 terms3.
  unfold bind at 1. unfold try_except.
  unfold bind at 1, import_geopy.
  destruct geopy_installed; cbn.
  - destruct (contextual_geopy_loop terms5 e w)
      as [[[[] | x] e1] w1] eqn:Hloop.
    + unfold ret. intros H. inversion H; subst.
      left. exact (contextual_geopy_loop_keys _ _ _ _ _ Hloop).
    + intros H. right. exact (contextual_osm_loop_keys _ _ _ _ _ H).
    + destruct (is_import_error x); [| discriminate].
      intros H. right. exact (contextual_osm_loop_keys _ _ _ _ _ H).
  - intros H. right. exact (contextual_osm_loop_keys _ _ _ _ _ H).
Qed.

Lemma try_aggressive_geocoding_keys e w e' w' :
  _try_aggressive_geocoding parse_float e w = (Ok true, e', w') ->
  recorded "openstreetmap_aggressive" e'.
Proof.
  unfold _try_aggressive_geocoding. unfold bind, get_entity.
  apply aggressive_loop_keys.
Qed.

(** The library fallback records the source and no search term. *)
Lemma python_geocoders_loop_keys geocoders : forall e w e' w',
  python_geocoders_loop geocoders e w = (Ok true, e', w') ->
  has_coordinates e'
  /\ (exists name, In name geocoders
                   /\ geocoding_source e' = Some ("geopy_" ++ name)%string)
  /\ search_term_used e' = search_term_used e.
Proof.
  induction geocoders as [| name rest IH]; intros e w e' w'; cbn.
  - unfold ret. discriminate.
  - unfold_monad. cbn.
    destruct (next_geopy w) as [[location |] | x]; cbn.
    + intros H. inversion H; subst; clear H.
      split; [repeat split; cbn; discriminate |].
      split; [exists name; split; [now left | reflexivity] | reflexivity].
    + intros H. apply IH in H. destruct H as (Hc & (n & Hn & Hs) & Ht).
      split; [exact Hc |]. split; [exists n; split; [now right | exact Hs] | exact Ht].
    + intros H. apply IH in H. destruct H as (Hc & (n & Hn & Hs) & Ht).
      split; [exact Hc |]. split; [exists n; split; [now right | exact Hs] | exact Ht].
Qed.

Lemma try_python_geocoding_keys e w e' w' :
  _try_python_geocoding geopy_installed e w = (Ok true, e', w') ->
  has_coordinates e'
  /\ (geocoding_source e' = Some "geopy_nominatim"
      \/ geocoding_source e' = Some "geopy_arcgis")
  /\ search_term_used e' = search_term_used e.
Proof.
  unfold _try_python_geocoding, try_except. unfold bind at 1, import_geopy.
  remember (python_geocoders_loop ["nominatim"; "arcgis"]) as loop eqn:Hl.
  destruct geopy_installed; cbn; [| discriminate].
  destruct (loop e w) as [[[[] | x] e1] w1] eqn:Hloop; try discriminate.
  intros H. inversion H; subst; clear H.
  apply python_geocoders_loop_keys in Hloop.
  destruct Hloop as (Hc & (n & Hn & Hs) & Ht).
  split; [exact Hc |]. split; [| exact Ht].
  destruct Hn as [<- | [<- | []]]; [left | right]; exact Hs.
Qed.

(** [link_to_openstreetmap] on an address: when the block runs to its
    end, either nothing was found and the entity is as before, or the
    three coordinate keys are set, and neither the source nor the search
    term is written. *)
Lemma openstreetmap_link_try_keys e w e' w' :
  openstreetmap_link_try parse_float e w = (Ok tt, e', w') ->
  e' = e
  \/ (has_coordinates e'
      /\ geocoding_source e' = geocoding_source e
      /\ search_term_used e' = search_term_used e).
Proof.
  unfold openstreetmap_link_try. unfold_monad. cbn.
  destruct (next_http w) as [response | x]; cbn; [| discriminate].
  split_cases; intros H; inversion H; subst; clear H;
    solve [ now left | right; repeat split; cbn; discriminate ].
Qed.

(** When the search endpoint answered with a result and the block ran to
    its end, the map link and the three coordinate keys are set. *)
Lemma openstreetmap_link_try_hit e w e' w' response result rest :
  openstreetmap_link_try parse_float e w = (Ok tt, e', w') ->
  next_http w = Ok response ->
  status_code response = 200%Z ->
  response_json response = Some (NominatimJson (result :: rest)) ->
  has_coordinates e'
  /\ openstreetmap_url e' <> None
  /\ geocoding_source e' = geocoding_source e
  /\ search_term_used e' = search_term_used e.
Proof.
  unfold openstreetmap_link_try. unfold_monad. cbn.
  intros H Hnext Hstatus Hjson. revert H. rewrite Hnext. cbn.
  rewrite Hstatus, Hjson. cbn.
  split_cases; intros H; inversion H; subst; clear H;
    repeat split; cbn; discriminate.
Qed.

End GeocodingKeys.

(** C2, as the code has it. A strategy of [get_coordinates] that reports
    success has set latitude, longitude, location name and source; the
    contextual and the aggressive strategy have set the search term as
    well, the library fallback leaves it as it was. [link_to_openstreetmap],
    when its block runs to the end, has either found nothing or set
    latitude, longitude and location name, and writes neither the source
    nor the search term; it has set them, and the map link, whenever the
    search answered with a result. *)
Theorem geocoding_keys_on_success
        (parse_float : string -> option float) (geopy_installed : bool) :
  (forall context_clues e w e' w',
      _try_contextual_geocoding parse_float geopy_installed context_clues e w
      = (Ok true, e', w') ->
      has_coordinates e'
      /\ (geocoding_source e' = Some "geopy_contextual"
          \/ geocoding_source e' = Some "openstreetmap_contextual")
      /\ search_term_used e' <> None)
  /\ (forall e w e' w',
         _try_python_geocoding geopy_installed e w = (Ok true, e', w') ->
         has_coordinates e'
         /\ (geocoding_source e' = Some "geopy_nominatim"
             \/ geocoding_source e' = Some "geopy_arcgis")
         /\ search_term_used e' = search_term_used e)
  /\ (forall e w e' w',
         _try_aggressive_geocoding parse_float e w = (Ok true, e', w') ->
         has_coordinates e'
         /\ geocoding_source e' = Some "openstreetmap_aggressive"
         /\ search_term_used e' <> None)
  /\ (forall e w e' w',
         openstreetmap_link_try parse_float e w = (Ok tt, e', w') ->
         e' = e
         \/ (has_coordinates e'
             /\ geocoding_source e' = geocoding_source e
             /\ search_term_used e' = search_term_used e))
  /\ (forall e w e' w' response result rest,
         openstreetmap_link_try parse_float e w = (Ok tt, e', w') ->
         next_http w = Ok response ->
         status_code response = 200%Z ->
         response_json response = Some (NominatimJson (result :: rest)) ->
         has_coordinates e'
         /\ openstreetmap_url e' <> None
         /\ geocoding_source e' = geocoding_source e
         /\ search_term_used e' = search_term_used e).
Proof.
  split; [| split; [| split; [| split]]].
  - intros context_clues e w e' w' H.
    apply try_contextual_geocoding_keys in H.
    destruct H as [(Hc & Hs & Ht) | (Hc & Hs & Ht)]; auto.
  - intros e w e' w' H. now apply try_python_geocoding_keys in H.
  - intros e w e' w' H. now apply try_aggressive_geocoding_keys in H.
  - intros e w e' w' H. now apply openstreetmap_link_try_keys in H.
  - intros e w e' w' response result rest H Hnext Hstatus Hjson.
    exact (openstreetmap_link_try_hit parse_float e w e' w' response result rest
             H Hnext Hstatus Hjson).
Qed.

(** The contextual strategy finds "Leeds, UK" at the second geocoder
    call, after a call without result and its delay. *)
Lemma geocoding_keys_on_success_witness :
  let leeds := new_entity "Leeds" "LOCATION" 11 16 (Some "LOC") in
  let found := mkLocation (538 # 10) (- 155 # 100) "Leeds, West Yorkshire" in
  let w := mkWorld [] [Ok None; Ok (Some found)] [] in
  let e' := set_search_term_used "Leeds, UK"
              (set_geocoding_source "geopy_contextual"
                 (set_location_name "Leeds, West Yorkshire"
                    (set_longitude (- 155 # 100) (set_latitude (538 # 10) leeds)))) in
  let w' := mkWorld [] []
              [ Geocode "nominatim" "Leeds" (Ok None); Sleep 200;
                Geocode "nominatim" "Leeds, UK" (Ok (Some found)) ] in
  _try_contextual_geocoding example_float true ["uk"] leeds w = (Ok true, e', w')
  /\ has_coordinates e'
  /\ search_term_used e' <> None.
Proof.
  intros leeds found w e' w'.
  assert (H : _try_contextual_geocoding example_float true ["uk"] leeds w
              = (Ok true, e', w')) by (vm_compute; reflexivity).
  split; [exact H |].
  destruct (proj1 (geocoding_keys_on_success example_float true)
              ["uk"] leeds w e' w' H) as (Hc & _ & Ht).
  split; [exact Hc | exact Ht].
Defined.

(** C2, as stated, fails. Without context clues [get_coordinates] falls
    back on the geocoding library, which finds Springfield: the entity has
    its coordinates and its source, and no search term. An address that
    [link_to_openstreetmap] finds has its coordinates, and neither source
    nor search term. *)
Lemma geocoding_keys_partial :
  let springfield := new_entity "Springfield" "LOCATION" 11 22 (Some "LOC") in
  let found := mkLocation (398 # 10) (- 896 # 10) "Springfield, Illinois" in
  let address := new_entity "10 Downing Street" "ADDRESS" 0 17 None in
  let answer :=
    mkHttp 200 ""
      (Some (NominatimJson [mkOsm (Some "51.5074") (Some "-0.1278")
                                  (Some "10 Downing Street, London")])) in
  (let '(_, entities, _) :=
     get_coordinates no_postal_code example_float true "A visit to Springfield."
                     [springfield] (mkWorld [] [Ok (Some found)] []) in
   map latitude entities = [Some (398 # 10)]
   /\ map longitude entities = [Some (- 896 # 10)]
   /\ map geocoding_source entities = [Some "geopy_nominatim"]
   /\ map search_term_used entities = [None])
  /\ (let '(entities, _) :=
        link_to_openstreetmap example_float [address] (mkWorld [Ok answer] [] []) in
      map latitude entities = [Some (515074 # 10000)]
      /\ map longitude entities = [Some (- 1278 # 10000)]
      /\ map location_name entities = [Some "10 Downing Street, London"]
      /\ map geocoding_source entities = [None]
      /\ map search_term_used entities = [None]).
Proof. vm_compute. repeat split; reflexivity. Qed.

(** An answer of the search endpoint with a latitude and no longitude:
    the latitude is written, the missing key raises inside the [try], the
    handler goes on to the next term, and when no term is left the entity
    is left with a latitude alone. *)
Example aggressive_geocoding_malformed_answer :
  let leeds := new_entity "Leeds" "LOCATION" 11 16 (Some "LOC") in
  let answer :=
    mkHttp 200 "" (Some (NominatimJson [mkOsm (Some "51.5074") None (Some "Leeds")])) in
  let '(returned, e', _) :=
    _try_aggressive_geocoding example_float leeds (mkWorld [Ok answer] [] []) in
  returned = Ok false
  /\ latitude e' = Some (515074 # 10000)
  /\ longitude e' = None
  /\ geocoding_source e' = None.
Proof. vm_compute. repeat split; reflexivity. Qed.

(** A run of [get_coordinates] through its fallbacks. There is no context
    clue, so the contextual strategy returns at once; the two geocoders of
    the library find nothing, and no delay is made between them, [time]
    being unbound there; [_try_openstreetmap] makes no call; the aggressive
    strategy finds the place at its second term. *)
Example get_coordinates_run :
  let ely := new_entity "Ely" "LOCATION" 9 12 (Some "LOC") in
  let answer :=
    mkHttp 200 ""
      (Some (NominatimJson [mkOsm (Some "51.5074") (Some "-0.1278") (Some "Ely, UK")])) in
  let empty := mkHttp 200 "" (Some (NominatimJson [])) in
  let '(r, entities, w) :=
    get_coordinates no_postal_code example_float true "A day in Ely."
                    [ely] (mkWorld [Ok empty; Ok answer] [Ok None; Ok None] []) in
  r = Ok tt
  /\ map geocoding_source entities = [Some "openstreetmap_aggressive"]
  /\ map search_term_used entities = [Some "Ely, UK"]
  /\ trace w
     = [ Geocode "nominatim" "Ely" (Ok None);
         Geocode "arcgis" "Ely" (Ok None);
         Get "https://nominatim.openstreetmap.org/search" "Ely" (Ok empty);
         Sleep 200;
         Get "https://nominatim.openstreetmap.org/search" "Ely, UK" (Ok answer) ].
Proof. vm_compute. repeat split; reflexivity. Qed.

(** ** Python strings, on examples *)

Example split_run :
  PyStr.split "  Barack   Obama " = ["Barack"; "Obama"].
Proof. reflexivity. Qed.

Example strip_run : PyStr.strip "   Rome  " = "Rome".
Proof. reflexivity. Qed.

Example lower_run : PyStr.lower "New York, NY 10001" = "new york, ny 10001".
Proof. reflexivity. Qed.

Example contains_run :
  PyStr.contains "york" "new york" = true /\ PyStr.contains "York" "new york" = false.
Proof. split; reflexivity. Qed.

(** The sort keeps entities with equal starts in their order. *)
Example sort_by_start_stable :
  map text
      (sort_by_start
         [ new_entity "c" "MISC" 5 6 None; new_entity "a" "MISC" 0 1 None;
           new_entity "b" "MISC" 0 2 None; new_entity "d" "MISC" 5 9 None ])
  = ["a"; "b"; "c"; "d"].
Proof. reflexivity. Qed.

(** A capitalised name passes the validator, a lower-case one does not. *)
Example is_valid_entity_run :
  _is_valid_entity "Barack Obama" "PERSON" (mkSpan "Barack Obama" "PER" 0 12) = true
  /\ _is_valid_entity "barack obama" "PERSON" (mkSpan "barack obama" "PER" 0 12) = false
  /\ _is_valid_entity "x" "LOCATION" (mkSpan "x" "LOC" 0 1) = false.
Proof. repeat split; reflexivity. Qed.

(** Outside the chain: an address linked by Wikidata is still linked by
    [link_to_openstreetmap], which looks at the type only, and then
    carries the links of two sources. *)
Example link_to_openstreetmap_after_chain :
  let address := new_entity "10 Downing Street" "ADDRESS" 0 17 None in
  let wikidata := mkHttp 200 "" (Some (WikidataJson [mkWd (Some "Q169101") None])) in
  let nominatim :=
    mkHttp 200 ""
      (Some (NominatimJson [mkOsm (Some "51.5074") (Some "-0.1278")
                                  (Some "10 Downing Street, London")])) in
  let '(entities, w) :=
    linking_chain (fun _ _ => []) (fun _ _ s => s) (fun s => s) [address]
                  (mkWorld [Ok wikidata; Ok nominatim] [] []) in
  let '(entities', _) := link_to_openstreetmap example_float entities w in
  map links entities = [1%nat] /\ map links entities' = [2%nat].
Proof. vm_compute. split; reflexivity. Qed.

(** * Further properties of the code *)

(** ** OverlapResolver: order, idempotence, what is kept *)

Lemma by_start_sorted_app l1 l2 :
  StronglySorted by_start (l1 ++ l2) <->
  StronglySorted by_start l1 /\ StronglySorted by_start l2
  /\ (forall a b, In a l1 -> In b l2 -> by_start a b).
Proof.
  induction l1 as [| x l1 IH]; simpl.
  - split; [intros H; repeat split; [constructor | exact H | tauto] | tauto].
  - split.
    + intros H. inversion H as [| ? ? Hs Hx]; subst.
      apply IH in Hs. destruct Hs as (H1 & H2 & H12).
      rewrite Forall_app in Hx. destruct Hx as [Hx1 Hx2].
      repeat split; [now constructor | exact H2 |].
      intros a b [<- | Ha] Hb; [| now apply H12].
      rewrite Forall_forall in Hx2. now apply Hx2.
    + intros (H1 & H2 & H12). inversion H1 as [| ? ? Hs Hx]; subst.
      constructor.
      * apply IH. repeat split; [exact Hs | exact H2 |].
        intros a b Ha Hb. apply H12; [now right | exact Hb].
      * rewrite Forall_app. split; [exact Hx |].
        apply Forall_forall. intros b Hb. apply H12; [now left | exact Hb].
Qed.

Lemma resolve_step_sorted filtered e :
  StronglySorted by_start filtered ->
  Forall (fun x => by_start x e) filtered ->
  StronglySorted by_start (resolve_step filtered e).
Proof.
  intros Hsorted Hbelow.
  assert (Hlast : forall l, StronglySorted by_start l ->
                    (forall x, In x l -> by_start x e) ->
                    StronglySorted by_start (l ++ [e])).
  { intros l Hl Hx. apply by_start_sorted_app.
    repeat split; [exact Hl | repeat constructor |].
    intros a b Ha [<- | []]. now apply Hx. }
  rewrite Forall_forall in Hbelow. unfold resolve_step.
  destruct (scan_existing_cases e filtered filtered)
    as [[_ ->] | (pre & y & post & Heq & Hpre & Hy & [[_ ->] | [_ ->]])].
  - now apply Hlast.
  - rewrite Heq at 1.
    rewrite list_remove_first by (eapply clear_of_not_In; eassumption).
    subst filtered. apply by_start_sorted_app in Hsorted.
    destruct Hsorted as (H1 & H2 & H12). inversion H2 as [| ? ? Hpost Hypost]; subst.
    apply Hlast.
    + apply by_start_sorted_app. repeat split; [exact H1 | exact Hpost |].
      intros a b Ha Hb. apply H12; [exact Ha | now right].
    + intros x Hx. apply Hbelow. rewrite in_app_iff in *. simpl. tauto.
  - exact Hsorted.
Qed.

Lemma fold_resolve_sorted l : forall filtered,
  StronglySorted by_start l ->
  StronglySorted by_start filtered ->
  Forall (fun x => Forall (by_start x) l) filtered ->
  StronglySorted by_start (fold_left resolve_step l filtered).
Proof.
  induction l as [| e l IH]; simpl; intros filtered Hl Hf Hbelow; [exact Hf |].
  inversion Hl as [| ? ? Hl' He]; subst.
  apply IH; [exact Hl' | |].
  - apply resolve_step_sorted; [exact Hf |].
    eapply Forall_impl; [| exact Hbelow]. intros x Hx. now inversion Hx.
  - apply Forall_forall. intros x Hx.
    apply resolve_step_In in Hx. destruct Hx as [Hx | ->]; [| exact He].
    rewrite Forall_forall in Hbelow. specialize (Hbelow x Hx). now inversion Hbelow.
Qed.

Lemma resolve_step_length filtered e :
  (List.length (resolve_step filtered e) <= S (List.length filtered))%nat.
Proof.
  unfold resolve_step.
  destruct (scan_existing_cases e filtered filtered)
    as [[_ ->] | (pre & y & post & Heq & Hpre & Hy & [[_ ->] | [_ ->]])].
  - rewrite length_app. simpl. lia.
  - rewrite Heq at 1.
    rewrite list_remove_first by (eapply clear_of_not_In; eassumption).
    subst filtered. rewrite !length_app. simpl. lia.
  - lia.
Qed.

Lemma fold_resolve_length l : forall filtered,
  (List.length (fold_left resolve_step l filtered)
   <= List.length filtered + List.length l)%nat.
Proof.
  induction l as [| e l IH]; simpl; intros filtered; [lia |].
  specialize (IH (resolve_step filtered e)).
  pose proof (resolve_step_length filtered e). lia.
Qed.

Lemma insert_by_start_length x l :
  List.length (insert_by_start x l) = S (List.length l).
Proof.
  induction l as [| y l IH]; simpl; [reflexivity |].
  destruct (start x <=? start y)%Z; simpl; [reflexivity | now rewrite IH].
Qed.

Lemma sort_by_start_length l : List.length (sort_by_start l) = List.length l.
Proof.
  induction l as [| x l IH]; simpl; [reflexivity |].
  now rewrite insert_by_start_length, IH.
Qed.

(** X1. The resolver only selects: every entity it returns is one of the
    candidates, it returns no more entities than it was given, and it
    returns them in ascending order of their start. *)
Theorem remove_overlapping_entities_selects (entities : list Entity) :
  (forall e, In e (_remove_overlapping_entities entities) -> In e entities)
  /\ (List.length (_remove_overlapping_entities entities) <= List.length entities)%nat
  /\ StronglySorted (fun a b => (start a <= start b)%Z)
                    (_remove_overlapping_entities entities).
Proof.
  split; [intros e; apply remove_overlapping_subset |]. split.
  - unfold _remove_overlapping_entities.
    pose proof (fold_resolve_length (sort_by_start entities) []) as H.
    rewrite sort_by_start_length in H. exact H.
  - unfold _remove_overlapping_entities.
    apply (fold_resolve_sorted (sort_by_start entities) []);
      [apply sort_by_start_sorted | constructor | constructor].
Qed.

Lemma resolve_step_nonempty filtered e : resolve_step filtered e <> [].
Proof.
  unfold resolve_step.
  destruct (scan_existing_cases e filtered filtered)
    as [[_ ->] | (pre & y & post & Heq & Hpre & Hy & [[_ ->] | [_ ->]])].
  - now destruct filtered.
  - now destruct (list_remove y filtered).
  - subst filtered. now destruct pre.
Qed.

Lemma fold_resolve_nonempty l : forall filtered,
  filtered <> [] -> fold_left resolve_step l filtered <> [].
Proof.
  induction l as [| e l IH]; simpl; intros filtered H; [exact H |].
  apply IH, resolve_step_nonempty.
Qed.

(** X2. The resolver never drops everything: given at least one candidate
    it returns at least one entity. *)
Theorem remove_overlapping_entities_nonempty (entities : list Entity) :
  entities <> [] -> _remove_overlapping_entities entities <> [].
Proof.
  intros H. unfold _remove_overlapping_entities.
  destruct (sort_by_start entities) as [| e l] eqn:Hs.
  - apply (f_equal (@List.length Entity)) in Hs.
    rewrite sort_by_start_length in Hs. destruct entities; [congruence | discriminate].
  - simpl. apply fold_resolve_nonempty, resolve_step_nonempty.
Qed.

Lemma remove_overlapping_entities_nonempty_witness :
  let e := new_entity "Rome" "LOCATION" 0 4 (Some "LOC") in
  [e; e] <> [] /\ _remove_overlapping_entities [e; e] <> [].
Proof.
  intros e. assert (H : [e; e] <> []) by discriminate.
  split; [exact H | exact (remove_overlapping_entities_nonempty [e; e] H)].
Defined.

(** A candidate that overlaps nothing accepted so far is appended. *)
Lemma resolve_step_clear filtered e :
  Forall (clear_of e) filtered -> resolve_step filtered e = filtered ++ [e].
Proof.
  intros Hclear. unfold resolve_step.
  destruct (scan_existing_cases e filtered filtered)
    as [[_ ->] | (pre & y & post & Heq & Hpre & Hy & _)]; [reflexivity |].
  exfalso. subst filtered. rewrite Forall_app in Hclear.
  destruct Hclear as [_ Hclear]. inversion Hclear as [| ? ? Hc _]; subst.
  apply overlap_test_clear in Hc. tauto.
Qed.

Lemma fold_resolve_disjoint_input l : forall filtered,
  ForallOrdPairs disjoint (filtered ++ l) ->
  fold_left resolve_step l filtered = filtered ++ l.
Proof.
  induction l as [| e l IH]; simpl; intros filtered H; [now rewrite app_nil_r |].
  assert (Hclear : Forall (clear_of e) filtered).
  { apply disjoint_app in H. destruct H as (_ & _ & H).
    apply Forall_forall. intros x Hx. apply overlap_test_clear.
    intros Hov. apply (H x e Hx (or_introl eq_refl)). now apply overlaps_sym. }
  rewrite (resolve_step_clear _ _ Hclear).
  rewrite IH; rewrite <- app_assoc; [reflexivity | exact H].
Qed.

Lemma disjoint_insert x l :
  Forall (disjoint x) l ->
  ForallOrdPairs disjoint l ->
  ForallOrdPairs disjoint (insert_by_start x l).
Proof.
  intros Hx Hl. induction Hl as [| y l Hy Hl IH]; simpl.
  - repeat constructor.
  - inversion Hx as [| ? ? Hxy Hxl]; subst.
    destruct (start x <=? start y)%Z.
    + constructor; [now constructor | now constructor].
    + constructor; [| now apply IH].
      apply Forall_forall. intros z Hz.
      apply insert_by_start_In in Hz. destruct Hz as [-> | Hz].
      * intros Hov. apply Hxy. now apply overlaps_sym.
      * rewrite Forall_forall in Hy. exact (Hy z Hz).
Qed.

Lemma disjoint_sort l :
  ForallOrdPairs disjoint l -> ForallOrdPairs disjoint (sort_by_start l).
Proof.
  induction 1 as [| x l Hx Hl IH]; simpl; [constructor |].
  apply disjoint_insert; [| exact IH].
  apply Forall_forall. intros y Hy. apply (proj1 (sort_by_start_In y l)) in Hy.
  rewrite Forall_forall in Hx. exact (Hx y Hy).
Qed.

Lemma pairwise_disjoint_ordered l :
  pairwise_disjoint l -> ForallOrdPairs disjoint l.
Proof.
  induction l as [| x l IH]; intros H; [constructor |].
  constructor.
  - apply Forall_forall. intros y Hy.
    destruct (In_nth_error _ _ Hy) as [j Hj].
    apply (H 0%nat (S j) x y); [lia | reflexivity | exact Hj].
  - apply IH. intros i j a b Hij Hi Hj.
    apply (H (S i) (S j) a b); [lia | exact Hi | exact Hj].
Qed.

Lemma sort_by_start_sorted_id l :
  StronglySorted by_start l -> sort_by_start l = l.
Proof.
  induction 1 as [| x l Hl IH Hx]; simpl; [reflexivity |].
  rewrite IH. destruct l as [| y l]; [reflexivity |].
  simpl. inversion Hx as [| ? ? Hxy _]; subst.
  unfold by_start in Hxy. apply Z.leb_le in Hxy. now rewrite Hxy.
Qed.

(** X3. Candidates none of which overlaps another are all kept: the
    resolver returns them sorted by start, equal starts in input order. *)
Theorem remove_overlapping_entities_keeps_disjoint (entities : list Entity) :
  pairwise_disjoint entities ->
  _remove_overlapping_entities entities = sort_by_start entities.
Proof.
  intros H. unfold _remove_overlapping_entities.
  apply (fold_resolve_disjoint_input (sort_by_start entities) []).
  simpl. now apply disjoint_sort, pairwise_disjoint_ordered.
Qed.

Lemma remove_overlapping_entities_keeps_disjoint_witness :
  let paris := new_entity "Paris" "LOCATION" 20 25 (Some "LOC") in
  let rome := new_entity "Rome" "LOCATION" 0 4 (Some "LOC") in
  pairwise_disjoint [paris; rome]
  /\ _remove_overlapping_entities [paris; rome] = [rome; paris].
Proof.
  intros paris rome.
  assert (H : pairwise_disjoint [paris; rome]).
  { apply disjoint_nth. repeat constructor.
    unfold disjoint, overlaps, paris, rome. simpl. lia. }
  split; [exact H |].
  exact (remove_overlapping_entities_keeps_disjoint [paris; rome] H).
Defined.

(** X4. The resolver is idempotent: resolving its own output changes
    nothing. *)
Theorem remove_overlapping_entities_idempotent (entities : list Entity) :
  _remove_overlapping_entities (_remove_overlapping_entities entities)
  = _remove_overlapping_entities entities.
Proof.
  set (out := _remove_overlapping_entities entities).
  assert (Hsorted : StronglySorted by_start out).
  { apply (fold_resolve_sorted (sort_by_start entities) []);
      [apply sort_by_start_sorted | constructor | constructor]. }
  assert (Hdisjoint : ForallOrdPairs disjoint out).
  { apply (fold_resolve_disjoint (sort_by_start entities) []);
      [apply sort_by_start_sorted | constructor | constructor]. }
  unfold _remove_overlapping_entities at 1.
  rewrite (sort_by_start_sorted_id out Hsorted).
  apply (fold_resolve_disjoint_input out []). exact Hdisjoint.
Qed.

(** The resolver is greedy, not maximal: "St" is rejected against
    "St Ives Bay", which "Ives Bay Road" then evicts; "St" overlaps
    nothing that is returned and is still left out. *)
Example remove_overlapping_entities_greedy :
  let st := new_entity "St" "LOCATION" 0 2 (Some "LOC") in
  let bay := new_entity "St Ives Bay" "LOCATION" 0 11 (Some "LOC") in
  let road := new_entity "Ives Bay Road" "ADDRESS" 3 16 None in
  _remove_overlapping_entities [bay; st; road] = [road]
  /\ overlap_test st road = false.
Proof. vm_compute. split; reflexivity. Qed.

(** ** TypeMapper and extraction: what comes out *)

Lemma dict_get_In {V : Type} (d : list (string * V)) k v :
  dict_get d k = Some v -> In (k, v) d.
Proof.
  induction d as [| [k' v'] d IH]; simpl; [discriminate |].
  destruct (String.eqb_spec k' k) as [-> | _].
  - intros H. injection H as ->. now left.
  - intros H. right. now apply IH.
Qed.

Lemma dict_get_key {V : Type} (d : list (string * V)) k :
  In k (keys d) -> dict_get d k <> None.
Proof.
  induction d as [| [k' v'] d IH]; simpl; [tauto |].
  destruct (String.eqb_spec k' k) as [-> | Hne]; [discriminate |].
  intros [Heq | Hin]; [congruence | now apply IH].
Qed.

Lemma mapping_values k v : In (k, v) mapping -> In v canonical_types.
Proof.
  unfold mapping. simpl.
  intros H. repeat (destruct H as [H | H]; [injection H as _ <-; simpl; tauto |]).
  contradiction.
Qed.

(** X5. A label of the lookup table is mapped to one of PERSON,
    ORGANIZATION, LOCATION, MISC, and the mapper is idempotent: mapping a
    mapped type changes nothing. *)
Theorem map_flair_entity_type_idempotent (flair_label : string) :
  (In flair_label (keys mapping) ->
   In (_map_flair_entity_type flair_label) canonical_types)
  /\ _map_flair_entity_type (_map_flair_entity_type flair_label)
     = _map_flair_entity_type flair_label.
Proof.
  unfold _map_flair_entity_type at 1 3 4.
  destruct (dict_get mapping flair_label) as [v |] eqn:Hget.
  - apply dict_get_In, mapping_values in Hget.
    split; [intros _; exact Hget |].
    simpl in Hget.
    destruct Hget as [<- | [<- | [<- | [<- | []]]]]; reflexivity.
  - split.
    + intros Hin. exfalso. now apply (dict_get_key mapping flair_label).
    + unfold _map_flair_entity_type. now rewrite Hget.
Qed.

Lemma map_flair_entity_type_idempotent_witness :
  In "GPE" (keys mapping)
  /\ In (_map_flair_entity_type "GPE") canonical_types.
Proof.
  assert (H : In "GPE" (keys mapping)) by (apply mem_true_iff; reflexivity).
  split; [exact H | exact (proj1 (map_flair_entity_type_idempotent "GPE") H)].
Defined.

Lemma map_flair_entity_type_not_excluded tag :
  mem tag excluded_types = false ->
  mem (_map_flair_entity_type tag) excluded_types = false.
Proof.
  intros Htag. unfold _map_flair_entity_type.
  destruct (dict_get mapping tag) as [v |] eqn:Hget; [| exact Htag].
  apply dict_get_In, mapping_values in Hget. simpl in Hget.
  destruct Hget as [<- | [<- | [<- | [<- | []]]]]; reflexivity.
Qed.

(** X6. The second exclusion test of [extract_entities], on the mapped
    type, never rejects a span: a span whose raw label passed the first
    test gives an entity exactly when the validator accepts it. *)
Theorem span_entity_second_filter_idle (ent : Span) :
  span_entity ent
  = if mem (span_tag ent) excluded_types then []
    else if _is_valid_entity (span_text ent)
                             (_map_flair_entity_type (span_tag ent)) ent
         then [new_entity (span_text ent) (_map_flair_entity_type (span_tag ent))
                          (start_position ent) (end_position ent)
                          (Some (span_tag ent))]
         else [].
Proof.
  unfold span_entity.
  destruct (mem (span_tag ent) excluded_types) eqn:Htag; [reflexivity |].
  now rewrite (map_flair_entity_type_not_excluded _ Htag).
Qed.

Section ExtractionProvenance.

Variable tagger : string -> list Span.
Variable re_finditer : string -> string -> list Match.

Lemma extract_entities_fresh (txt : string) (e : Entity) :
  In e (extract_entities tagger re_finditer txt) -> fresh e.
Proof.
  intros He. unfold extract_entities in He.
  apply remove_overlapping_subset in He.
  apply in_app_iff in He. destruct He as [He | He].
  - apply in_flat_map in He. destruct He as (ent & _ & He).
    unfold span_entity in He.
    repeat match type of He with
           | In _ (if ?c then _ else _) => destruct c
           end; try contradiction.
    destruct He as [<- | []]. reflexivity.
  - unfold _extract_addresses in He.
    apply in_flat_map in He. destruct He as (pattern & _ & He).
    apply in_map_iff in He. destruct He as (m & <- & _). reflexivity.
Qed.

(** X7. Every entity returned by [extract_entities] carries the span keys
    only, and is either an address match (type ADDRESS, no label, text and
    offsets of a match of one of the two patterns) or a tagger span (text
    and offsets of the span, its label kept, its type the mapped label)
    that the validator accepts. *)
Theorem extract_entities_provenance (txt : string) (e : Entity) :
  In e (extract_entities tagger re_finditer txt) ->
  fresh e
  /\ ((exists pattern m,
          In pattern address_patterns /\ In m (re_finditer pattern txt)
          /\ e = new_entity (group m) "ADDRESS" (match_start m) (match_end m) None)
      \/ (exists ent,
             In ent (tagger txt)
             /\ e = new_entity (span_text ent) (_map_flair_entity_type (span_tag ent))
                               (start_position ent) (end_position ent)
                               (Some (span_tag ent))
             /\ _is_valid_entity (text e) (type e) ent = true)).
Proof.
  intros He. unfold extract_entities in He.
  apply remove_overlapping_subset in He.
  apply in_app_iff in He. destruct He as [He | He].
  - apply in_flat_map in He. destruct He as (ent & Hent & He).
    unfold span_entity in He.
    destruct (mem (span_tag ent) excluded_types); [contradiction |].
    destruct (mem (_map_flair_entity_type (span_tag ent)) excluded_types);
      [contradiction |].
    destruct (_is_valid_entity _ _ ent) eqn:Hvalid; [| contradiction].
    destruct He as [<- | []].
    split; [reflexivity |]. right. exists ent. repeat split; assumption.
  - unfold _extract_addresses in He.
    apply in_flat_map in He. destruct He as (pattern & Hpattern & He).
    apply in_map_iff in He. destruct He as (m & <- & Hm).
    split; [reflexivity |]. left. exists pattern, m. repeat split; assumption.
Qed.

End ExtractionProvenance.

Lemma extract_entities_provenance_witness :
  let tagger := fun _ : string => [mkSpan "London" "GPE" 15 21] in
  let e := new_entity "London" "LOCATION" 15 21 (Some "GPE") in
  In e (extract_entities tagger (fun _ _ => []) "Obama visited London.")
  /\ fresh e.
Proof.
  intros tagger e.
  assert (H : In e (extract_entities tagger (fun _ _ => []) "Obama visited London."))
    by (vm_compute; tauto).
  split; [exact H |].
  exact (proj1 (extract_entities_provenance tagger (fun _ _ => [])
                  "Obama visited London." e H)).
Defined.

Lemma fresh_unlinked e : fresh e -> unlinked e.
Proof. intros ->. repeat split. Qed.

(** X8. Extraction followed by the linking chain: whatever the tagger, the
    patterns and the searches return, every entity ends with a link of at
    most one source. *)
Theorem extract_then_link_one_source
        (tagger : string -> list Span)
        (re_finditer : string -> string -> list Match)
        (re_findall : string -> string -> list (string * string))
        (re_sub : string -> string -> string -> string)
        (quote : string -> string)
        (txt : string) (w : World) :
  Forall (fun e => (links e <= 1)%nat)
         (fst (linking_chain re_findall re_sub quote
                             (extract_entities tagger re_finditer txt) w)).
Proof.
  apply linking_chain_links. apply Forall_forall. intros e He.
  apply fresh_unlinked.
  exact (extract_entities_fresh tagger re_finditer txt e He).
Qed.

(** ** EntityValidator: short and blank texts *)

Lemma lstrip_length s : (String.length (PyStr.lstrip s) <= String.length s)%nat.
Proof.
  induction s as [| c s IH]; simpl; [lia |].
  destruct (PyStr.isspace c); simpl; lia.
Qed.

Lemma rstrip_length s : (String.length (PyStr.rstrip s) <= String.length s)%nat.
Proof.
  induction s as [| c s IH]; simpl; [lia |].
  destruct (PyStr.rstrip s); [destruct (PyStr.isspace c) |]; simpl in *; lia.
Qed.

Lemma strip_length s : (String.length (PyStr.strip s) <= String.length s)%nat.
Proof.
  unfold PyStr.strip.
  pose proof (rstrip_length (PyStr.lstrip s)). pose proof (lstrip_length s). lia.
Qed.

Lemma lstrip_blank s :
  PyStr.all_chars PyStr.isspace s = true -> PyStr.lstrip s = EmptyString.
Proof.
  induction s as [| c s IH]; simpl; [reflexivity |].
  intros H. apply andb_true_iff in H. destruct H as [-> H]. now apply IH.
Qed.

(** X9. A text of at most one character and a text made of white space
    only are rejected by the validator, whatever the entity type. *)
Theorem is_valid_entity_rejects_short
        (entity_text entity_type : string) (flair_span : Span) :
  (String.length entity_text <= 1)%nat
  \/ PyStr.all_chars PyStr.isspace entity_text = true ->
  _is_valid_entity entity_text entity_type flair_span = false.
Proof.
  intros H. unfold _is_valid_entity.
  assert (Hlen : (String.length (PyStr.strip entity_text) <= 1)%nat).
  { destruct H as [H | H].
    - pose proof (strip_length entity_text). lia.
    - unfold PyStr.strip. rewrite (lstrip_blank _ H). simpl. lia. }
  apply Nat.leb_le in Hlen. now rewrite Hlen.
Qed.

Lemma is_valid_entity_rejects_short_witness :
  PyStr.all_chars PyStr.isspace "    " = true
  /\ _is_valid_entity "    " "LOCATION" (mkSpan "    " "LOC" 0 4) = false.
Proof.
  assert (H : PyStr.all_chars PyStr.isspace "    " = true) by reflexivity.
  split; [exact H |].
  exact (is_valid_entity_rejects_short "    " "LOCATION" (mkSpan "    " "LOC" 0 4)
           (or_intror H)).
Defined.

(** ** GeoContextDetector: what the result is made of *)

Section AppendWithin.

Variables (A : Type) (step : list string -> A -> list string) (allowed_keys : list string).

Hypothesis step_within :
  forall clues a, incl clues allowed_keys -> incl (step clues a) allowed_keys.

Lemma append_only_within (l : list A) : forall clues,
  incl clues allowed_keys -> incl (fold_left step l clues) allowed_keys.
Proof.
  induction l as [| a l IH]; simpl; intros clues H; [exact H |].
  apply IH, step_within, H.
Qed.

End AppendWithin.

Lemma append_new_within l x allowed_keys :
  incl l allowed_keys -> In x allowed_keys -> incl (append_new l x) allowed_keys.
Proof.
  intros Hl Hx y Hy. apply append_new_In in Hy.
  destruct Hy as [Hy | [-> _]]; [now apply Hl | exact Hx].
Qed.

Lemma table_step_within {V : Type} (d : list (string * V))
      (test : string -> V -> bool) (allowed_keys : list string) :
  incl (keys d) allowed_keys ->
  forall clues,
    incl clues allowed_keys ->
    incl (fold_left (fun c '(k, v) => if test k v then append_new c k else c) d clues)
         allowed_keys.
Proof.
  induction d as [| [k v] d IH]; simpl; intros Hd clues Hc; [exact Hc |].
  assert (Hk : In k allowed_keys) by (apply Hd; now left).
  apply IH; [intros y Hy; apply Hd; now right |].
  destruct (test k v); [now apply append_new_within | exact Hc].
Qed.

Section GeoContextResult.

Variable re_search : string -> string -> bool.

Lemma detected_clues_within txt entities :
  incl (detected_clues re_search txt entities) (keys major_locations).
Proof.
  unfold detected_clues, postal_mentions.
  apply (table_step_within postal_patterns
           (fun _ patterns => existsb (fun pattern => re_search pattern txt) patterns)).
  { intros y Hy. apply mem_true_iff. simpl in Hy.
    destruct Hy as [<- | [<- | [<- | []]]]; reflexivity. }
  apply append_only_within.
  - intros clues e Hc. unfold entity_mentions.
    destruct (mem (type e) _); [| exact Hc].
    apply (table_step_within major_locations
             (fun _ patterns =>
                mem (PyStr.lower (text e)) patterns
                || existsb (fun p => PyStr.contains p (PyStr.lower (text e))) patterns));
      [apply incl_refl | exact Hc].
  - intros y Hy. unfold explicit_mentions in Hy.
    apply in_flat_map in Hy. destruct Hy as ([k v] & Hin & Hy).
    destruct (existsb _ v); [| contradiction]. destruct Hy as [<- | []].
    unfold keys. apply in_map_iff. now exists (k, v).
Qed.

(** X10. The detector returns canonical keys of its gazetteer only, each
    of them detected, and none twice. *)
Theorem detect_geographical_context_keys (txt : string) (entities : list Entity) :
  NoDup (_detect_geographical_context re_search txt entities)
  /\ incl (_detect_geographical_context re_search txt entities)
          (detected_clues re_search txt entities)
  /\ incl (_detect_geographical_context re_search txt entities)
          (keys major_locations).
Proof.
  set (clues := detected_clues re_search txt entities).
  assert (Hnd : NoDup clues) by apply detected_clues_NoDup.
  assert (Hall : incl (prioritize clues) clues).
  { rewrite (prioritize_spec re_search clues Hnd). intros y Hy.
    apply in_app_iff in Hy. destruct Hy as [Hy | Hy]; apply filter_In in Hy.
    - now apply mem_true_iff.
    - tauto. }
  assert (Hfirst : incl (_detect_geographical_context re_search txt entities) clues).
  { intros y Hy. apply Hall. unfold _detect_geographical_context in Hy.
    fold clues in Hy. rewrite <- (firstn_skipn 3 (prioritize clues)).
    apply in_app_iff. now left. }
  split; [| split; [exact Hfirst |]].
  - unfold _detect_geographical_context. fold clues.
    assert (Hp : NoDup (prioritize clues)).
    { rewrite (prioritize_spec re_search clues Hnd).
      apply NoDup_app.
      - apply NoDup_filter, nodupb_NoDup. reflexivity.
      - now apply NoDup_filter.
      - intros y Hy Hy'. apply filter_In in Hy, Hy'.
        destruct Hy as [Hy _], Hy' as [_ Hy'].
        apply negb_true_iff, mem_false_iff in Hy'. contradiction. }
    rewrite <- (firstn_skipn 3 (prioritize clues)) in Hp.
    now apply NoDup_app_remove_r in Hp.
  - intros y Hy. apply (detected_clues_within txt entities), Hfirst, Hy.
Qed.

Lemma entity_mentions_other_type clues e :
  context_type e = false -> entity_mentions clues e = clues.
Proof. unfold entity_mentions, context_type. now intros ->. Qed.

Lemma fold_entity_mentions_filter entities : forall clues,
  fold_left entity_mentions (filter context_type entities) clues
  = fold_left entity_mentions entities clues.
Proof.
  induction entities as [| e entities IH]; simpl; intros clues; [reflexivity |].
  destruct (context_type e) eqn:He; simpl; [apply IH |].
  now rewrite (entity_mentions_other_type clues e He).
Qed.

(** X11. Only the entities of type LOCATION, GPE or FACILITY are read by
    the detector: ORGANIZATION and ADDRESS entities, which
    [get_coordinates] geocodes too, and all others never add context. *)
Theorem detect_geographical_context_reads_places
        (txt : string) (entities : list Entity) :
  _detect_geographical_context re_search txt (filter context_type entities)
  = _detect_geographical_context re_search txt entities.
Proof.
  unfold _detect_geographical_context, detected_clues.
  now rewrite fold_entity_mentions_filter.
Qed.

End GeoContextResult.

(** ** The keys each stage writes *)

Section Keeps.

Variables (B : Type) (f : Entity -> B).

Lemma keeps_ret {A} (a : A) : keeps f (ret a).
Proof. intros e w. reflexivity. Qed.

Lemma keeps_raise {A} (x : Exc) : keeps f (raise (A := A) x).
Proof. intros e w. reflexivity. Qed.

Lemma keeps_bind {A C} (c : M A) (k : A -> M C) :
  keeps f c -> (forall a, keeps f (k a)) -> keeps f (bind c k).
Proof.
  intros Hc Hk e w. unfold bind. specialize (Hc e w).
  destruct (c e w) as [[[a | x] e'] w']; simpl in *; [| exact Hc].
  rewrite <- Hc. apply Hk.
Qed.

Lemma keeps_try_except {A} (c : M A) catches (handler : M A) :
  keeps f c -> keeps f handler -> keeps f (try_except c catches handler).
Proof.
  intros Hc Hh e w. unfold try_except. specialize (Hc e w).
  destruct (c e w) as [[[a | x] e'] w']; simpl in *; [exact Hc |].
  destruct (catches x); simpl; [| exact Hc].
  rewrite <- Hc. apply Hh.
Qed.

Lemma keeps_assign (g : Entity -> Entity) :
  (forall e, f (g e) = f e) -> keeps f (assign g).
Proof. intros Hg e w. apply Hg. Qed.

Lemma keeps_get_entity : keeps f get_entity.
Proof. intros e w. reflexivity. Qed.

Lemma keeps_requests_get url term : keeps f (requests_get url term).
Proof. intros e w. reflexivity. Qed.

Lemma keeps_geocode geocoder term : keeps f (geocode geocoder term).
Proof. intros e w. reflexivity. Qed.

Lemma keeps_time_sleep ms : keeps f (time_sleep ms).
Proof. intros e w. reflexivity. Qed.

Lemma keeps_getitem {A} (o : option A) : keeps f (getitem o).
Proof. destruct o; [apply keeps_ret | apply keeps_raise]. Qed.

Lemma keeps_json response : keeps f (json response).
Proof. apply keeps_getitem. Qed.

(** A loop whose body keeps [f] keeps [f] of every entity, at its place,
    also when it is left by an exception. *)
Lemma for_each_keeps (body : M unit) :
  keeps f body ->
  forall entities w,
    map f (snd (fst (for_each body entities w))) = map f entities.
Proof.
  intros Hbody. induction entities as [| e rest IH]; intros w; [reflexivity |].
  cbn. specialize (Hbody e w).
  destruct (body e w) as [[[[] | x] e'] w']; simpl in Hbody.
  - specialize (IH w'). destruct (for_each body rest w') as [[r rest'] w''].
    simpl in *. now rewrite Hbody, IH.
  - simpl. now rewrite Hbody.
Qed.

End Keeps.

(** The structure of a computation decides what it keeps: only the
    assignments have to be looked at. *)
Create HintDb keeps.
#[local] Hint Resolve keeps_ret keeps_raise keeps_get_entity keeps_requests_get
  keeps_geocode keeps_time_sleep keeps_getitem keeps_json keeps_bind
  keeps_try_except : keeps.
#[local] Hint Extern 1 (keeps _ (assign _)) =>
  apply keeps_assign; intros ?; reflexivity : keeps.
#[local] Hint Extern 2 (keeps _ (if ?c then _ else _)) => destruct c : keeps.
#[local] Hint Extern 2 (keeps _ (match ?x with _ => _ end)) => destruct x : keeps.

Section StageKeys.

Variable re_findall : string -> string -> list (string * string).
Variable re_sub : string -> string -> string -> string.
Variable quote : string -> string.
Variable parse_float : string -> option float.
Variable geopy_installed : bool.

Lemma wikidata_entity_keeps : keeps outside_chain wikidata_entity.
Proof. unfold wikidata_entity, wikidata_try. auto 30 with keeps. Qed.

Lemma wikipedia_entity_keeps : keeps outside_chain (wikipedia_entity re_sub quote).
Proof. unfold wikipedia_entity, wikipedia_try. auto 30 with keeps. Qed.

Lemma britannica_matches_keeps matches :
  keeps outside_chain (britannica_matches matches).
Proof.
  induction matches as [| [url_path link_text] rest IH]; simpl; auto 10 with keeps.
Qed.

Lemma britannica_entity_keeps :
  keeps outside_chain (britannica_entity re_findall).
Proof.
  unfold britannica_entity, britannica_try.
  auto 30 using britannica_matches_keeps with keeps.
Qed.

Lemma openstreetmap_link_entity_keeps :
  keeps outside_map_link (openstreetmap_link_entity parse_float).
Proof.
  unfold openstreetmap_link_entity, openstreetmap_link_try. auto 40 with keeps.
Qed.

Lemma contextual_geopy_loop_keeps terms :
  keeps outside_geocoding (contextual_geopy_loop terms).
Proof.
  induction terms as [| search_term rest IH]; simpl;
    unfold contextual_geopy_try, record_geopy_contextual; auto 30 with keeps.
Qed.

Lemma osm_try_keeps search_term source delay :
  keeps outside_geocoding (osm_try parse_float search_term source delay).
Proof. unfold osm_try, record_osm. auto 40 with keeps. Qed.

Lemma contextual_osm_loop_keeps terms :
  keeps outside_geocoding (contextual_osm_loop parse_float terms).
Proof.
  induction terms as [| search_term rest IH]; simpl;
    auto 10 using osm_try_keeps with keeps.
Qed.

Lemma aggressive_loop_keeps terms :
  keeps outside_geocoding (aggressive_loop parse_float terms).
Proof.
  induction terms as [| search_term rest IH]; simpl;
    auto 10 using osm_try_keeps with keeps.
Qed.

Lemma python_geocoders_loop_keeps geocoders :
  keeps outside_geocoding (python_geocoders_loop geocoders).
Proof.
  induction geocoders as [| name rest IH]; simpl; auto 30 with keeps.
Qed.

Lemma coordinates_entity_keeps context_clues :
  keeps outside_geocoding
        (coordinates_entity parse_float geopy_installed context_clues).
Proof.
  unfold coordinates_entity, _try_contextual_geocoding, _try_python_geocoding,
    _try_openstreetmap, _try_aggressive_geocoding, import_geopy.
  auto 40 using contextual_geopy_loop_keeps, contextual_osm_loop_keeps,
    aggressive_loop_keeps, python_geocoders_loop_keeps with keeps.
Qed.

End StageKeys.

Section StageKeysTheorems.

Variable re_search : string -> string -> bool.
Variable re_findall : string -> string -> list (string * string).
Variable re_sub : string -> string -> string -> string.
Variable quote : string -> string.
Variable parse_float : string -> option float.
Variable geopy_installed : bool.
Variable processed_text : string.

Lemma link_to_wikidata_keeps {B} (f : Entity -> B) entities w :
  keeps f wikidata_entity ->
  map f (fst (link_to_wikidata entities w)) = map f entities.
Proof.
  intros H. unfold link_to_wikidata.
  pose proof (for_each_keeps B f wikidata_entity H entities w) as Hmap.
  destruct (for_each wikidata_entity entities w) as [[r es] w']. exact Hmap.
Qed.

Lemma link_to_wikipedia_keeps {B} (f : Entity -> B) entities w :
  keeps f (wikipedia_entity re_sub quote) ->
  map f (fst (link_to_wikipedia re_sub quote entities w)) = map f entities.
Proof.
  intros H. unfold link_to_wikipedia.
  pose proof (for_each_keeps B f _ H entities w) as Hmap.
  destruct (for_each _ entities w) as [[r es] w']. exact Hmap.
Qed.

Lemma link_to_britannica_keeps {B} (f : Entity -> B) entities w :
  keeps f (britannica_entity re_findall) ->
  map f (fst (link_to_britannica re_findall entities w)) = map f entities.
Proof.
  intros H. unfold link_to_britannica.
  pose proof (for_each_keeps B f _ H entities w) as Hmap.
  destruct (for_each _ entities w) as [[r es] w']. exact Hmap.
Qed.

Lemma linking_chain_keeps entities w :
  map outside_chain (fst (linking_chain re_findall re_sub quote entities w))
  = map outside_chain entities.
Proof.
  unfold linking_chain.
  pose proof (link_to_wikidata_keeps outside_chain entities w wikidata_entity_keeps)
    as H1.
  destruct (link_to_wikidata entities w) as [es1 w1].
  pose proof (link_to_wikipedia_keeps outside_chain es1 w1
                (wikipedia_entity_keeps re_sub quote)) as H2.
  destruct (link_to_wikipedia re_sub quote es1 w1) as [es2 w2].
  rewrite (link_to_britannica_keeps outside_chain es2 w2
             (britannica_entity_keeps re_findall)).
  simpl in *. congruence.
Qed.

Lemma get_coordinates_keeps entities w :
  map outside_geocoding
      (snd (fst (get_coordinates re_search parse_float geopy_installed
                                 processed_text entities w)))
  = map outside_geocoding entities.
Proof.
  unfold get_coordinates. apply for_each_keeps, coordinates_entity_keeps.
Qed.

Lemma link_to_openstreetmap_keeps entities w :
  map outside_map_link (fst (link_to_openstreetmap parse_float entities w))
  = map outside_map_link entities.
Proof.
  unfold link_to_openstreetmap.
  pose proof (for_each_keeps _ outside_map_link _
                (openstreetmap_link_entity_keeps parse_float) entities w) as Hmap.
  destruct (for_each _ entities w) as [[r es] w']. exact Hmap.
Qed.

(** X12. The linking chain writes the Wikidata, Wikipedia and Britannica
    keys and nothing else: it returns as many entities as it was given, in
    the same order, each with its text, type, offsets and label, its map
    keys and its geocoding keys as they were. *)
Theorem linking_chain_writes_chain_keys (entities : list Entity) (w : World) :
  map outside_chain (fst (linking_chain re_findall re_sub quote entities w))
  = map outside_chain entities.
Proof. apply linking_chain_keeps. Qed.

(** X13. [get_coordinates] writes the geocoding keys and nothing else,
    also when it is left by an exception: the entities come back in the
    same number and order, each with its text, type, offsets and label and
    all its link keys as they were. *)
Theorem get_coordinates_writes_geocoding_keys (entities : list Entity) (w : World) :
  map outside_geocoding
      (snd (fst (get_coordinates re_search parse_float geopy_installed
                                 processed_text entities w)))
  = map outside_geocoding entities.
Proof. apply get_coordinates_keeps. Qed.

(** X14. [link_to_openstreetmap] writes the two map keys and the three
    coordinates: text, type, offsets and label, the keys of the linking
    chain, and the geocoding source and search term are as they were. *)
Theorem link_to_openstreetmap_writes_map_keys (entities : list Entity) (w : World) :
  map outside_map_link (fst (link_to_openstreetmap parse_float entities w))
  = map outside_map_link entities.
Proof. apply link_to_openstreetmap_keeps. Qed.

End StageKeysTheorems.

(** Whether two entities overlap is a matter of their offsets. *)
Lemma pairwise_disjoint_offsets l1 l2 :
  map offsets l1 = map offsets l2 -> pairwise_disjoint l1 -> pairwise_disjoint l2.
Proof.
  intros Hmap H i j a b Hij Hi Hj.
  assert (Hnth : forall k c, nth_error l2 k = Some c ->
                   exists c', nth_error l1 k = Some c' /\ offsets c' = offsets c).
  { intros k c Hk. apply (map_nth_error offsets) in Hk.
    rewrite <- Hmap in Hk. rewrite nth_error_map in Hk.
    destruct (nth_error l1 k) as [c' |]; [| discriminate].
    exists c'. split; [reflexivity |]. simpl in Hk. congruence. }
  destruct (Hnth i a Hi) as (a' & Hi' & Ha), (Hnth j b Hj) as (b' & Hj' & Hb).
  intros [H1 H2]. apply (H i j a' b' Hij Hi' Hj').
  unfold offsets in Ha, Hb. injection Ha as Ha1 Ha2. injection Hb as Hb1 Hb2.
  unfold overlaps. lia.
Qed.

Lemma map_offsets {B} (f : Entity -> B) (g : B -> Z * Z) l1 l2 :
  (forall e, g (f e) = offsets e) ->
  map f l1 = map f l2 -> map offsets l1 = map offsets l2.
Proof.
  intros Hg Hmap.
  transitivity (map g (map f l1)).
  - rewrite map_map. apply map_ext. intros e. symmetry. apply Hg.
  - rewrite Hmap, map_map. apply map_ext, Hg.
Qed.

(** X15. The overlap invariant survives the enrichment: the entities that
    extraction returns are still pairwise non-overlapping after the linking
    chain, and [get_coordinates] and [link_to_openstreetmap] return
    pairwise non-overlapping entities when given such. *)
Theorem enrichment_keeps_disjoint
        (tagger : string -> list Span)
        (re_finditer : string -> string -> list Match)
        (re_search : string -> string -> bool)
        (re_findall : string -> string -> list (string * string))
        (re_sub : string -> string -> string -> string)
        (quote : string -> string)
        (parse_float : string -> option float)
        (geopy_installed : bool) (processed_text : string) :
  (forall txt w,
      pairwise_disjoint
        (fst (linking_chain re_findall re_sub quote
                            (extract_entities tagger re_finditer txt) w)))
  /\ (forall entities w,
         pairwise_disjoint entities ->
         pairwise_disjoint
           (snd (fst (get_coordinates re_search parse_float geopy_installed
                                      processed_text entities w))))
  /\ (forall entities w,
         pairwise_disjoint entities ->
         pairwise_disjoint (fst (link_to_openstreetmap parse_float entities w))).
Proof.
  repeat apply conj.
  - intros txt w.
    apply (pairwise_disjoint_offsets (extract_entities tagger re_finditer txt)).
    + symmetry.
      apply (map_offsets outside_chain
               (fun k => let '(t, ty, s, e, l) := fst (fst (fst k)) in (s, e)));
        [reflexivity | apply linking_chain_keeps].
    + unfold extract_entities. apply disjoint_nth.
      apply (fold_resolve_disjoint (sort_by_start _) []);
        [apply sort_by_start_sorted | constructor | constructor].
  - intros entities w. apply pairwise_disjoint_offsets. symmetry.
    apply (map_offsets outside_geocoding
             (fun k => let '(t, ty, s, e, l) := fst (fst k) in (s, e)));
      [reflexivity | apply get_coordinates_keeps].
  - intros entities w. apply pairwise_disjoint_offsets. symmetry.
    apply (map_offsets outside_map_link
             (fun k => let '(t, ty, s, e, l) := fst (fst k) in (s, e)));
      [reflexivity | apply link_to_openstreetmap_keeps].
Qed.

Lemma enrichment_keeps_disjoint_witness :
  let address := new_entity "10 Downing Street" "ADDRESS" 0 17 None in
  let london := new_entity "London" "LOCATION" 19 25 (Some "LOC") in
  let answer :=
    mkHttp 200 ""
      (Some (NominatimJson [mkOsm (Some "51.5074") (Some "-0.1278")
                                  (Some "10 Downing Street, London")])) in
  let w := mkWorld [Ok answer] [] [] in
  pairwise_disjoint [address; london]
  /\ pairwise_disjoint (fst (link_to_openstreetmap example_float [address; london] w)).
Proof.
  intros address london answer w.
  assert (H : pairwise_disjoint [address; london]).
  { apply disjoint_nth. repeat constructor.
    unfold disjoint, overlaps, address, london. simpl. lia. }
  split; [exact H |].
  exact (proj2 (proj2 (enrichment_keeps_disjoint
                         (fun _ => []) (fun _ _ => []) no_postal_code
                         (fun _ _ => []) (fun _ _ s => s) (fun s => s)
                         example_float true ""))
           [address; london] w H).
Defined.

(** ** How many external calls are made *)

Lemma calls_app t1 t2 : calls (t1 ++ t2) = (calls t1 + calls t2)%nat.
Proof. unfold calls. now rewrite filter_app, length_app. Qed.

Lemma makes_calls_le {A} (n m : nat) (c : M A) :
  (n <= m)%nat -> makes_calls n c -> makes_calls m c.
Proof.
  intros Hle H e w. destruct (H e w) as (t & Ht & Hn). exists t. split; [exact Ht | lia].
Qed.

Lemma makes_calls_ret {A} (a : A) : makes_calls 0 (ret a).
Proof. intros e w. exists []. simpl. now rewrite app_nil_r. Qed.

Lemma makes_calls_raise {A} (x : Exc) : makes_calls 0 (raise (A := A) x).
Proof. intros e w. exists []. simpl. now rewrite app_nil_r. Qed.

Lemma makes_calls_get_entity : makes_calls 0 get_entity.
Proof. intros e w. exists []. simpl. now rewrite app_nil_r. Qed.

Lemma makes_calls_bind {A C} (n m : nat) (c : M A) (k : A -> M C) :
  makes_calls n c -> (forall a, makes_calls m (k a)) ->
  makes_calls (n + m) (bind c k).
Proof.
  intros Hc Hk e w. unfold bind. destruct (Hc e w) as (t & Ht & Hn).
  destruct (c e w) as [[[a | x] e'] w']; simpl in *.
  - destruct (Hk a e' w') as (t' & Ht' & Hm).
    exists (t ++ t'). rewrite Ht', Ht, app_assoc, calls_app. split; [reflexivity | lia].
  - exists t. split; [exact Ht | lia].
Qed.

Lemma makes_calls_try_except {A} (n m : nat) (c : M A) catches (handler : M A) :
  makes_calls n c -> makes_calls m handler ->
  makes_calls (n + m) (try_except c catches handler).
Proof.
  intros Hc Hh e w. unfold try_except. destruct (Hc e w) as (t & Ht & Hn).
  destruct (c e w) as [[[a | x] e'] w']; simpl in *.
  - exists t. split; [exact Ht | lia].
  - destruct (catches x); simpl.
    + destruct (Hh e' w') as (t' & Ht' & Hm).
      exists (t ++ t'). rewrite Ht', Ht, app_assoc, calls_app.
      split; [reflexivity | lia].
    + exists t. split; [exact Ht | lia].
Qed.

(** A block with one call and perhaps its delay makes one call. *)
Lemma one_call_makes_calls {A} (c : M A) delayed ms :
  one_call_then_delay c delayed ms -> makes_calls 1 c.
Proof.
  intros H e w. destruct (H e w) as (call & Hcall & Htrace).
  destruct (c e w) as [[[a | x] e'] w']; simpl.
  - exists (call :: (if delayed a then [Sleep ms] else [])).
    split; [exact Htrace |].
    unfold calls. simpl. rewrite Hcall. destruct (delayed a); simpl; lia.
  - exists [call]. split; [exact Htrace |]. unfold calls. simpl. now rewrite Hcall.
Qed.

(** A loop makes at most the calls of its turns, also when an exception
    ends it. *)
Lemma for_each_calls (n : nat) (body : M unit) :
  makes_calls n body ->
  forall entities w,
    exists t,
      trace (snd (for_each body entities w)) = trace w ++ t
      /\ (calls t <= n * List.length entities)%nat.
Proof.
  intros Hbody. induction entities as [| e rest IH]; intros w.
  - exists []. simpl. rewrite app_nil_r. split; [reflexivity | unfold calls; simpl; lia].
  - cbn. destruct (Hbody e w) as (t & Ht & Hn).
    destruct (body e w) as [[[[] | x] e'] w']; simpl in Ht.
    + destruct (IH w') as (t' & Ht' & Hm).
      destruct (for_each body rest w') as [[r rest'] w'']. simpl in *.
      exists (t ++ t'). rewrite Ht', Ht, app_assoc, calls_app.
      split; [reflexivity | lia].
    + exists t. simpl. split; [exact Ht | lia].
Qed.

Section CallBounds.

Variable re_search : string -> string -> bool.
Variable parse_float : string -> option float.
Variable geopy_installed : bool.
Variable processed_text : string.

Lemma contextual_geopy_loop_calls terms :
  makes_calls (List.length terms) (contextual_geopy_loop terms).
Proof.
  induction terms as [| search_term rest IH]; simpl; [apply makes_calls_ret |].
  apply (makes_calls_bind 1 (List.length rest)).
  - apply (makes_calls_try_except 1 0); [| apply makes_calls_ret].
    eapply one_call_makes_calls, contextual_geopy_try_delay.
  - intros [|]; [| exact IH].
    eapply makes_calls_le; [| apply makes_calls_ret]. lia.
Qed.

Lemma osm_loop_calls source delay (loop : list string -> M bool) :
  (forall search_term rest,
      loop (search_term :: rest)
      = bind (try_except (osm_try parse_float search_term source delay)
                         any_exception (ret false))
             (fun returned : bool => if returned then ret true else loop rest)) ->
  loop [] = ret false ->
  forall terms, makes_calls (List.length terms) (loop terms).
Proof.
  intros Hcons Hnil. induction terms as [| search_term rest IH].
  - rewrite Hnil. apply makes_calls_ret.
  - rewrite Hcons. apply (makes_calls_bind 1 (List.length rest)).
    + apply (makes_calls_try_except 1 0); [| apply makes_calls_ret].
      eapply one_call_makes_calls, osm_try_delay.
    + intros [|]; [| exact IH].
      eapply makes_calls_le; [| apply makes_calls_ret]. lia.
Qed.

Lemma python_geocoders_loop_calls geocoders :
  makes_calls (List.length geocoders) (python_geocoders_loop geocoders).
Proof.
  induction geocoders as [| name rest IH]; simpl; [apply makes_calls_ret |].
  apply (makes_calls_bind 1 (List.length rest)).
  - intros e w. unfold_monad. cbn.
    exists [Geocode name (text e) (next_geopy w)].
    split; [| unfold calls; simpl; lia].
    destruct (next_geopy w) as [[location |] | x]; reflexivity.
  - intros [|]; [| exact IH].
    eapply makes_calls_le; [| apply makes_calls_ret]. lia.
Qed.

Lemma try_contextual_geocoding_calls context_clues :
  makes_calls 8 (_try_contextual_geocoding parse_float geopy_installed context_clues).
Proof.
  unfold _try_contextual_geocoding.
  destruct context_clues as [| context rest].
  - eapply makes_calls_le; [| apply makes_calls_ret]. lia.
  - apply (makes_calls_bind 0 8); [apply makes_calls_get_entity |]. intros entity.
    cbv zeta. generalize (contextual_variations (text entity) (context :: rest)).
    intros search_variations.
    apply (makes_calls_bind 5 3).
    + apply (makes_calls_try_except 5 0); [| apply makes_calls_ret].
      apply (makes_calls_bind 0 5).
      * unfold import_geopy. destruct geopy_installed;
          [apply makes_calls_ret | apply makes_calls_raise].
      * intros _. eapply makes_calls_le; [| apply contextual_geopy_loop_calls].
        apply firstn_le_length.
    + intros [|].
      * eapply makes_calls_le; [| apply makes_calls_ret]. lia.
      * eapply makes_calls_le;
          [| apply (osm_loop_calls "openstreetmap_contextual" 300
                      (contextual_osm_loop parse_float)); reflexivity].
        apply firstn_le_length.
Qed.

Lemma try_python_geocoding_calls :
  makes_calls 2 (_try_python_geocoding geopy_installed).
Proof.
  unfold _try_python_geocoding.
  apply (makes_calls_try_except 2 0); [| apply makes_calls_ret].
  apply (makes_calls_bind 0 2).
  - unfold import_geopy. destruct geopy_installed;
      [apply makes_calls_ret | apply makes_calls_raise].
  - intros _. apply (python_geocoders_loop_calls ["nominatim"; "arcgis"]).
Qed.

Lemma try_openstreetmap_calls : makes_calls 0 _try_openstreetmap.
Proof.
  unfold _try_openstreetmap.
  apply (makes_calls_try_except 0 0); [apply makes_calls_raise | apply makes_calls_ret].
Qed.

Lemma try_aggressive_geocoding_calls :
  makes_calls 7 (_try_aggressive_geocoding parse_float).
Proof.
  unfold _try_aggressive_geocoding.
  apply (makes_calls_bind 0 7); [apply makes_calls_get_entity |]. intros entity.
  apply (osm_loop_calls "openstreetmap_aggressive" 200 (aggressive_loop parse_float)
           (fun _ _ => eq_refl) eq_refl (aggressive_variations (text entity))).
Qed.

Lemma coordinates_entity_calls context_clues :
  makes_calls 17 (coordinates_entity parse_float geopy_installed context_clues).
Proof.
  unfold coordinates_entity.
  apply (makes_calls_bind 0 17); [apply makes_calls_get_entity |]. intros entity.
  destruct (mem (type entity) place_types);
    [| eapply makes_calls_le; [| apply makes_calls_ret]; lia].
  destruct (latitude entity);
    [eapply makes_calls_le; [| apply makes_calls_ret]; lia |].
  apply (makes_calls_bind 8 9); [apply try_contextual_geocoding_calls |].
  intros [|]; [eapply makes_calls_le; [| apply makes_calls_ret]; lia |].
  apply (makes_calls_bind 2 7); [apply try_python_geocoding_calls |].
  intros [|]; [eapply makes_calls_le; [| apply makes_calls_ret]; lia |].
  apply (makes_calls_bind 0 7); [apply try_openstreetmap_calls |].
  intros [|]; [eapply makes_calls_le; [| apply makes_calls_ret]; lia |].
  apply (makes_calls_bind 7 0); [apply try_aggressive_geocoding_calls |].
  intros _. apply makes_calls_ret.
Qed.

(** X16. [get_coordinates] makes at most 17 external calls for an entity,
    5 and 3 in the contextual strategy, 2 in the library fallback, none in
    [_try_openstreetmap] and 7 in the aggressive strategy; so at most 17
    times the number of entities in all, and it only adds to the trace. *)
Theorem get_coordinates_call_bound (entities : list Entity) (w : World) :
  exists t,
    trace (snd (get_coordinates re_search parse_float geopy_installed
                                processed_text entities w))
    = trace w ++ t
    /\ (calls t <= 17 * List.length entities)%nat.
Proof.
  unfold get_coordinates. apply for_each_calls, coordinates_entity_calls.
Qed.

End CallBounds.

(** The bound is reached: two context clues give five geocoder terms, and
    nothing is found anywhere. *)
Example get_coordinates_seventeen_calls :
  let ely := new_entity "Ely" "LOCATION" 9 12 (Some "LOC") in
  let w := mkWorld [] (repeat (Ok None) 7) [] in
  calls (trace (snd (get_coordinates no_postal_code example_float true
                                     "From London, UK, to Ely." [ely] w)))
  = 17%nat.
Proof. vm_compute. reflexivity. Qed.

(** ** The linkers: one search per entity, no exception *)

Lemma for_each_quiet (body : M unit) (searched : Entity -> bool) :
  quiet_body body searched ->
  forall entities w,
    exists entities' w' t,
      for_each body entities w = (Ok tt, entities', w')
      /\ trace w' = trace w ++ t
      /\ calls t = List.length (filter searched entities).
Proof.
  intros Hbody. induction entities as [| e rest IH]; intros w.
  - exists [], w, []. simpl. now rewrite app_nil_r.
  - cbn. destruct (Hbody e w) as (e' & w' & t & -> & Ht & Hn).
    destruct (IH w') as (rest' & w'' & t' & -> & Ht' & Hm).
    exists (e' :: rest'), w'', (t ++ t').
    split; [reflexivity |]. split; [now rewrite Ht', Ht, app_assoc |].
    rewrite calls_app, Hn, Hm. destruct (searched e); simpl; lia.
Qed.

(** A [try] block with one call, under a handler that catches everything
    and does nothing. *)
Lemma guarded_block_quiet (block : M unit) delayed ms :
  one_call_then_delay block delayed ms ->
  forall e w,
    exists e' w' t,
      try_except block any_exception (ret tt) e w = (Ok tt, e', w')
      /\ trace w' = trace w ++ t /\ calls t = 1%nat.
Proof.
  intros H e w. destruct (H e w) as (call & Hcall & Htrace).
  unfold try_except. destruct (block e w) as [[[[] | x] e'] w']; simpl.
  - exists e', w', (call :: (if delayed tt then [Sleep ms] else [])).
    split; [reflexivity |]. split; [exact Htrace |].
    unfold calls. simpl. rewrite Hcall. destruct (delayed tt); reflexivity.
  - exists e', w', [call]. split; [reflexivity |]. split; [exact Htrace |].
    unfold calls. simpl. now rewrite Hcall.
Qed.

Lemma skipped_quiet (e : Entity) (w : World) :
  exists e' w' t,
    ret tt e w = (Ok tt, e', w') /\ trace w' = trace w ++ t /\ calls t = 0%nat.
Proof. exists e, w, []. simpl. now rewrite app_nil_r. Qed.

Section LinkerCalls.

Variable re_findall : string -> string -> list (string * string).
Variable re_sub : string -> string -> string -> string.
Variable quote : string -> string.
Variable parse_float : string -> option float.

Lemma wikidata_entity_quiet : quiet_body wikidata_entity (fun _ => true).
Proof.
  intros e w. apply (guarded_block_quiet _ _ _ wikidata_try_delay).
Qed.

Lemma wikipedia_entity_quiet :
  quiet_body (wikipedia_entity re_sub quote) wikipedia_searched.
Proof.
  intros e w. unfold wikipedia_entity, wikipedia_searched.
  unfold bind at 1, get_entity.
  destruct (PyStr.truthy (wikidata_url e)); simpl; [apply skipped_quiet |].
  apply (guarded_block_quiet _ _ _ (wikipedia_try_delay re_sub quote)).
Qed.

Lemma britannica_entity_quiet :
  quiet_body (britannica_entity re_findall) britannica_searched.
Proof.
  intros e w. unfold britannica_entity, britannica_searched.
  unfold bind at 1, get_entity.
  destruct (PyStr.truthy (wikidata_url e) || PyStr.truthy (wikipedia_url e)); simpl;
    [apply skipped_quiet |].
  apply (guarded_block_quiet _ _ _ (britannica_try_delay re_findall)).
Qed.

Lemma openstreetmap_link_entity_quiet :
  quiet_body (openstreetmap_link_entity parse_float) is_address.
Proof.
  intros e w. unfold openstreetmap_link_entity, is_address.
  unfold bind at 1, get_entity.
  destruct (String.eqb (type e) "ADDRESS"); simpl; [| apply skipped_quiet].
  apply (guarded_block_quiet _ _ _ (openstreetmap_link_try_delay parse_float)).
Qed.

Lemma linker_searches (body : M unit) (searched : Entity -> bool) :
  quiet_body body searched ->
  searches_exactly
    (fun entities w => let '(_, entities', w') := for_each body entities w in
                       (entities', w'))
    searched.
Proof.
  intros Hbody entities w.
  destruct (for_each_quiet body searched Hbody entities w)
    as (entities' & w' & t & -> & Ht & Hn).
  exists t. split; assumption.
Qed.

(** X17. Each linker makes exactly one search for each entity it does not
    skip, and no other call: [link_to_wikidata] one for every entity,
    [link_to_wikipedia] one for every entity without a Wikidata link,
    [link_to_britannica] one for every entity with neither a Wikidata nor a
    Wikipedia link, [link_to_openstreetmap] one for every address. *)
Theorem linkers_search_once :
  searches_exactly link_to_wikidata (fun _ => true)
  /\ searches_exactly (link_to_wikipedia re_sub quote) wikipedia_searched
  /\ searches_exactly (link_to_britannica re_findall) britannica_searched
  /\ searches_exactly (link_to_openstreetmap parse_float) is_address.
Proof.
  repeat apply conj.
  - apply (linker_searches _ _ wikidata_entity_quiet).
  - apply (linker_searches _ _ wikipedia_entity_quiet).
  - apply (linker_searches _ _ britannica_entity_quiet).
  - apply (linker_searches _ _ openstreetmap_link_entity_quiet).
Qed.

Lemma quiet_never_raises (body : M unit) (searched : Entity -> bool) :
  quiet_body body searched -> never_raises body.
Proof.
  intros Hbody entities w.
  destruct (for_each_quiet body searched Hbody entities w)
    as (entities' & w' & t & -> & _). reflexivity.
Qed.

(** X18. Linking is best effort: whatever the services answer, and also
    when a call times out or an answer is malformed, the loops of the four
    linkers run to their end without an exception. *)
Theorem linkers_never_raise :
  never_raises wikidata_entity
  /\ never_raises (wikipedia_entity re_sub quote)
  /\ never_raises (britannica_entity re_findall)
  /\ never_raises (openstreetmap_link_entity parse_float).
Proof.
  repeat apply conj.
  - apply (quiet_never_raises _ _ wikidata_entity_quiet).
  - apply (quiet_never_raises _ _ wikipedia_entity_quiet).
  - apply (quiet_never_raises _ _ britannica_entity_quiet).
  - apply (quiet_never_raises _ _ openstreetmap_link_entity_quiet).
Qed.

End LinkerCalls.

(** ** When [get_coordinates] raises *)

Lemma keeps_geocoders_ret {A} (a : A) : keeps_geocoders (ret a).
Proof. intros e w H. exact H. Qed.

Lemma keeps_geocoders_raise {A} (x : Exc) : keeps_geocoders (raise (A := A) x).
Proof. intros e w H. exact H. Qed.

Lemma keeps_geocoders_get_entity : keeps_geocoders get_entity.
Proof. intros e w H. exact H. Qed.

Lemma keeps_geocoders_assign g : keeps_geocoders (assign g).
Proof. intros e w H. exact H. Qed.

Lemma keeps_geocoders_time_sleep ms : keeps_geocoders (time_sleep ms).
Proof. intros e w H. exact H. Qed.

Lemma keeps_geocoders_getitem {A} (o : option A) : keeps_geocoders (getitem o).
Proof. destruct o; [apply keeps_geocoders_ret | apply keeps_geocoders_raise]. Qed.

Lemma keeps_geocoders_json response : keeps_geocoders (json response).
Proof. apply keeps_geocoders_getitem. Qed.

Lemma keeps_geocoders_requests_get url term : keeps_geocoders (requests_get url term).
Proof. intros e w H. exact H. Qed.

Lemma keeps_geocoders_geocode geocoder term : keeps_geocoders (geocode geocoder term).
Proof.
  intros e w H. unfold geocoders_behave in *. simpl.
  destruct (geopy w); [constructor | now inversion H].
Qed.

Lemma keeps_geocoders_bind {A C} (c : M A) (k : A -> M C) :
  keeps_geocoders c -> (forall a, keeps_geocoders (k a)) -> keeps_geocoders (bind c k).
Proof.
  intros Hc Hk e w H. unfold bind. specialize (Hc e w H).
  destruct (c e w) as [[[a | x] e'] w']; simpl in *; [now apply Hk | exact Hc].
Qed.

Lemma keeps_geocoders_try_except {A} (c : M A) catches (handler : M A) :
  keeps_geocoders c -> keeps_geocoders handler ->
  keeps_geocoders (try_except c catches handler).
Proof.
  intros Hc Hh e w H. unfold try_except. specialize (Hc e w H).
  destruct (c e w) as [[[a | x] e'] w']; simpl in *; [exact Hc |].
  destruct (catches x); [now apply Hh | exact Hc].
Qed.

Create HintDb geocoders.
#[local] Hint Resolve keeps_geocoders_ret keeps_geocoders_raise
  keeps_geocoders_get_entity keeps_geocoders_assign keeps_geocoders_time_sleep
  keeps_geocoders_getitem keeps_geocoders_json keeps_geocoders_requests_get
  keeps_geocoders_geocode keeps_geocoders_bind keeps_geocoders_try_except
  : geocoders.
#[local] Hint Extern 2 (keeps_geocoders (if ?c then _ else _)) =>
  destruct c : geocoders.
#[local] Hint Extern 2 (keeps_geocoders (match ?x with _ => _ end)) =>
  destruct x : geocoders.

Lemma returns_ret {A} (a : A) : returns (ret a).
Proof. intros e w H. split; [exact H | now exists a]. Qed.

Lemma returns_get_entity : returns get_entity.
Proof. intros e w H. split; [exact H | now exists e]. Qed.

Lemma returns_bind {A C} (c : M A) (k : A -> M C) :
  returns c -> (forall a, returns (k a)) -> returns (bind c k).
Proof.
  intros Hc Hk e w H. unfold bind. destruct (Hc e w H) as [Hw [a Ha]].
  destruct (c e w) as [[r e'] w']; simpl in *. subst r. now apply Hk.
Qed.

(** A block under a handler that catches everything and returns. *)
Lemma returns_guarded {A} (c : M A) (a : A) :
  keeps_geocoders c -> returns (try_except c any_exception (ret a)).
Proof.
  intros Hc e w H. unfold try_except. specialize (Hc e w H).
  destruct (c e w) as [[[b | x] e'] w']; simpl in *;
    (split; [exact Hc | eexists; reflexivity]).
Qed.

Lemma for_each_returns (body : M unit) :
  returns body ->
  forall entities w,
    geocoders_behave w -> fst (fst (for_each body entities w)) = Ok tt.
Proof.
  intros Hbody. induction entities as [| e rest IH]; intros w H; [reflexivity |].
  cbn. destruct (Hbody e w H) as [Hw [a Ha]].
  destruct (body e w) as [[r e'] w']; simpl in *. subst r. destruct a.
  specialize (IH w' Hw). now destruct (for_each body rest w') as [[r rest'] w''].
Qed.

Section GeocodingExceptions.

Variable re_search : string -> string -> bool.
Variable parse_float : string -> option float.
Variable geopy_installed : bool.
Variable processed_text : string.

(** With geocoders that behave, the first loop of the contextual strategy
    returns: its handler catches what they raise. *)
Lemma contextual_geopy_loop_returns terms : returns (contextual_geopy_loop terms).
Proof.
  induction terms as [| search_term rest IH]; simpl; [apply returns_ret |].
  apply returns_bind; [| intros [|]; [apply returns_ret | exact IH]].
  intros e w H.
  assert (Hnext : expected_answer (next_geopy w) = true).
  { unfold next_geopy, geocoders_behave in *.
    destruct (geopy w); [reflexivity | now inversion H]. }
  assert (Htail : geocoders_behave
                    (mkWorld (http w) (tl (geopy w))
                             (trace w ++ [Geocode "nominatim" search_term (next_geopy w)]))).
  { exact (keeps_geocoders_geocode "nominatim" search_term e w H). }
  unfold contextual_geopy_try, record_geopy_contextual. unfold_monad. cbn.
  destruct (next_geopy w) as [[location |] | []]; try discriminate; cbn;
    (split; [exact Htail | eexists; reflexivity]).
Qed.

Lemma osm_try_keeps_geocoders search_term source delay :
  keeps_geocoders (osm_try parse_float search_term source delay).
Proof. unfold osm_try, record_osm. auto 40 with geocoders. Qed.

Lemma osm_loop_returns source delay (loop : list string -> M bool) :
  (forall search_term rest,
      loop (search_term :: rest)
      = bind (try_except (osm_try parse_float search_term source delay)
                         any_exception (ret false))
             (fun returned : bool => if returned then ret true else loop rest)) ->
  loop [] = ret false ->
  forall terms, returns (loop terms).
Proof.
  intros Hcons Hnil. induction terms as [| search_term rest IH].
  - rewrite Hnil. apply returns_ret.
  - rewrite Hcons. apply returns_bind.
    + apply returns_guarded, osm_try_keeps_geocoders.
    + intros [|]; [apply returns_ret | exact IH].
Qed.

Lemma python_geocoders_loop_keeps_geocoders geocoders :
  keeps_geocoders (python_geocoders_loop geocoders).
Proof.
  induction geocoders as [| name rest IH]; simpl; auto 30 with geocoders.
Qed.

Lemma try_contextual_geocoding_returns context_clues :
  returns (_try_contextual_geocoding parse_float geopy_installed context_clues).
Proof.
  unfold _try_contextual_geocoding.
  destruct context_clues as [| context rest]; [apply returns_ret |].
  apply returns_bind; [apply returns_get_entity |]. intros entity. cbv zeta.
  generalize (contextual_variations (text entity) (context :: rest)).
  intros search_variations.
  generalize (firstn 5 search_variations), (firstn 3 search_variations).
  intros terms5 terms3.
  apply returns_bind.
  - intros e w H. unfold try_except, bind at 1, import_geopy.
    destruct geopy_installed; cbn.
    + destruct (contextual_geopy_loop_returns terms5 e w H) as [Hw [a Ha]].
      destruct (contextual_geopy_loop terms5 e w) as [[r e'] w']; simpl in *.
      subst r.
      split; [exact Hw | now exists a].
    + split; [exact H | now exists false].
  - intros [|]; [apply returns_ret |].
    apply (osm_loop_returns "openstreetmap_contextual" 300
                            (contextual_osm_loop parse_float)); reflexivity.
Qed.

Lemma coordinates_entity_returns context_clues :
  returns (coordinates_entity parse_float geopy_installed context_clues).
Proof.
  unfold coordinates_entity.
  apply returns_bind; [apply returns_get_entity |]. intros entity.
  destruct (mem (type entity) place_types); [| apply returns_ret].
  destruct (latitude entity); [apply returns_ret |].
  apply returns_bind; [apply try_contextual_geocoding_returns |].
  intros [|]; [apply returns_ret |].
  apply returns_bind.
  { unfold _try_python_geocoding. apply returns_guarded.
    unfold import_geopy.
    auto 10 using python_geocoders_loop_keeps_geocoders with geocoders. }
  intros [|]; [apply returns_ret |].
  apply returns_bind.
  { unfold _try_openstreetmap. apply returns_guarded, keeps_geocoders_raise. }
  intros [|]; [apply returns_ret |].
  apply returns_bind; [| intros _; apply returns_ret].
  unfold _try_aggressive_geocoding.
  apply returns_bind; [apply returns_get_entity |]. intros e.
  apply (osm_loop_returns "openstreetmap_aggressive" 200
                          (aggressive_loop parse_float)); reflexivity.
Qed.

(** X19. [get_coordinates] is not left by an exception as long as every
    geocoder call returns a location, returns none, or raises one of the
    geocoder errors the handlers name; whatever the HTTP calls do, raise
    or answer, well formed or not, is absorbed. *)
Theorem get_coordinates_returns (entities : list Entity) (w : World) :
  geocoders_behave w ->
  fst (fst (get_coordinates re_search parse_float geopy_installed processed_text
                            entities w))
  = Ok tt.
Proof.
  unfold get_coordinates. apply for_each_returns, coordinates_entity_returns.
Qed.

End GeocodingExceptions.

Lemma get_coordinates_returns_witness :
  let leeds := new_entity "Leeds" "LOCATION" 11 16 (Some "LOC") in
  let w := mkWorld [Err OtherError] [Err GeocoderError; Ok None] [] in
  geocoders_behave w
  /\ fst (fst (get_coordinates no_postal_code example_float true
                               "From London to Leeds" [leeds] w))
     = Ok tt.
Proof.
  intros leeds w.
  assert (H : geocoders_behave w) by (repeat constructor).
  split; [exact H |].
  exact (get_coordinates_returns no_postal_code example_float true
           "From London to Leeds" [leeds] w H).
Defined.

(** Another exception of the geocoding library, raised in the contextual
    strategy, is caught nowhere: [get_coordinates] is left at the first
    entity, and the second is not looked at. *)
Example get_coordinates_foreign_exception :
  let leeds := new_entity "Leeds" "LOCATION" 11 16 (Some "LOC") in
  let york := new_entity "York" "LOCATION" 21 25 (Some "LOC") in
  let found := mkLocation (5396 # 100) (- 108 # 100) "York, UK" in
  get_coordinates no_postal_code example_float true "From London to Leeds and York"
                  [leeds; york] (mkWorld [] [Err OtherError; Ok (Some found)] [])
  = (Err OtherError, [leeds; york],
     mkWorld [] [Ok (Some found)] [Geocode "nominatim" "Leeds" (Err OtherError)]).
Proof. vm_compute. reflexivity. Qed.

(** ** The Wikipedia description *)

Lemma substring_length n : forall m s,
  (String.length (substring n m s) <= m)%nat.
Proof.
  induction n as [| n IHn]; intros m s.
  - revert s. induction m as [| m IHm]; intros s; destruct s; simpl; try lia.
    specialize (IHm s). lia.
  - destruct s; simpl; [destruct m; simpl; lia | apply IHn].
Qed.

Lemma append_length s1 s2 :
  String.length (s1 ++ s2)%string = (String.length s1 + String.length s2)%nat.
Proof. induction s1 as [| c s1 IH]; simpl; [reflexivity | now rewrite IH]. Qed.

Lemma truncate_snippet_length snippet :
  (String.length (truncate_snippet snippet) <= 203)%nat.
Proof.
  unfold truncate_snippet.
  destruct (Nat.ltb_spec 200 (String.length snippet)) as [Hlong | Hshort]; [| lia].
  rewrite append_length. pose proof (substring_length 0 200 snippet). simpl. lia.
Qed.

Section WikipediaDescription.

Variable re_sub : string -> string -> string -> string.
Variable quote : string -> string.

Lemma wikipedia_entity_description e w :
  description_short e ->
  exists e' w',
    wikipedia_entity re_sub quote e w = (Ok tt, e', w') /\ description_short e'.
Proof.
  intros He. unfold wikipedia_entity, wikipedia_try. unfold_monad. cbn.
  split_cases;
    (eexists; eexists; split; [reflexivity |]);
    unfold description_short in *; cbn;
    first [exact He | apply truncate_snippet_length].
Qed.

(** X20. Whatever snippet the search returns and whatever the removal of
    its tags leaves, the description that [link_to_wikipedia] stores has at
    most 203 characters; entities that come without a longer description
    leave without one. *)
Theorem link_to_wikipedia_description_short (entities : list Entity) (w : World) :
  Forall description_short entities ->
  Forall description_short (fst (link_to_wikipedia re_sub quote entities w)).
Proof.
  intros H. unfold link_to_wikipedia.
  destruct (for_each_Forall (wikipedia_entity re_sub quote) description_short
              description_short wikipedia_entity_description entities w H)
    as (es & w' & -> & Hes).
  exact Hes.
Qed.

End WikipediaDescription.

(** The tag removal leaves the snippet as it is: 250 characters come in,
    203 are stored. *)
Lemma link_to_wikipedia_description_short_witness :
  let paris := new_entity "Paris" "LOCATION" 0 5 (Some "LOC") in
  let long := String.concat "" (repeat "Paris" 50) in
  let answer := mkHttp 200 "" (Some (WikipediaJson [mkWp (Some "Paris") (Some long)])) in
  let w := mkWorld [Ok answer] [] [] in
  Forall description_short [paris]
  /\ Forall description_short
            (fst (link_to_wikipedia (fun _ _ s => s) (fun s => s) [paris] w))
  /\ map (fun e => option_map String.length (wikipedia_description e))
         (fst (link_to_wikipedia (fun _ _ s => s) (fun s => s) [paris] w))
     = [Some 203%nat].
Proof.
  intros paris long answer w.
  assert (H : Forall description_short [paris]) by (repeat constructor).
  split; [exact H |]. split.
  - exact (link_to_wikipedia_description_short (fun _ _ s => s) (fun s => s) [paris] w H).
  - vm_compute. reflexivity.
Defined.

(** ** The search terms of the contextual strategy *)

Lemma prefix_append s1 s2 : prefix s1 (s1 ++ s2)%string = true.
Proof.
  induction s1 as [| c s1 IH]; simpl; [now destruct s2 |].
  destruct (ascii_dec c c); [exact IH | congruence].
Qed.

Lemma prefix_refl s : prefix s s = true.
Proof.
  induction s as [| c s IH]; simpl; [reflexivity |].
  destruct (ascii_dec c c); [exact IH | congruence].
Qed.

Lemma fold_append_new_head l : forall x acc,
  exists rest, fold_left append_new l (x :: acc) = x :: rest.
Proof.
  induction l as [| y l IH]; simpl; intros x acc; [now exists acc |].
  unfold append_new at 2. destruct (mem y (x :: acc)); [apply IH |].
  simpl. apply IH.
Qed.

Lemma dedup_In l x : In x (dedup l) -> In x l.
Proof.
  unfold dedup.
  assert (H : forall acc, In x (fold_left append_new l acc) -> In x acc \/ In x l).
  { induction l as [| y l IH]; simpl; intros acc Hx; [now left |].
    apply IH in Hx. destruct Hx as [Hx | Hx]; [| tauto].
    apply append_new_In in Hx. destruct Hx as [Hx | [-> _]]; tauto. }
  intros Hx. apply H in Hx. now destruct Hx.
Qed.

Lemma dedup_NoDup l : NoDup (dedup l).
Proof.
  unfold dedup. apply append_only_NoDup; [| constructor].
  intros clues a. apply append_new_NoDup.
Qed.

(** X21. The search terms of the contextual strategy start with the
    entity text itself, contain no term twice, and all begin with the
    entity text. *)
Theorem contextual_variations_shape (entity_text : string) (context_clues : list string) :
  exists rest,
    contextual_variations entity_text context_clues = entity_text :: rest
    /\ NoDup (entity_text :: rest)
    /\ Forall (fun term => prefix entity_text term = true) rest.
Proof.
  unfold contextual_variations.
  set (terms := flat_map _ context_clues).
  destruct (fold_append_new_head terms entity_text []) as [rest Hrest].
  exists rest.
  assert (Heq : dedup (entity_text :: terms) = entity_text :: rest).
  { unfold dedup. simpl. exact Hrest. }
  split; [exact Heq |]. split; [rewrite <- Heq; apply dedup_NoDup |].
  apply Forall_forall. intros term Hterm.
  assert (Hin : In term (entity_text :: terms)).
  { apply dedup_In. rewrite Heq. now right. }
  destruct Hin as [<- | Hin].
  - apply prefix_refl.
  - unfold terms in Hin. apply in_flat_map in Hin.
    destruct Hin as (context & _ & Hin).
    apply in_map_iff in Hin. destruct Hin as (variant & <- & _).
    apply prefix_append.
Qed.

(** ** Presentation: the links column and the JSON-LD export *)

(** X22. The links column shows "No links" exactly when none of the four
    links is there and not empty; an entity with at most one link set, as
    the linking chain leaves them, is shown with "No links" or with the
    name of one source. *)
Theorem format_entity_links_sources (entity : Entity) :
  (format_entity_links entity = "No links" <-> export_urls entity = [])
  /\ ((links entity <= 1)%nat ->
      In (format_entity_links entity)
         ["No links"; "Wikipedia"; "Wikidata"; "Britannica"; "OpenStreetMap"]).
Proof.
  unfold format_entity_links, export_urls, links, truthy_value.
  destruct (wikipedia_url entity) as [[| c1 s1] |],
           (wikidata_url entity) as [[| c2 s2] |],
           (britannica_url entity) as [[| c3 s3] |],
           (openstreetmap_url entity) as [[| c4 s4] |];
    cbn; (split; [split; intros H; first [reflexivity | discriminate H] |]);
    intros H; first [lia | tauto].
Qed.

Lemma format_entity_links_sources_witness :
  let paris :=
    set_wikipedia_url "https://en.wikipedia.org/wiki/Paris"
                      (new_entity "Paris" "LOCATION" 0 5 (Some "LOC")) in
  (links paris <= 1)%nat /\ format_entity_links paris = "Wikipedia".
Proof.
  intros paris. assert (H : (links paris <= 1)%nat) by (vm_compute; lia).
  split; [exact H |].
  destruct (proj2 (format_entity_links_sources paris) H)
    as [Hf | [Hf | [Hf | [Hf | [Hf | []]]]]];
    first [ discriminate Hf | symmetry; exact Hf ].
Defined.

(** X23. In the JSON-LD export the key sameAs is absent when the entity
    has no link, is the link itself when it has exactly one, and is a list
    when it has several: its links in the order Wikidata, Wikipedia,
    Britannica, OpenStreetMap. *)
Theorem export_same_as_shape (entity : Entity) :
  export_same_as entity
  = match export_urls entity with
    | [] => None
    | [url] => Some (SameAsStr url)
    | urls => Some (SameAsList urls)
    end.
Proof.
  unfold export_same_as, export_urls, add_if_truthy, truthy_value.
  destruct (wikidata_url entity) as [[| c1 s1] |],
           (wikipedia_url entity) as [[| c2 s2] |],
           (britannica_url entity) as [[| c3 s3] |],
           (openstreetmap_url entity) as [[| c4 s4] |];
    reflexivity.
Qed.

(** ** Presentation: the highlighted text *)

Lemma html_escape_app s1 s2 :
  html_escape (s1 ++ s2) = (html_escape s1 ++ html_escape s2)%string.
Proof.
  induction s1 as [| c s1 IH]; simpl; [reflexivity |].
  rewrite IH. clear IH. induction (escape_char c) as [| d s IHs]; simpl;
    [reflexivity | now rewrite IHs].
Qed.

Lemma string_app_assoc (s1 s2 s3 : string) :
  ((s1 ++ s2) ++ s3 = s1 ++ (s2 ++ s3))%string.
Proof. induction s1 as [| c s1 IH]; simpl; [reflexivity | now rewrite IH]. Qed.

Lemma substring_prefix (s1 s2 : string) :
  substring 0 (String.length s1) (s1 ++ s2) = s1.
Proof.
  induction s1 as [| c s1 IH]; simpl; [now destruct s2 | now rewrite IH].
Qed.

Lemma substring_all (s : string) : substring 0 (String.length s) s = s.
Proof. induction s as [| c s IH]; simpl; [reflexivity | now rewrite IH]. Qed.

Lemma substring_suffix (s1 s2 : string) :
  substring (String.length s1) (String.length s2) (s1 ++ s2) = s2.
Proof.
  induction s1 as [| c s1 IH]; simpl; [apply substring_all | exact IH].
Qed.

(** A prefix of the text is a shorter prefix followed by the slice
    between the two ends. *)
Lemma substring_split (s : string) : forall q p,
  (q <= p)%nat ->
  substring 0 p s = (substring 0 q s ++ substring q (p - q) s)%string.
Proof.
  induction s as [| c s IH]; intros q p Hqp.
  - destruct q, p; reflexivity.
  - destruct q as [| q].
    + simpl. rewrite Nat.sub_0_r. reflexivity.
    + destruct p as [| p]; [lia |]. simpl. rewrite (IH q p) by lia. reflexivity.
Qed.

Lemma slice_in_range (s : string) (i j : Z) :
  (0 <= i <= j)%Z -> (j <= Z.of_nat (String.length s))%Z ->
  slice s i j = substring (Z.to_nat i) (Z.to_nat j - Z.to_nat i) s.
Proof.
  intros Hij Hj. unfold slice, slice_index.
  destruct (Z.ltb_spec i 0); [lia |]. destruct (Z.ltb_spec j 0); [lia |].
  rewrite !Nat.min_l by lia. reflexivity.
Qed.

Lemma slice_to_in_range (s : string) (j : Z) :
  (0 <= j)%Z -> (j <= Z.of_nat (String.length s))%Z ->
  slice_to s j = substring 0 (Z.to_nat j) s.
Proof.
  intros H0 Hj. unfold slice_to. rewrite slice_in_range by lia.
  now rewrite Nat.sub_0_r.
Qed.

(** An entity that is not highlighted leaves the text as it is. *)
Lemma highlight_step_skip txt highlighted entity :
  highlighted_entity entity = false ->
  highlight_step txt highlighted entity = highlighted.
Proof. unfold highlight_step. now intros ->. Qed.

(** The replacement of one span: with the escaped text up to the end of
    the span in front, the span is cut out of it and what follows stays. *)
Lemma highlight_step_replace txt entity (tail : string) :
  in_text txt entity ->
  highlighted_entity entity = true ->
  highlight_step txt
    (html_escape (substring 0 (Z.to_nat (end_ entity)) txt) ++ tail) entity
  = (html_escape (substring 0 (Z.to_nat (start entity)) txt)
     ++ replacement txt entity ++ tail)%string.
Proof.
  intros [Hstart Hend] Hhl. unfold highlight_step. rewrite Hhl. cbn [negb].
  rewrite slice_to_in_range by lia. rewrite slice_in_range by lia.
  set (before := html_escape (substring 0 (Z.to_nat (start entity)) txt)).
  set (inside := html_escape (substring (Z.to_nat (start entity))
                                (Z.to_nat (end_ entity) - Z.to_nat (start entity)) txt)).
  assert (Hsplit : html_escape (substring 0 (Z.to_nat (end_ entity)) txt)
                   = (before ++ inside)%string).
  { rewrite (substring_split txt (Z.to_nat (start entity)) (Z.to_nat (end_ entity)))
      by lia.
    apply html_escape_app. }
  rewrite Hsplit, !string_app_assoc.
  rewrite substring_prefix. f_equal. f_equal.
  rewrite <- string_app_assoc, !append_length.
  replace (String.length before + String.length inside + String.length tail
           - (String.length before + String.length inside))%nat
    with (String.length tail) by lia.
  rewrite <- append_length. apply substring_suffix.
Qed.

Lemma substring_none (s : string) n : substring n 0 s = EmptyString.
Proof. revert s. induction n; intros s; destruct s; simpl; auto. Qed.

Lemma string_app_nil_r (s : string) : (s ++ "")%string = s.
Proof. induction s as [| c s IH]; simpl; [reflexivity | now rewrite IH]. Qed.

(** The loop from the last span to the first: with the escaped text up to
    [p] in front, it yields the escaped text up to [q] followed by the
    rendering of what lies between [q] and [p]. *)
Lemma highlight_fold txt entities : forall (q p : nat) (tail : string),
  Forall (in_text txt) entities ->
  StronglySorted precedes entities ->
  Forall (fun e => (q <= Z.to_nat (start e))%nat /\ (Z.to_nat (end_ e) <= p)%nat)
         entities ->
  (q <= p)%nat ->
  fold_left (highlight_step txt) (rev entities)
            (html_escape (substring 0 p txt) ++ tail)%string
  = (html_escape (substring 0 q txt)
     ++ render_between txt q p entities ++ tail)%string.
Proof.
  induction entities as [| e rest IH]; intros q p tail Hin Hsorted Hbounds Hqp.
  - simpl. rewrite (substring_split txt q p Hqp), html_escape_app.
    now rewrite string_app_assoc.
  - inversion Hin as [| ? ? He Hrest]; subst.
    inversion Hsorted as [| ? ? Hsrest Hprec]; subst.
    inversion Hbounds as [| ? ? [Hq Hp] Hbrest]; subst.
    simpl rev. rewrite fold_left_app. simpl fold_left.
    destruct (highlighted_entity e) eqn:Hhl.
    + assert (Hafter : Forall (fun r => (Z.to_nat (end_ e) <= Z.to_nat (start r))%nat
                                        /\ (Z.to_nat (end_ r) <= p)%nat) rest).
      { rewrite Forall_forall in *. intros r Hr. split; [| apply (Hbrest r Hr)].
        specialize (Hprec r Hr). unfold precedes in Hprec.
        destruct He as [He _]. lia. }
      rewrite (IH (Z.to_nat (end_ e)) p tail Hrest Hsrest Hafter Hp).
      rewrite (highlight_step_replace txt e _ He Hhl).
      simpl render_between. rewrite Hhl.
      rewrite (substring_split txt q (Z.to_nat (start e)) Hq), html_escape_app.
      now rewrite !string_app_assoc.
    + rewrite (IH q p tail Hrest Hsrest Hbrest Hqp).
      rewrite (highlight_step_skip _ _ _ Hhl). simpl render_between. now rewrite Hhl.
Qed.

Lemma insert_by_start_desc_last x l :
  Forall (fun y => (start x < start y)%Z) l ->
  insert_by_start_desc x l = l ++ [x].
Proof.
  induction 1 as [| y l Hy Hl IH]; simpl; [reflexivity |].
  destruct (Z.leb_spec (start y) (start x)); [lia | now rewrite IH].
Qed.

(** Spans that follow one another are sorted from the last to the first by
    reversing the list. *)
Lemma sort_by_start_desc_rev txt entities :
  Forall (in_text txt) entities ->
  StronglySorted precedes entities ->
  sort_by_start_desc entities = rev entities.
Proof.
  intros Hin Hsorted. induction Hsorted as [| e rest Hrest IH Hprec]; [reflexivity |].
  inversion Hin as [| ? ? He Hinrest]; subst.
  simpl. rewrite (IH Hinrest). apply insert_by_start_desc_last.
  apply Forall_rev. rewrite Forall_forall in *. intros r Hr.
  specialize (Hprec r Hr). unfold precedes in Hprec. destruct He as [He _]. lia.
Qed.

(** The whole loop, over the spans from the last to the first. *)
Lemma highlight_fold_whole (txt : string) (entities : list Entity) :
  Forall (in_text txt) entities ->
  StronglySorted precedes entities ->
  fold_left (highlight_step txt) (rev entities) (html_escape txt)
  = render_between txt 0 (String.length txt) entities.
Proof.
  intros Hin Hsorted.
  rewrite <- (string_app_nil_r (html_escape txt)).
  rewrite <- (substring_all txt) at 2.
  rewrite (highlight_fold txt entities 0 (String.length txt) "" Hin Hsorted).
  - rewrite substring_none, string_app_nil_r. reflexivity.
  - rewrite Forall_forall in *. intros e He. destruct (Hin e He) as [H1 H2].
    split; lia.
  - lia.
Qed.

(** X24. For entities whose spans lie in the text and follow one another
    without overlap, the replacement from the last span to the first gives
    the escaped text with each span of a highlighted entity replaced by its
    anchor or span, and everything outside those spans escaped and in
    place. *)
Theorem create_highlighted_html_renders (txt : string) (entities : list Entity) :
  Forall (in_text txt) entities ->
  StronglySorted precedes entities ->
  create_highlighted_html txt entities
  = render_between txt 0 (String.length txt) entities.
Proof.
  intros Hin Hsorted. unfold create_highlighted_html.
  rewrite (sort_by_start_desc_rev txt entities Hin Hsorted).
  exact (highlight_fold_whole txt entities Hin Hsorted).
Qed.

Lemma create_highlighted_html_renders_witness :
  let txt := "Tom & Ann in Rome" in
  let ann :=
    set_wikidata_url "http://www.wikidata.org/entity/Q1"
                     (new_entity "Ann" "PERSON" 6 9 (Some "PER")) in
  let rome := set_latitude (419 # 10) (new_entity "Rome" "LOCATION" 13 17 (Some "LOC")) in
  Forall (in_text txt) [ann; rome]
  /\ StronglySorted precedes [ann; rome]
  /\ create_highlighted_html txt [rome; ann]
     = ("Tom &amp; "
        ++ anchor "http://www.wikidata.org/entity/Q1" "#BF7B69" "Type: PERSON" "Ann"
        ++ " in " ++ plain_span "#EFCA89" "Type: LOCATION" "Rome")%string
  /\ create_highlighted_html txt [ann; rome]
     = render_between txt 0 (String.length txt) [ann; rome].
Proof.
  intros txt ann rome.
  assert (Hin : Forall (in_text txt) [ann; rome]).
  { repeat constructor; unfold ann, rome; simpl; lia. }
  assert (Hsorted : StronglySorted precedes [ann; rome]).
  { repeat constructor. unfold precedes, ann, rome. simpl. lia. }
  split; [exact Hin |]. split; [exact Hsorted |]. split; [vm_compute; reflexivity |].
  exact (create_highlighted_html_renders txt [ann; rome] Hin Hsorted).
Defined.

Lemma insert_by_start_desc_In x y l :
  In y (insert_by_start_desc x l) -> y = x \/ In y l.
Proof.
  induction l as [| z l IH]; simpl; [intuition congruence |].
  destruct (start z <=? start x)%Z; simpl; [intuition congruence |].
  intros [Hy | Hy]; [tauto |]. apply IH in Hy. tauto.
Qed.

Lemma sort_by_start_desc_In y l : In y (sort_by_start_desc l) -> In y l.
Proof.
  induction l as [| x l IH]; simpl; [tauto |].
  intros Hy. apply insert_by_start_desc_In in Hy.
  destruct Hy as [-> | Hy]; [now left | right; now apply IH].
Qed.

(** X25. Entities with neither link nor coordinates are not highlighted:
    when no entity has one, and in particular for no entity at all, the
    page shows the escaped text, whatever the offsets of the entities. *)
Theorem create_highlighted_html_plain (txt : string) (entities : list Entity) :
  Forall (fun e => highlighted_entity e = false) entities ->
  create_highlighted_html txt entities = html_escape txt.
Proof.
  intros H. unfold create_highlighted_html.
  assert (Hsorted : Forall (fun e => highlighted_entity e = false)
                           (sort_by_start_desc entities)).
  { rewrite Forall_forall in *. intros e He. apply H, sort_by_start_desc_In, He. }
  induction Hsorted as [| e l He Hl IH]; simpl; [reflexivity |].
  now rewrite (highlight_step_skip _ _ _ He).
Qed.

Lemma create_highlighted_html_plain_witness :
  let e := new_entity "Tom" "PERSON" (- 5) 400 (Some "PER") in
  Forall (fun e => highlighted_entity e = false) [e]
  /\ create_highlighted_html "Tom <3 Ann" [e] = "Tom &lt;3 Ann".
Proof.
  intros e.
  assert (H : Forall (fun e => highlighted_entity e = false) [e])
    by (repeat constructor).
  split; [exact H |].
  exact (create_highlighted_html_plain "Tom <3 Ann" [e] H).
Defined.

(** ** Presentation of the resolver's output *)

(** Sorted by start, free of overlap and non-empty, spans follow one
    another. *)
Lemma sorted_disjoint_chain txt l :
  Forall (in_text txt) l ->
  StronglySorted by_start l ->
  ForallOrdPairs disjoint l ->
  StronglySorted precedes l.
Proof.
  intros Hin Hsorted Hdis. induction Hsorted as [| a l Hl IH Ha]; [constructor |].
  inversion Hin as [| ? ? Hina Hinl]; subst.
  inversion Hdis as [| ? ? Hda Hdl]; subst.
  constructor; [now apply IH |].
  rewrite Forall_forall in *. intros b Hb.
  specialize (Ha b Hb). specialize (Hda b Hb). specialize (Hinl b Hb).
  unfold by_start in Ha. unfold disjoint, overlaps in Hda.
  unfold in_text in Hina, Hinl. unfold precedes. lia.
Qed.

Lemma in_text_offsets txt l1 : forall l2,
  map offsets l1 = map offsets l2 ->
  Forall (in_text txt) l2 -> Forall (in_text txt) l1.
Proof.
  induction l1 as [| a l1 IH]; intros [| b l2] Hmap H; try discriminate;
    [constructor |].
  inversion Hmap as [[Hs He Hrest]]. inversion H as [| ? ? Hb Hl2]; subst.
  constructor; [| now apply (IH l2)].
  unfold in_text in *. rewrite Hs, He. exact Hb.
Qed.

Lemma precedes_offsets l1 : forall l2,
  map offsets l1 = map offsets l2 ->
  StronglySorted precedes l2 -> StronglySorted precedes l1.
Proof.
  induction l1 as [| a l1 IH]; intros [| b l2] Hmap H; try discriminate;
    [constructor |].
  inversion Hmap as [[Hs He Hrest]]. inversion H as [| ? ? Hl2 Hb]; subst.
  constructor; [now apply (IH l2) |].
  clear IH H Hl2 Hmap. revert l2 Hrest Hb.
  induction l1 as [| c l1 IH]; intros [| d l2] Hrest Hb; try discriminate;
    [constructor |].
  inversion Hrest as [[Hcs Hce Hrest']]. inversion Hb as [| ? ? Hd Hl2]; subst.
  constructor; [| now apply (IH l2)].
  unfold precedes in *. rewrite He, Hcs. exact Hd.
Qed.

(** X26. What the overlap resolver returns is fit for display: when the
    candidate spans lie in the text, the entities it keeps, with whatever
    links and coordinates the later stages add at unchanged offsets, are
    shown each at its own place, the text between them escaped and
    unchanged. *)
Theorem create_highlighted_html_after_resolution
        (txt : string) (candidates entities : list Entity) :
  Forall (in_text txt) candidates ->
  map offsets entities = map offsets (_remove_overlapping_entities candidates) ->
  create_highlighted_html txt entities
  = render_between txt 0 (String.length txt) entities.
Proof.
  intros Hin Hoffsets.
  assert (Hkept : Forall (in_text txt) (_remove_overlapping_entities candidates)).
  { rewrite Forall_forall in *. intros e He.
    apply Hin, remove_overlapping_subset, He. }
  assert (Hchain : StronglySorted precedes (_remove_overlapping_entities candidates)).
  { apply (sorted_disjoint_chain txt); [exact Hkept | |];
      unfold _remove_overlapping_entities.
    - apply (fold_resolve_sorted (sort_by_start candidates) []);
        [apply sort_by_start_sorted | constructor | constructor].
    - apply fold_resolve_disjoint;
        [apply sort_by_start_sorted | constructor | constructor]. }
  pose proof (in_text_offsets txt _ _ Hoffsets Hkept) as Hin'.
  pose proof (precedes_offsets _ _ Hoffsets Hchain) as Hchain'.
  unfold create_highlighted_html.
  rewrite (sort_by_start_desc_rev txt entities Hin' Hchain').
  exact (highlight_fold_whole txt entities Hin' Hchain').
Qed.

Lemma create_highlighted_html_after_resolution_witness :
  let txt := "New York City & Rome" in
  let candidates :=
    [ new_entity "Rome" "LOCATION" 16 20 (Some "LOC");
      new_entity "New York" "LOCATION" 0 8 (Some "LOC");
      new_entity "New York City" "LOCATION" 0 13 (Some "LOC") ] in
  let entities :=
    map (set_wikidata_url "http://www.wikidata.org/entity/Q1")
        (_remove_overlapping_entities candidates) in
  Forall (in_text txt) candidates
  /\ map offsets entities = map offsets (_remove_overlapping_entities candidates)
  /\ create_highlighted_html txt entities
     = render_between txt 0 (String.length txt) entities
  /\ create_highlighted_html txt entities
     = (anchor "http://www.wikidata.org/entity/Q1" "#EFCA89" "Type: LOCATION"
               "New York City"
        ++ " &amp; "
        ++ anchor "http://www.wikidata.org/entity/Q1" "#EFCA89" "Type: LOCATION"
                  "Rome")%string.
Proof.
  intros txt candidates entities.
  assert (Hin : Forall (in_text txt) candidates).
  { repeat constructor; simpl; lia. }
  assert (Hoffsets :
            map offsets entities = map offsets (_remove_overlapping_entities candidates)).
  { vm_compute. reflexivity. }
  split; [exact Hin |]. split; [exact Hoffsets |].
  split; [| vm_compute; reflexivity].
  exact (create_highlighted_html_after_resolution txt candidates entities Hin Hoffsets).
Defined.
